(** * RichDEM D8 methods: watershed flood-fill and terrain attributes

    A shallow embedding of [d8_methods.cpp]:
    - [find_watersheds], the priority-flood watershed labelling with its
      open priority queue and meander stack, and [watershed_area], the
      report of the area of each watershed;
    - [d8_terrain_attrib_helper] and [d8_terrain_attribute], the 3x3 stencil
      attributes (slope, aspect, curvatures);
    - [d8_SPI] and [d8_CTI], the two log-based indices.

    C++ [float] and [double] values are IEEE-754 binary32 and binary64 values,
    represented by [spec_float], every operation rounding to nearest, ties to
    even, in the format of its C++ type (no excess precision, no fused
    multiply-add).  [int] coordinates, labels and counters are integers of
    [Z]: the source never relies on wrap-around (signed overflow would be
    undefined behaviour), and the counters stay below the number of pushes,
    which is bounded by the grid size. *)

From Stdlib Require Import String ZArith List Bool Lia.
From Stdlib Require Import Floats.
From Stdlib Require Import Sorted FinFun.
From Stdlib Require Import DecimalString.
Import ListNotations.
Open Scope Z_scope.

(** ** Floating point numbers *)

Module FP.

(** [float]: binary32, 24 bits of precision, infinities at exponent 128. *)
Definition float := spec_float.
(** [double]: binary64, 53 bits of precision, infinities at exponent 1024. *)
Definition double := spec_float.

Definition fprec := 24.
Definition femax := 128.
Definition dprec := 53.
Definition demax := 1024.

(** Conversions.  [to_double] is exact (every binary32 value is a binary64
    value) and only renormalises the mantissa; [to_float] rounds to nearest,
    ties to even. *)
Definition to_double (v : float) : double :=
  match v with
  | S754_finite s m e => binary_round dprec demax s m e
  | _ => v
  end.

Definition to_float (v : double) : float :=
  match v with
  | S754_finite s m e => binary_round fprec femax s m e
  | _ => v
  end.

Definition float_of_int (n : Z) : float := binary_normalize fprec femax n 0 false.
Definition double_of_int (n : Z) : double := binary_normalize dprec demax n 0 false.

(** Arithmetic on doubles. *)
Definition dadd := SFadd dprec demax.
Definition dsub := SFsub dprec demax.
Definition dmul := SFmul dprec demax.
Definition ddiv := SFdiv dprec demax.
Definition dsqrt := SFsqrt dprec demax.
Definition dneg := SFopp.

(** Arithmetic on floats. *)
Definition fsub := SFsub fprec femax.
Definition fmul := SFmul fprec femax.
Definition fdiv := SFdiv fprec femax.

(** Comparisons of two values of the same format: [==], [!=], [<=], [<], [>]. *)
Definition eqb := SFeqb.
Definition neqb (a b : spec_float) := negb (SFeqb a b).
Definition leb := SFleb.
Definition ltb := SFltb.
Definition gtb (a b : spec_float) := SFltb b a.

Definition is_nan (v : spec_float) : bool :=
  match v with S754_nan => true | _ => false end.

(** Literals of the source. *)
Definition d_0_3048 : double := Eval vm_compute in Prim2SF 0x1.381d7dbf487fdp-2%float.
Definition d_0_001 : double := Eval vm_compute in Prim2SF 0x1.0624dd2f1a9fcp-10%float.
Definition M_PI : double := Eval vm_compute in Prim2SF 0x1.921fb54442d18p+1%float.
Definition d_180 : double := Eval vm_compute in double_of_int 180.
Definition d_90 : double := Eval vm_compute in double_of_int 90.
Definition d_360 : double := Eval vm_compute in double_of_int 360.

End FP.

(** ** The grid container

    Modelled from the spec: the generic 2D grid of [data_structures.h] is not
    part of the sources at hand.  The spec (sections 2 and 6) asks of it a
    designated no-data sentinel, a cell size, the bounds test [in_grid],
    indexed read and write, [copyprops] to adopt another grid's dimensions and
    cell size, [init] to fill all cells, [width] and [height].  Cells are read
    and written by coordinates [(x, y)].  The store is a total map: the
    container's behaviour on coordinates outside [in_grid] is not described,
    and the only such accesses of the embedded functions are those of the
    seeding loops of [find_watersheds] on a grid without cells ([width < 1]
    or [height < 1], see [find_watersheds_in_bounds]). *)

Record array2d (T : Type) : Type := mk_array2d {
  width : Z;
  height : Z;
  cellsize : FP.double;
  no_data : T;
  data : Z -> Z -> T
}.

Arguments mk_array2d {T}.
Arguments width {T}.
Arguments height {T}.
Arguments cellsize {T}.
Arguments no_data {T}.
Arguments data {T}.

Definition float_2d := array2d FP.float.
Definition int_2d := array2d Z.
Definition bool_2d := array2d bool.

(** [g(x,y)] as an rvalue. *)
Definition get {T} (g : array2d T) (x y : Z) : T := data g x y.

(** [g(x,y) = v]. *)
Definition set {T} (g : array2d T) (x y : Z) (v : T) : array2d T :=
  mk_array2d (width g) (height g) (cellsize g) (no_data g)
    (fun x' y' => if (x' =? x) && (y' =? y) then v else data g x' y').

(** [g.no_data = v]. *)
Definition set_no_data {T} (g : array2d T) (v : T) : array2d T :=
  mk_array2d (width g) (height g) (cellsize g) v (data g).

Definition in_grid {T} (g : array2d T) (x y : Z) : bool :=
  (0 <=? x) && (0 <=? y) && (x <? width g) && (y <? height g).

Definition copyprops {T U} (g : array2d T) (from : array2d U) : array2d T :=
  mk_array2d (width from) (height from) (cellsize from) (no_data g) (data g).

Definition init {T} (g : array2d T) (v : T) : array2d T :=
  mk_array2d (width g) (height g) (cellsize g) (no_data g) (fun _ _ => v).

(** ** Counted loops

    [for (int k = lo; k < hi; k++) body] over a state [St]. *)

Definition zrange (lo hi : Z) : list Z :=
  map (fun i => lo + Z.of_nat i) (seq 0 (Z.to_nat (hi - lo))).

Definition for_loop {St} (lo hi : Z) (body : Z -> St -> St) (s : St) : St :=
  fold_left (fun acc k => body k acc) (zrange lo hi) s.

(** ** Frontier structures of the flood *)

(** [grid_cellz]: a cell with the elevation it was queued with. *)
Record grid_cellz : Type := mk_grid_cellz {
  cell_x : Z;
  cell_y : Z;
  cell_z : FP.float
}.

(** The 8-neighbour offset tables [dx], [dy] of [utility.h], indexed [1..8],
    are not part of the sources at hand; the flood is embedded over any pair
    of tables. *)
Class Neighbourhood : Type := {
  dx : Z -> Z;
  dy : Z -> Z
}.

(** Modelled from the spec: the tables [dx] and [dy] as the eight grid-adjacent
    offsets (N, S, E, W and the four diagonals), entry 0 being the cell itself. *)
Definition d8_dx (n : Z) : Z :=
  nth (Z.to_nat n) [0; -1; -1; 0; 1; 1; 1; 0; -1] 0.
Definition d8_dy (n : Z) : Z :=
  nth (Z.to_nat n) [0; 0; -1; -1; -1; 0; 1; 1; 1] 0.

#[export] Instance d8_neighbourhood : Neighbourhood := {| dx := d8_dx; dy := d8_dy |}.

(** [grid_cellz_pq], the open priority queue, is a [std::priority_queue] whose
    comparator is declared in [data_structures.h], not part of the sources at
    hand.  The queue is embedded as the list of its entries, most recently
    pushed first, with the position of the entry that [top()] returns left to
    the comparator: [top_index].  Whatever the comparator, [top()] returns one
    of the entries of a non-empty queue. *)
Class PriorityQueue : Type := {
  top_index : list grid_cellz -> nat;
  top_index_lt : forall q, q <> [] -> (top_index q < length q)%nat
}.

Definition pq_push (c : grid_cellz) (q : list grid_cellz) : list grid_cellz := c :: q.

(** [c = open.top(); open.pop();] *)
Definition pq_pop `{PriorityQueue} (q : list grid_cellz)
  : option (grid_cellz * list grid_cellz) :=
  match nth_error q (top_index q) with
  | Some c => Some (c, firstn (top_index q) q ++ skipn (S (top_index q)) q)
  | None => None
  end.

(** Position of a best entry of [q] for a strict order [before] on elevations:
    the first entry that no other entry comes before. *)
Fixpoint best_index (before : FP.float -> FP.float -> bool)
         (q : list grid_cellz) : nat :=
  match q with
  | [] => O
  | c :: q' =>
      match q' with
      | [] => O
      | _ :: _ =>
          let i := best_index before q' in
          match nth_error q' i with
          | Some b => if before (cell_z b) (cell_z c) then S i else O
          | None => O
          end
      end
  end.

Lemma best_index_lt : forall before q, q <> [] -> (best_index before q < length q)%nat.
Proof.
  intros before q. induction q as [|c q' IH]; intro Hq; [congruence|].
  destruct q' as [|c' q'']; [simpl; lia|].
  assert (Hi : (best_index before (c' :: q'') < length (c' :: q''))%nat)
    by (apply IH; discriminate).
  change (best_index before (c :: c' :: q''))
    with (let i := best_index before (c' :: q'') in
          match nth_error (c' :: q'') i with
          | Some b => if before (cell_z b) (cell_z c) then S i else O
          | None => O
          end).
  cbv zeta.
  destruct (nth_error (c' :: q'') (best_index before (c' :: q''))) as [b|].
  - destruct (before (cell_z b) (cell_z c)); simpl length in *; lia.
  - simpl length; lia.
Qed.

(** The queue that serves the lowest elevation first. *)
#[export] Instance lowest_first : PriorityQueue :=
  {| top_index := best_index FP.ltb; top_index_lt := best_index_lt FP.ltb |}.

(** Modelled from the spec: "a max-elevation-ordered priority queue", the
    queue that serves the highest elevation first. *)
Definition highest_first : PriorityQueue :=
  {| top_index := best_index FP.gtb; top_index_lt := best_index_lt FP.gtb |}.

(** ** [find_watersheds] *)

(** The local variables of [find_watersheds] together with its two grid
    arguments. *)
Record fw_state : Type := mk_fw_state {
  elevations : float_2d;
  labels : int_2d;
  closed : bool_2d;
  open : list grid_cellz;
  meander : list grid_cellz;
  processed_cells : Z;
  pitc : Z;
  openc : Z;
  clabel : Z
}.

Definition set_elevations (g : float_2d) (s : fw_state) : fw_state :=
  mk_fw_state g (labels s) (closed s) (open s) (meander s)
    (processed_cells s) (pitc s) (openc s) (clabel s).

Definition set_labels (g : int_2d) (s : fw_state) : fw_state :=
  mk_fw_state (elevations s) g (closed s) (open s) (meander s)
    (processed_cells s) (pitc s) (openc s) (clabel s).

Definition set_closed (g : bool_2d) (s : fw_state) : fw_state :=
  mk_fw_state (elevations s) (labels s) g (open s) (meander s)
    (processed_cells s) (pitc s) (openc s) (clabel s).

Definition set_open (q : list grid_cellz) (s : fw_state) : fw_state :=
  mk_fw_state (elevations s) (labels s) (closed s) q (meander s)
    (processed_cells s) (pitc s) (openc s) (clabel s).

Definition set_meander (q : list grid_cellz) (s : fw_state) : fw_state :=
  mk_fw_state (elevations s) (labels s) (closed s) (open s) q
    (processed_cells s) (pitc s) (openc s) (clabel s).

Definition set_clabel (n : Z) (s : fw_state) : fw_state :=
  mk_fw_state (elevations s) (labels s) (closed s) (open s) (meander s)
    (processed_cells s) (pitc s) (openc s) n.

(** [open.push(grid_cellz(x, y, z))] and [meander.push(grid_cellz(x, y, z))]. *)
Definition open_push (x y : Z) (z : FP.float) (s : fw_state) : fw_state :=
  set_open (pq_push (mk_grid_cellz x y z) (open s)) s.

Definition meander_push (x y : Z) (z : FP.float) (s : fw_state) : fw_state :=
  set_meander (mk_grid_cellz x y z :: meander s) s.

(** [closed(x,y) = true]. *)
Definition close (x y : Z) (s : fw_state) : fw_state :=
  set_closed (set (closed s) x y true) s.

(** The grid a default-constructed [bool_2d] starts as; [copyprops] and [init]
    replace its dimensions and cells before any use. *)
Definition new_bool_2d : bool_2d := mk_array2d 0 0 (S754_zero false) false (fun _ _ => false).

(** Lines 334-352: declarations, [closed] all false, [labels] all [-1]. *)
Definition fw_setup (elev : float_2d) (lab : int_2d) : fw_state :=
  let closed := init (copyprops new_bool_2d elev) false in
  let lab := copyprops lab elev in
  let lab := set_no_data lab (-1) in
  let lab := init lab (no_data lab) in
  mk_fw_state elev lab closed [] [] 0 0 0 1.

(** Lines 356-361, the body of the loop over [x]: top and bottom rows. *)
Definition seed_column (x : Z) (s : fw_state) : fw_state :=
  let e := elevations s in
  let s := open_push x 0 (get e x 0) s in
  let s := open_push x (height e - 1) (get e x (height e - 1)) s in
  let s := close x 0 s in
  close x (height e - 1) s.

(** Lines 362-367, the body of the loop over [y]: left and right columns. *)
Definition seed_row (y : Z) (s : fw_state) : fw_state :=
  let e := elevations s in
  let s := open_push 0 y (get e 0 y) s in
  let s := open_push (width e - 1) y (get e (width e - 1) y) s in
  let s := close 0 y s in
  close (width e - 1) y s.

(** Lines 356-367: the seeding phase. *)
Definition fw_seed (s : fw_state) : fw_state :=
  let s := for_loop 0 (width (elevations s)) seed_column s in
  for_loop 1 (height (elevations s) - 1) seed_row s.

Section Flood.
Context {pq : PriorityQueue} {nb : Neighbourhood}.

(** Lines 373-383: take [c] from the meander stack when it is not empty, from
    the open queue otherwise; [None] when the loop condition is false. *)
Definition fw_pop (s : fw_state) : option (grid_cellz * fw_state) :=
  match meander s with
  | c :: m =>
      Some (c, mk_fw_state (elevations s) (labels s) (closed s) (open s) m
                 (processed_cells s + 1) (pitc s + 1) (openc s) (clabel s))
  | [] =>
      match pq_pop (open s) with
      | Some (c, q) =>
          Some (c, mk_fw_state (elevations s) (labels s) (closed s) q (meander s)
                     (processed_cells s + 1) (pitc s) (openc s + 1) (clabel s))
      | None => None
      end
  end.

(** Lines 385-386: an unlabelled cell with a valid elevation starts a new
    watershed. *)
Definition fw_label (c : grid_cellz) (s : fw_state) : fw_state :=
  if (get (labels s) (cell_x c) (cell_y c) =? no_data (labels s))
     && FP.neqb (get (elevations s) (cell_x c) (cell_y c)) (no_data (elevations s))
  then set_clabel (clabel s + 1)
         (set_labels (set (labels s) (cell_x c) (cell_y c) (clabel s)) s)
  else s.

(** Lines 389-403: the body of the loop over the neighbours [n]. *)
Definition fw_visit (alter_elevations : bool) (c : grid_cellz) (n : Z)
           (s : fw_state) : fw_state :=
  let nx := cell_x c + dx n in
  let ny := cell_y c + dy n in
  if negb (in_grid (elevations s) nx ny) then s
  else if get (closed s) nx ny then s
  else
    let s := set_labels (set (labels s) nx ny (get (labels s) (cell_x c) (cell_y c))) s in
    let s := close nx ny s in
    if FP.leb (get (elevations s) nx ny) (cell_z c) then
      let s := if alter_elevations
               then set_elevations (set (elevations s) nx ny (cell_z c)) s
               else s in
      meander_push nx ny (cell_z c) s
    else
      open_push nx ny (get (elevations s) nx ny) s.

(** Lines 388-404: [for (int n = 1; n <= 8; n++)]. *)
Definition fw_neighbours (alter_elevations : bool) (c : grid_cellz)
           (s : fw_state) : fw_state :=
  for_loop 1 9 (fw_visit alter_elevations c) s.

(** Lines 373-405: one iteration of the main loop. *)
Definition fw_body (alter_elevations : bool) (s : fw_state) : option fw_state :=
  match fw_pop s with
  | Some (c, s) => Some (fw_neighbours alter_elevations c (fw_label c s))
  | None => None
  end.

(** Lines 372-406: the main loop, run for at most [fuel] iterations; [None]
    when the loop has not finished by then. *)
Fixpoint fw_loop (alter_elevations : bool) (fuel : nat) (s : fw_state)
  : option fw_state :=
  match fw_body alter_elevations s with
  | None => Some s
  | Some s' =>
      match fuel with
      | O => None
      | S fuel' => fw_loop alter_elevations fuel' s'
      end
  end.

(** The state after [n] iterations of the main loop (fewer when the loop
    finishes earlier). *)
Fixpoint fw_iter (alter_elevations : bool) (n : nat) (s : fw_state) : fw_state :=
  match n with
  | O => s
  | S n' =>
      match fw_body alter_elevations s with
      | Some s' => fw_iter alter_elevations n' s'
      | None => s
      end
  end.

(** All cells of a [w] by [h] grid, column by column. *)
Definition grid_cells (w h : Z) : list (Z * Z) :=
  flat_map (fun x => map (fun y => (x, y)) (zrange 0 h)) (zrange 0 w).

(** Number of cells of the grid that are not closed yet. *)
Definition unclosed (s : fw_state) : nat :=
  length (filter (fun p => negb (get (closed s) (fst p) (snd p)))
            (grid_cells (width (elevations s)) (height (elevations s)))).

(** A bound on the number of iterations left from [s]: every iteration pops
    one entry, and every push closes a cell that was not closed. *)
Definition fw_fuel (s : fw_state) : nat :=
  (2 * unclosed s + length (open s) + length (meander s))%nat.

(** [find_watersheds(elevations, labels, alter_elevations)]: the final state
    of the locals and of the two grids. *)
Definition find_watersheds_state (elev : float_2d) (lab : int_2d)
           (alter_elevations : bool) : option fw_state :=
  let s := fw_seed (fw_setup elev lab) in
  fw_loop alter_elevations (fw_fuel s) s.

(** The two grids [find_watersheds] leaves to its caller. *)
Definition find_watersheds (elev : float_2d) (lab : int_2d)
           (alter_elevations : bool) : option (float_2d * int_2d) :=
  match find_watersheds_state elev lab alter_elevations with
  | Some s => Some (elevations s, labels s)
  | None => None
  end.

End Flood.

(** ** [watershed_area] *)

(** [std::map<int, int>]: its entries in ascending key order, the order in
    which iteration yields them. *)
Definition int_map : Type := list (Z * Z).

(** [m[k]++]: a key that is missing is first inserted with the value 0. *)
Fixpoint map_incr (k : Z) (m : int_map) : int_map :=
  match m with
  | [] => [(k, 1)]
  | (k', v) :: m' =>
      if k <? k' then (k, 1) :: m
      else if k =? k' then (k', v + 1) :: m'
      else (k', v) :: map_incr k m'
  end.

(** The value stored under [k], if any. *)
Definition map_find (k : Z) (m : int_map) : option Z :=
  option_map snd (find (fun kv => fst kv =? k) m).

(** Lines 419-420: the body of the two loops. *)
Definition count_label (labels : int_2d) (x y : Z) (wsheds : int_map) : int_map :=
  if negb (get labels x y =? no_data labels)
  then map_incr (get labels x y) wsheds
  else wsheds.

(** Lines 416-420: the map [wsheds] after the two loops. *)
Definition watershed_counts (labels : int_2d) : int_map :=
  for_loop 0 (width labels)
    (fun x wsheds => for_loop 0 (height labels) (count_label labels x) wsheds)
    [].

(** [%d] of [printf]. *)
Definition print_int (n : Z) : string := NilZero.string_of_int (Z.to_int n).

(** Line 423: one line of the report (the newline kept as the source
    spells it). *)
Definition area_line (kv : Z * Z) : string :=
  String.append "Watershed "
    (String.append (print_int (fst kv))
       (String.append " has area "
          (String.append (print_int (snd kv)) "\n"))).

(** [watershed_area(labels)]: the lines it prints. *)
Definition watershed_area (labels : int_2d) : list string :=
  map area_line (watershed_counts labels).

(** ** Terrain attributes *)

(** The functions of [<cmath>] the source calls, on doubles.  They belong to
    the C library, not to the sources at hand; the embedding holds for
    whatever functions the library provides. *)
Class Libm : Type := {
  atan2 : FP.double -> FP.double -> FP.double;
  atan : FP.double -> FP.double;
  log : FP.double -> FP.double
}.

(** The attribute selectors [TATTRIB_*] are macros of [d8_methods.h], not part
    of the sources at hand: eight integer constants, distinct since they label
    the cases of one [switch]. *)
Class Selectors : Type := {
  TATTRIB_CURVATURE : Z;
  TATTRIB_PLANFORM_CURVATURE : Z;
  TATTRIB_PROFILE_CURVATURE : Z;
  TATTRIB_ASPECT : Z;
  TATTRIB_SLOPE_RISERUN : Z;
  TATTRIB_SLOPE_PERCENT : Z;
  TATTRIB_SLOPE_RADIAN : Z;
  TATTRIB_SLOPE_DEGREE : Z;
  selectors_distinct :
    NoDup [TATTRIB_CURVATURE; TATTRIB_PLANFORM_CURVATURE;
           TATTRIB_PROFILE_CURVATURE; TATTRIB_ASPECT; TATTRIB_SLOPE_RISERUN;
           TATTRIB_SLOPE_PERCENT; TATTRIB_SLOPE_RADIAN; TATTRIB_SLOPE_DEGREE]
}.

(** The five outputs of [d8_terrain_attrib_helper]. *)
Record terrain_attribs : Type := mk_terrain_attribs {
  rise_over_run : FP.float;
  aspect : FP.float;
  curvature : FP.float;
  profile_curvature : FP.float;
  planform_curvature : FP.float
}.

(** Lines 82-98 for one cell of the 3x3 window: the centre value [e], replaced
    by the neighbour at offset [(ox, oy)] when it is in the grid, and put back
    to [e] when that is no-data. *)
Definition window (elevations : float_2d) (x0 y0 ox oy : Z) : FP.double :=
  let e := FP.to_double (get elevations x0 y0) in
  let v := if in_grid elevations (x0 + ox) (y0 + oy)
           then FP.to_double (get elevations (x0 + ox) (y0 + oy))
           else e in
  if FP.eqb v (FP.to_double (no_data elevations)) then e else v.

Section Terrain.
Context {libm : Libm} {selectors : Selectors}.

Definition d8_terrain_attrib_helper (elevations : float_2d) (x0 y0 : Z)
  : terrain_attribs :=
  let two := FP.double_of_int 2 in
  let zero := FP.double_of_int 0 in
  let f0 := FP.float_of_int 0 in
  (* a b c / d e f / g h i *)
  let a := window elevations x0 y0 (-1) (-1) in
  let d := window elevations x0 y0 (-1) 0 in
  let g := window elevations x0 y0 (-1) 1 in
  let b := window elevations x0 y0 0 (-1) in
  let e := FP.to_double (get elevations x0 y0) in
  let h := window elevations x0 y0 0 1 in
  let c := window elevations x0 y0 1 (-1) in
  let f := window elevations x0 y0 1 0 in
  let i := window elevations x0 y0 1 1 in
  let a := FP.dmul a FP.d_0_3048 in
  let b := FP.dmul b FP.d_0_3048 in
  let c := FP.dmul c FP.d_0_3048 in
  let d := FP.dmul d FP.d_0_3048 in
  let e := FP.dmul e FP.d_0_3048 in
  let f := FP.dmul f FP.d_0_3048 in
  let g := FP.dmul g FP.d_0_3048 in
  let h := FP.dmul h FP.d_0_3048 in
  let i := FP.dmul i FP.d_0_3048 in
  let dzdx := FP.ddiv (FP.dsub (FP.dadd (FP.dadd c (FP.dmul two f)) i)
                               (FP.dadd (FP.dadd a (FP.dmul two d)) g))
                      (FP.double_of_int 8) in
  let dzdy := FP.ddiv (FP.dsub (FP.dadd (FP.dadd g (FP.dmul two h)) i)
                               (FP.dadd (FP.dadd a (FP.dmul two b)) c))
                      (FP.double_of_int 8) in
  let aspect := FP.to_float (FP.dmul (FP.ddiv FP.d_180 FP.M_PI)
                                     (atan2 dzdy (FP.dneg dzdx))) in
  let aspect :=
    if FP.ltb aspect f0 then FP.fsub (FP.float_of_int 90) aspect
    else if FP.gtb (FP.to_double aspect) FP.d_90
         then FP.to_float (FP.dadd (FP.dsub FP.d_360 (FP.to_double aspect)) FP.d_90)
         else FP.to_float (FP.dsub FP.d_90 (FP.to_double aspect)) in
  let dzdx := FP.ddiv dzdx (cellsize elevations) in
  let dzdy := FP.ddiv dzdy (cellsize elevations) in
  let rise_over_run :=
    FP.to_float (FP.dsqrt (FP.dadd (FP.dmul dzdx dzdx) (FP.dmul dzdy dzdy))) in
  if FP.eqb rise_over_run f0 then
    mk_terrain_attribs rise_over_run (FP.float_of_int (-1)) f0 f0 f0
  else
    let L := cellsize elevations in
    let D := FP.ddiv (FP.ddiv (FP.dsub (FP.ddiv (FP.dadd d f) two) e) L) L in
    let E := FP.ddiv (FP.ddiv (FP.dsub (FP.ddiv (FP.dadd b h) two) e) L) L in
    let F := FP.ddiv (FP.ddiv (FP.ddiv
               (FP.dsub (FP.dadd (FP.dadd (FP.dneg a) c) g) i)
               (FP.double_of_int 4)) L) L in
    let G := FP.ddiv (FP.ddiv (FP.dadd (FP.dneg d) f) two) L in
    let H := FP.ddiv (FP.ddiv (FP.dsub b h) two) L in
    let hundred := FP.double_of_int 100 in
    let curvature :=
      FP.to_float (FP.dmul (FP.dmul (FP.double_of_int (-2)) (FP.dadd D E)) hundred) in
    if FP.eqb G zero && FP.eqb H zero then
      mk_terrain_attribs rise_over_run aspect curvature f0 f0
    else
      let GG_HH := FP.dadd (FP.dmul G G) (FP.dmul H H) in
      let profile :=
        FP.to_float
          (FP.dmul
             (FP.ddiv
                (FP.dmul two
                   (FP.dadd (FP.dadd (FP.dmul (FP.dmul D G) G)
                                     (FP.dmul (FP.dmul E H) H))
                            (FP.dmul (FP.dmul F G) H)))
                GG_HH)
             hundred) in
      let planform :=
        FP.to_float
          (FP.dmul
             (FP.ddiv
                (FP.dmul (FP.double_of_int (-2))
                   (FP.dsub (FP.dadd (FP.dmul (FP.dmul D H) H)
                                     (FP.dmul (FP.dmul E G) G))
                            (FP.dmul (FP.dmul F G) H)))
                GG_HH)
             hundred) in
      mk_terrain_attribs rise_over_run aspect curvature profile planform.

(** Lines 223-244: the [switch] on the selector; no case, no write. *)
Definition select_attrib (attrib : Z) (t : terrain_attribs) : option FP.float :=
  if attrib =? TATTRIB_CURVATURE then Some (curvature t)
  else if attrib =? TATTRIB_PLANFORM_CURVATURE then Some (planform_curvature t)
  else if attrib =? TATTRIB_PROFILE_CURVATURE then Some (profile_curvature t)
  else if attrib =? TATTRIB_ASPECT then Some (aspect t)
  else if attrib =? TATTRIB_SLOPE_RISERUN then Some (rise_over_run t)
  else if attrib =? TATTRIB_SLOPE_PERCENT
       then Some (FP.fmul (rise_over_run t) (FP.float_of_int 100))
  else if attrib =? TATTRIB_SLOPE_RADIAN
       then Some (FP.to_float (atan (FP.to_double (rise_over_run t))))
  else if attrib =? TATTRIB_SLOPE_DEGREE
       then Some (FP.to_float
                    (FP.ddiv (FP.dmul (atan (FP.to_double (rise_over_run t)))
                                      FP.d_180)
                             FP.M_PI))
  else None.

(** Lines 213-244: the body of the two loops, for the cell [(x, y)]. *)
Definition terrain_cell (elevations : float_2d) (attrib : Z) (x y : Z)
           (attribs : float_2d) : float_2d :=
  if FP.eqb (get elevations x y) (no_data elevations)
  then set attribs x y (no_data attribs)
  else
    match select_attrib attrib (d8_terrain_attrib_helper elevations x y) with
    | Some v => set attribs x y v
    | None => attribs
    end.

Definition d8_terrain_attribute (elevations attribs : float_2d) (attrib : Z)
  : float_2d :=
  let attribs := copyprops attribs elevations in
  let attribs := set_no_data attribs (FP.float_of_int (-99999)) in
  for_loop 0 (width elevations)
    (fun x attribs =>
       for_loop 0 (height elevations) (terrain_cell elevations attrib x) attribs)
    attribs.

Definition d8_slope (elevations slopes : float_2d) (slope_type : Z) : float_2d :=
  d8_terrain_attribute elevations slopes slope_type.

Definition d8_aspect (elevations aspects : float_2d) : float_2d :=
  d8_terrain_attribute elevations aspects TATTRIB_ASPECT.

Definition d8_curvature (elevations curvatures : float_2d) : float_2d :=
  d8_terrain_attribute elevations curvatures TATTRIB_CURVATURE.

Definition d8_planform_curvature (elevations planform_curvatures : float_2d)
  : float_2d :=
  d8_terrain_attribute elevations planform_curvatures TATTRIB_PLANFORM_CURVATURE.

Definition d8_profile_curvature (elevations profile_curvatures : float_2d)
  : float_2d :=
  d8_terrain_attribute elevations profile_curvatures TATTRIB_PROFILE_CURVATURE.

End Terrain.

(** ** SPI and CTI *)

(** What a call leaves behind: the diagnostics written so far, the exit code
    when [exit] was called, and the result grid. *)
Record outcome : Type := mk_outcome {
  diagnostics : list string;
  exit_code : option Z;
  result : float_2d
}.

(** [diagnostic(msg)]: the message is appended to the diagnostics (messages
    are kept as the source spells them; the timings of
    [diagnostic_arg] are left out). *)
Definition diagnostic (msg : string) (diag : list string) : list string :=
  diag ++ [msg].

Section Indices.
Context {libm : Libm}.

(** Line 485. *)
Definition spi_value (flow_accumulation percent_slope : float_2d) (x y : Z)
  : FP.float :=
  FP.to_float
    (log (FP.dmul
            (FP.dmul (cellsize flow_accumulation)
                     (FP.dadd (FP.to_double (get flow_accumulation x y)) FP.d_0_001))
            (FP.dadd (FP.to_double (FP.fdiv (get percent_slope x y)
                                            (FP.float_of_int 100)))
                     FP.d_0_001))).

(** Line 541. *)
Definition cti_value (flow_accumulation percent_slope : float_2d) (x y : Z)
  : FP.float :=
  FP.to_float
    (log (FP.ddiv
            (FP.dmul (cellsize flow_accumulation)
                     (FP.dadd (FP.to_double (get flow_accumulation x y)) FP.d_0_001))
            (FP.dadd (FP.to_double (FP.fdiv (get percent_slope x y)
                                            (FP.float_of_int 100)))
                     FP.d_0_001))).

(** Lines 482-485 and 538-541: the body of the two loops. *)
Definition index_cell (value : float_2d -> float_2d -> Z -> Z -> FP.float)
           (flow_accumulation percent_slope : float_2d) (x y : Z)
           (result : float_2d) : float_2d :=
  if FP.eqb (get flow_accumulation x y) (no_data flow_accumulation)
     || FP.eqb (get percent_slope x y) (no_data percent_slope)
  then set result x y (no_data result)
  else set result x y (value flow_accumulation percent_slope x y).

Definition d8_SPI (flow_accumulation percent_slope result : float_2d)
           (diag : list string) : outcome :=
  let diag := diagnostic "\n###d8_SPI\n" diag in
  if negb (width flow_accumulation =? width percent_slope)
     || negb (height flow_accumulation =? height percent_slope)
  then
    let diag := diagnostic
      "Couldn't calculate SPI! The input matricies were of unequal dimensions!\n"
      diag in
    mk_outcome diag (Some (-1)) result
  else
    let diag := diagnostic "Setting up the SPI matrix..." diag in
    let result := copyprops result flow_accumulation in
    let result := set_no_data result (FP.float_of_int (-1)) in
    let diag := diagnostic "succeeded.\n" diag in
    let diag := diagnostic "Calculating SPI...\n" diag in
    let result :=
      for_loop 0 (width flow_accumulation)
        (fun x result =>
           for_loop 0 (height flow_accumulation)
             (index_cell spi_value flow_accumulation percent_slope x) result)
        result in
    let diag := diagnostic "succeeded in %lfs.\n" diag in
    mk_outcome diag None result.

Definition d8_CTI (flow_accumulation percent_slope result : float_2d)
           (diag : list string) : outcome :=
  let diag := diagnostic "\n###d8_CTI\n" diag in
  if negb (width flow_accumulation =? width percent_slope)
     || negb (height flow_accumulation =? height percent_slope)
  then
    let diag := diagnostic
      "Couldn't calculate CTI! The input matricies were of unequal dimensions!\n"
      diag in
    mk_outcome diag (Some (-1)) result
  else
    let diag := diagnostic "Setting up the CTI matrix..." diag in
    let result := copyprops result flow_accumulation in
    let result := set_no_data result (FP.float_of_int (-1)) in
    let diag := diagnostic "succeeded.\n" diag in
    let diag := diagnostic "Calculating CTI..." diag in
    let result :=
      for_loop 0 (width flow_accumulation)
        (fun x result =>
           for_loop 0 (height flow_accumulation)
             (index_cell cti_value flow_accumulation percent_slope x) result)
        result in
    let diag := diagnostic "succeeded in %lfs.\n" diag in
    mk_outcome diag None result.

End Indices.

(** ** Notions the properties are stated with *)

(** The entries one iteration of each seeding loop pushes, in push order. *)
Definition column_seeds (e : float_2d) (x : Z) : list grid_cellz :=
  [mk_grid_cellz x 0 (get e x 0);
   mk_grid_cellz x (height e - 1) (get e x (height e - 1))].

Definition row_seeds (e : float_2d) (y : Z) : list grid_cellz :=
  [mk_grid_cellz 0 y (get e 0 y);
   mk_grid_cellz (width e - 1) y (get e (width e - 1) y)].

(** All entries the seeding phase pushes, in push order. *)
Definition seeds (e : float_2d) : list grid_cellz :=
  flat_map (column_seeds e) (zrange 0 (width e))
  ++ flat_map (row_seeds e) (zrange 1 (height e - 1)).

(** The coordinates of an entry. *)
Definition cell_xy (c : grid_cellz) : Z * Z := (cell_x c, cell_y c).

(** [(x, y)] lies on the outer boundary of the grid [e]. *)
Definition on_boundary {T} (e : array2d T) (x y : Z) : Prop :=
  0 <= x < width e /\ 0 <= y < height e /\
  (x = 0 \/ y = 0 \/ x = width e - 1 \/ y = height e - 1).

(** The entries waiting in the two frontier structures. *)
Definition entries (s : fw_state) : list grid_cellz := open s ++ meander s.

(** The entries pushed between the state [s1] and the later state [s2] of one
    iteration: pushes go to the front of the two frontier lists. *)
Definition fw_pushed (s1 s2 : fw_state) : list grid_cellz :=
  firstn (length (open s2) - length (open s1)) (open s2)
  ++ firstn (length (meander s2) - length (meander s1)) (meander s2).

(** [c], popped in state [s], discovers the entry [e]: the iteration that
    processes [c] pushes [e]. *)
Definition discovers `{PriorityQueue} `{Neighbourhood} (alter : bool)
           (s : fw_state) (c e : grid_cellz) : Prop :=
  exists s1, fw_pop s = Some (c, s1) /\
             In e (fw_pushed s1 (fw_neighbours alter c (fw_label c s1))).

(** A flood-discovery path, most recent entry first: it starts at a seed on
    the boundary, and each further entry is pushed by the iteration that
    processes the entry before it. *)
Inductive discovery_path `{PriorityQueue} `{Neighbourhood}
          (alter : bool) (elev : float_2d) (lab : int_2d)
  : list grid_cellz -> Prop :=
| path_seed : forall c,
    In c (open (fw_seed (fw_setup elev lab))) -> discovery_path alter elev lab [c]
| path_step : forall n c e p,
    discovery_path alter elev lab (c :: p) ->
    discovers alter (fw_iter alter n (fw_seed (fw_setup elev lab))) c e ->
    discovery_path alter elev lab (e :: c :: p).

(** The flood elevation carried by [later] is at least the one carried by
    [earlier]. *)
Definition not_below (later earlier : grid_cellz) : Prop :=
  FP.leb (cell_z earlier) (cell_z later) = true.

(** The flood elevation carried by [later] is the one carried by [earlier],
    or it is not at or below it: above it, or not comparable to it because
    one of the two is a NaN. *)
Definition not_lowered (later earlier : grid_cellz) : Prop :=
  cell_z later = cell_z earlier \/
  FP.leb (cell_z later) (cell_z earlier) = false.

(** The grid holds elevations: no cell of it is a NaN. *)
Definition real_valued (elev : float_2d) : Prop :=
  forall x y, in_grid elev x y = true -> FP.is_nan (get elev x y) = false.

(** ** Example inputs *)

(** A label grid as a caller declares it, before [find_watersheds] sizes it. *)
Definition empty_labels : int_2d :=
  mk_array2d 0 0 (S754_zero false) 0 (fun _ _ => 0).

(** A 3 by 3 grid at elevation 0 whose centre cell is no-data ([-9999]). *)
Definition nodata_centre : float_2d :=
  mk_array2d 3 3 (FP.double_of_int 1) (FP.float_of_int (-9999))
    (fun x y => if (x =? 1) && (y =? 1)
                then FP.float_of_int (-9999) else FP.float_of_int 0).

(** A 3 by 3 grid at elevation 5 whose centre cell holds a NaN. *)
Definition nan_centre : float_2d :=
  mk_array2d 3 3 (FP.double_of_int 1) (FP.float_of_int (-9999))
    (fun x y => if (x =? 1) && (y =? 1)
                then S754_nan else FP.float_of_int 5).

(** A 3 by 3 grid at elevation 5 with a pit of elevation 1 in the centre. *)
Definition pit_grid : float_2d :=
  mk_array2d 3 3 (FP.double_of_int 1) (FP.float_of_int (-9999))
    (fun x y => if (x =? 1) && (y =? 1)
                then FP.float_of_int 1 else FP.float_of_int 5).

(** An instance of the C library for closed examples in which no value of
    its functions is looked at: it answers NaN everywhere. *)
Definition nan_libm : Libm :=
  {| atan2 := fun _ _ => S754_nan; atan := fun _ => S754_nan; log := fun _ => S754_nan |}.

Lemma NoDup_2_to_9 : NoDup [2; 3; 4; 5; 6; 7; 8; 9].
Proof.
  repeat (constructor; [simpl; intros Hin; repeat destruct Hin as [Hin|Hin]; lia|]).
  constructor.
Qed.

(** One numbering of the selectors. *)
Definition example_selectors : Selectors :=
  {| TATTRIB_CURVATURE := 2;
     TATTRIB_PLANFORM_CURVATURE := 3;
     TATTRIB_PROFILE_CURVATURE := 4;
     TATTRIB_ASPECT := 5;
     TATTRIB_SLOPE_RISERUN := 6;
     TATTRIB_SLOPE_PERCENT := 7;
     TATTRIB_SLOPE_RADIAN := 8;
     TATTRIB_SLOPE_DEGREE := 9;
     selectors_distinct := NoDup_2_to_9 |}.

(** The flat 5 by 5 grid: every cell at elevation 100. *)
Definition flat_grid (cs : FP.double) (nd : FP.float) : float_2d :=
  mk_array2d 5 5 cs nd (fun _ _ => FP.float_of_int 100).

(** Two 2 by 2 input grids for the indices: a flow accumulation whose cell
    [(0, 0)] is no-data, and a percent slope without no-data cells. *)
Definition flow_example : float_2d :=
  mk_array2d 2 2 (FP.double_of_int 10) (FP.float_of_int (-1))
    (fun x y => if (x =? 0) && (y =? 0)
                then FP.float_of_int (-1) else FP.float_of_int 4).

Definition slope_example : float_2d :=
  mk_array2d 2 2 (FP.double_of_int 10) (FP.float_of_int (-9999))
    (fun _ _ => FP.float_of_int 25).

(** A grid of a single cell, and a grid of a single row of two cells. *)
Definition single_cell : float_2d :=
  mk_array2d 1 1 (FP.double_of_int 1) (FP.float_of_int (-9999))
    (fun _ _ => FP.float_of_int 5).

Definition single_row : float_2d :=
  mk_array2d 2 1 (FP.double_of_int 1) (FP.float_of_int (-9999))
    (fun _ _ => FP.float_of_int 5).

(** * Facts *)

(** ** Floating point comparisons *)

Lemma SFcompare_refl : forall v, FP.is_nan v = false -> SFcompare v v = Some Eq.
Proof.
  intros [s|s| |s m e] Hn; simpl in *; try discriminate.
  - reflexivity.
  - destruct s; reflexivity.
  - rewrite Z.compare_refl, Pos.compare_cont_refl. destruct s; reflexivity.
Qed.

Lemma float_leb_refl : forall v, FP.is_nan v = false -> FP.leb v v = true.
Proof. intros v Hn. unfold FP.leb, SFleb. rewrite SFcompare_refl; auto. Qed.

Lemma float_eqb_refl : forall v, FP.is_nan v = false -> FP.eqb v v = true.
Proof. intros v Hn. unfold FP.eqb, SFeqb. rewrite SFcompare_refl; auto. Qed.

Lemma SFcompare_antisym : forall a b c,
    SFcompare a b = Some c -> SFcompare b a = Some (CompOpp c).
Proof.
  intros [s|s| |s m e] [s'|s'| |s' m' e'] c H; simpl in *;
    try discriminate; inversion H; clear H; subst;
    try (destruct s; reflexivity); try (destruct s'; reflexivity);
    try (destruct s, s'; reflexivity).
  assert (Hm : Pos.compare_cont Eq m' m = CompOpp (Pos.compare_cont Eq m m'))
    by (rewrite Pos.compare_cont_antisym; reflexivity).
  destruct s, s'; simpl; try reflexivity;
    rewrite (Z.compare_antisym e e'), Hm;
    destruct (e ?= e'); simpl; try reflexivity;
    destruct (Pos.compare_cont Eq m m'); reflexivity.
Qed.

Lemma SFcompare_total : forall a b,
    FP.is_nan a = false -> FP.is_nan b = false -> exists c, SFcompare a b = Some c.
Proof.
  intros [s|s| |s m e] [s'|s'| |s' m' e'] Ha Hb; simpl in *;
    try discriminate; eauto.
Qed.

(** Without NaN, [a <= b] false means [b < a], hence [b <= a]. *)
Lemma float_leb_false_ltb : forall a b,
    FP.is_nan a = false -> FP.is_nan b = false -> FP.leb a b = false -> FP.ltb b a = true.
Proof.
  intros a b Ha Hb H. unfold FP.leb, FP.ltb, SFleb, SFltb in *.
  destruct (SFcompare_total a b Ha Hb) as [c Hc].
  rewrite Hc in H. rewrite (SFcompare_antisym _ _ _ Hc).
  destruct c; simpl; congruence.
Qed.

Lemma float_ltb_leb : forall a b, FP.ltb a b = true -> FP.leb a b = true.
Proof.
  intros a b. unfold FP.leb, FP.ltb, SFleb, SFltb.
  destruct (SFcompare a b) as [[ | | ]|]; congruence.
Qed.

Lemma float_leb_not_nan : forall a b, FP.leb a b = true -> FP.is_nan a = false /\ FP.is_nan b = false.
Proof.
  intros [s|s| |s m e] [s'|s'| |s' m' e']; simpl; intros H; auto;
    try discriminate.
  all: unfold FP.leb, SFleb in H; simpl in H; try discriminate.
  all: destruct s; discriminate.
Qed.

(** ** Grids *)

Lemma get_set : forall T (g : array2d T) x y v x' y',
    get (set g x y v) x' y' = if (x' =? x) && (y' =? y) then v else get g x' y'.
Proof. reflexivity. Qed.

Lemma get_set_same : forall T (g : array2d T) x y v, get (set g x y v) x y = v.
Proof. intros. rewrite get_set, !Z.eqb_refl. reflexivity. Qed.

Lemma get_set_other : forall T (g : array2d T) x y v x' y',
    (x', y') <> (x, y) -> get (set g x y v) x' y' = get g x' y'.
Proof.
  intros T g x y v x' y' Hne. rewrite get_set.
  destruct (Z.eqb_spec x' x), (Z.eqb_spec y' y); simpl; try reflexivity.
  subst. congruence.
Qed.

#[global] Arguments get : simpl never.
#[global] Arguments set : simpl never.
#[global] Arguments in_grid : simpl never.

Definition cell_eq_dec : forall p q : Z * Z, {p = q} + {p <> q}.
Proof. decide equality; apply Z.eq_dec. Defined.

Lemma in_grid_spec : forall T (g : array2d T) x y,
    in_grid g x y = true <-> 0 <= x < width g /\ 0 <= y < height g.
Proof. intros. unfold in_grid. rewrite !andb_true_iff. lia. Qed.

(** ** Loops *)

Lemma in_zrange : forall lo hi k, In k (zrange lo hi) <-> lo <= k < hi.
Proof.
  intros lo hi k. unfold zrange. rewrite in_map_iff. split.
  - intros [i [<- Hi]]. apply in_seq in Hi. lia.
  - intros Hk. exists (Z.to_nat (k - lo)). split; [lia|]. apply in_seq. lia.
Qed.

Lemma length_zrange : forall lo hi, length (zrange lo hi) = Z.to_nat (hi - lo).
Proof. intros. unfold zrange. rewrite length_map, length_seq. reflexivity. Qed.

Lemma NoDup_zrange : forall lo hi, NoDup (zrange lo hi).
Proof.
  intros lo hi. unfold zrange.
  apply Injective_map_NoDup; [|apply seq_NoDup].
  intros i j Hij. lia.
Qed.

(** A loop invariant holds after the loop. *)
Lemma for_loop_ind : forall St (P : St -> Prop) lo hi body,
    (forall k s, lo <= k < hi -> P s -> P (body k s)) ->
    forall s, P s -> P (for_loop lo hi body s).
Proof.
  intros St P lo hi body Hstep. unfold for_loop.
  assert (Hin : forall k, In k (zrange lo hi) -> lo <= k < hi)
    by (intros k Hk; apply in_zrange; exact Hk).
  induction (zrange lo hi) as [|k l IH]; intros s Hs; simpl; [exact Hs|].
  apply IH.
  - intros k' Hk'. apply Hin. right. exact Hk'.
  - apply Hstep; [apply Hin; left; reflexivity | exact Hs].
Qed.

Lemma in_grid_cells : forall w h x y,
    In (x, y) (grid_cells w h) <-> 0 <= x < w /\ 0 <= y < h.
Proof.
  intros w h x y. unfold grid_cells. rewrite in_flat_map. split.
  - intros [x' [Hx Hy]]. apply in_map_iff in Hy. destruct Hy as [y' [Heq Hy]].
    inversion Heq; subst. apply in_zrange in Hx. apply in_zrange in Hy. lia.
  - intros [Hx Hy]. exists x. split; [apply in_zrange; lia|].
    apply in_map_iff. exists y. split; [reflexivity | apply in_zrange; lia].
Qed.

Lemma length_grid_cells : forall w h,
    Z.of_nat (length (grid_cells w h)) = Z.max 0 w * Z.max 0 h.
Proof.
  intros w h. unfold grid_cells.
  assert (Hl : forall l : list Z,
             length (flat_map (fun x => map (fun y => (x, y)) (zrange 0 h)) l)
             = (length l * Z.to_nat h)%nat).
  { induction l as [|a l IH]; simpl; [reflexivity|].
    rewrite length_app, length_map, length_zrange, IH. f_equal. f_equal. lia. }
  rewrite Hl, length_zrange. rewrite Nat2Z.inj_mul. lia.
Qed.

(** ** Termination of the main loop *)

Lemma filter_length_le : forall A (f g : A -> bool) l,
    (forall a, In a l -> g a = true -> f a = true) ->
    (length (filter g l) <= length (filter f l))%nat.
Proof.
  intros A f g l. induction l as [|a l IH]; intros Hfg; simpl; [lia|].
  assert (IH' := IH (fun b Hb => Hfg b (or_intror Hb))).
  destruct (g a) eqn:Hg.
  - rewrite (Hfg a (or_introl eq_refl) Hg). simpl. lia.
  - destruct (f a); simpl; lia.
Qed.

Lemma filter_length_lt : forall A (f g : A -> bool) l a,
    (forall b, In b l -> g b = true -> f b = true) ->
    In a l -> f a = true -> g a = false ->
    (length (filter g l) < length (filter f l))%nat.
Proof.
  intros A f g l a. induction l as [|b l IH]; intros Hfg Hin Hf Hg; simpl; [contradiction|].
  assert (Hfg' : forall d, In d l -> g d = true -> f d = true)
    by (intros d Hd; apply Hfg; right; exact Hd).
  destruct Hin as [->|Hin].
  - rewrite Hf, Hg. simpl. pose proof (filter_length_le A f g l Hfg'). lia.
  - specialize (IH Hfg' Hin Hf Hg).
    destruct (g b) eqn:Hgb.
    + rewrite (Hfg b (or_introl eq_refl) Hgb). simpl. lia.
    + destruct (f b); simpl; lia.
Qed.

Lemma filter_length_le_all : forall A (f : A -> bool) l,
    (length (filter f l) <= length l)%nat.
Proof.
  intros A f l. induction l as [|a l IH]; simpl; [lia|].
  destruct (f a); simpl; lia.
Qed.

Lemma unclosed_close_le : forall x y s, (unclosed (close x y s) <= unclosed s)%nat.
Proof.
  intros x y s. unfold unclosed. simpl. apply filter_length_le.
  intros [x' y'] _. simpl. rewrite get_set.
  destruct ((x' =? x) && (y' =? y)); [discriminate | auto].
Qed.

Lemma unclosed_close_lt : forall x y s,
    in_grid (elevations s) x y = true -> get (closed s) x y = false ->
    (unclosed (close x y s) < unclosed s)%nat.
Proof.
  intros x y s Hin Hcl. unfold unclosed. simpl.
  apply filter_length_lt with (a := (x, y)).
  - intros [x' y'] _. simpl. rewrite get_set.
    destruct ((x' =? x) && (y' =? y)); [discriminate | auto].
  - apply in_grid_cells. apply in_grid_spec in Hin. exact Hin.
  - simpl. rewrite Hcl. reflexivity.
  - simpl. rewrite get_set_same. reflexivity.
Qed.

Section FloodFacts.
Context `{PriorityQueue} `{Neighbourhood}.

(** What one visit of a neighbour does: nothing to a cell outside the grid
    or already closed; otherwise the cell is labelled, closed, possibly raised,
    and pushed on exactly one of the two frontier structures. *)
Lemma fw_visit_cases : forall a c n s,
    let nx := cell_x c + dx n in
    let ny := cell_y c + dy n in
    (fw_visit a c n s = s /\
     (in_grid (elevations s) nx ny = false \/ get (closed s) nx ny = true))
    \/
    (in_grid (elevations s) nx ny = true /\ get (closed s) nx ny = false /\
     exists z e,
       fw_visit a c n s =
       mk_fw_state e
         (set (labels s) nx ny (get (labels s) (cell_x c) (cell_y c)))
         (set (closed s) nx ny true)
         (if FP.leb (get (elevations s) nx ny) (cell_z c)
          then open s else mk_grid_cellz nx ny z :: open s)
         (if FP.leb (get (elevations s) nx ny) (cell_z c)
          then mk_grid_cellz nx ny z :: meander s else meander s)
         (processed_cells s) (pitc s) (openc s) (clabel s)
       /\ z = (if FP.leb (get (elevations s) nx ny) (cell_z c)
               then cell_z c else get (elevations s) nx ny)
       /\ e = (if FP.leb (get (elevations s) nx ny) (cell_z c) && a
               then set (elevations s) nx ny (cell_z c) else elevations s)).
Proof.
  intros a c n s nx ny. unfold fw_visit. fold nx ny.
  destruct (in_grid (elevations s) nx ny) eqn:Hin; simpl negb; cbv iota;
    [|left; auto].
  destruct (get (closed s) nx ny) eqn:Hcl; [left; auto|].
  right. split; [reflexivity|]. split; [reflexivity|].
  cbv zeta. simpl elevations.
  destruct (FP.leb (get (elevations s) nx ny) (cell_z c)) eqn:Hle.
  - exists (cell_z c). destruct a; eexists; repeat split; reflexivity.
  - exists (get (elevations s) nx ny). eexists; repeat split; reflexivity.
Qed.

Lemma fw_visit_dims : forall a c n s,
    width (elevations (fw_visit a c n s)) = width (elevations s) /\
    height (elevations (fw_visit a c n s)) = height (elevations s) /\
    no_data (elevations (fw_visit a c n s)) = no_data (elevations s) /\
    no_data (labels (fw_visit a c n s)) = no_data (labels s) /\
    processed_cells (fw_visit a c n s) = processed_cells s /\
    clabel (fw_visit a c n s) = clabel s.
Proof.
  intros a c n s.
  destruct (fw_visit_cases a c n s) as [[-> _]|(_ & _ & z & e & -> & _ & ->)];
    [repeat split; reflexivity|].
  simpl. destruct (FP.leb _ _ && a); repeat split; reflexivity.
Qed.

Lemma fw_visit_fuel : forall a c n s,
    (unclosed (fw_visit a c n s) + length (open (fw_visit a c n s))
     + length (meander (fw_visit a c n s))
     <= unclosed s + length (open s) + length (meander s))%nat
    /\ (unclosed (fw_visit a c n s) <= unclosed s)%nat.
Proof.
  intros a c n s.
  destruct (fw_visit_cases a c n s) as [[-> _]|(Hin & Hcl & z & e & Heq & _ & He)];
    [lia|].
  pose proof (unclosed_close_lt _ _ s Hin Hcl) as Hlt.
  assert (Hu : unclosed (fw_visit a c n s)
               = unclosed (close (cell_x c + dx n) (cell_y c + dy n) s)).
  { rewrite Heq. unfold unclosed. simpl. subst e.
    destruct (FP.leb _ _ && a); reflexivity. }
  rewrite Hu. rewrite Heq. simpl.
  destruct (FP.leb _ _); simpl; lia.
Qed.

Lemma fw_label_frame : forall c s,
    elevations (fw_label c s) = elevations s /\
    closed (fw_label c s) = closed s /\
    open (fw_label c s) = open s /\
    meander (fw_label c s) = meander s /\
    processed_cells (fw_label c s) = processed_cells s /\
    no_data (labels (fw_label c s)) = no_data (labels s).
Proof.
  intros c s. unfold fw_label.
  destruct (_ && _); repeat split; reflexivity.
Qed.

Lemma unclosed_ext : forall s t,
    elevations s = elevations t -> closed s = closed t -> unclosed s = unclosed t.
Proof. intros s t He Hc. unfold unclosed. rewrite He, Hc. reflexivity. Qed.

Lemma pq_pop_length : forall q c q',
    pq_pop q = Some (c, q') -> length q = S (length q').
Proof.
  intros q c q' Hp. unfold pq_pop in Hp.
  destruct (nth_error q (top_index q)) as [b|] eqn:Hn; [|discriminate].
  injection Hp as <- <-.
  change (match q with [] => [] | _ :: l => skipn (top_index q) l end)
    with (skipn (S (top_index q)) q).
  assert (Hlt : (top_index q < length q)%nat)
    by (apply nth_error_Some; congruence).
  rewrite length_app, length_firstn, length_skipn. lia.
Qed.

Lemma pq_pop_None : forall q, pq_pop q = None <-> q = [].
Proof.
  intros q. unfold pq_pop. split.
  - intros Hp. destruct q as [|c q]; [reflexivity|].
    assert (Hlt : (top_index (c :: q) < length (c :: q))%nat)
      by (apply top_index_lt; discriminate).
    apply nth_error_Some in Hlt.
    destruct (nth_error (c :: q) (top_index (c :: q))); congruence.
  - intros ->. destruct (top_index []); reflexivity.
Qed.

(** The popped entry was in the queue, and the rest is what stays. *)
Lemma pq_pop_In : forall q c q',
    pq_pop q = Some (c, q') ->
    In c q /\ (forall b, In b q' -> In b q) /\ (forall b, In b q -> b = c \/ In b q').
Proof.
  intros q c q' Hp. unfold pq_pop in Hp.
  destruct (nth_error q (top_index q)) as [b|] eqn:Hn; [|discriminate].
  injection Hp as <- <-.
  change (match q with [] => [] | _ :: l => skipn (top_index q) l end)
    with (skipn (S (top_index q)) q).
  pose proof (nth_error_split q (top_index q) Hn) as (l1 & l2 & Hq & Hl).
  assert (Hf : firstn (top_index q) q = l1).
  { rewrite Hq at 2. rewrite <- Hl. rewrite firstn_app, Nat.sub_diag. simpl.
    rewrite firstn_all, app_nil_r. reflexivity. }
  assert (Hs : skipn (S (top_index q)) q = l2).
  { rewrite Hq at 2. rewrite <- Hl.
    change (b :: l2) with ([b] ++ l2). rewrite app_assoc.
    replace (S (length l1)) with (length (l1 ++ [b]))
      by (rewrite length_app; simpl; lia).
    rewrite skipn_app, Nat.sub_diag, skipn_all. reflexivity. }
  rewrite Hf, Hs. rewrite Hq. repeat split.
  - apply in_or_app. right. left. reflexivity.
  - intros d Hd. apply in_app_or in Hd. apply in_or_app. simpl. tauto.
  - intros d Hd. apply in_app_or in Hd. simpl in Hd.
    rewrite in_app_iff. intuition.
Qed.

End FloodFacts.

Section Termination.
Context `{PriorityQueue} `{Neighbourhood}.

Lemma fw_neighbours_dims : forall a c s,
    width (elevations (fw_neighbours a c s)) = width (elevations s) /\
    height (elevations (fw_neighbours a c s)) = height (elevations s) /\
    no_data (elevations (fw_neighbours a c s)) = no_data (elevations s) /\
    no_data (labels (fw_neighbours a c s)) = no_data (labels s) /\
    processed_cells (fw_neighbours a c s) = processed_cells s /\
    clabel (fw_neighbours a c s) = clabel s.
Proof.
  intros a c s. unfold fw_neighbours.
  apply for_loop_ind with
    (P := fun t => width (elevations t) = width (elevations s) /\
                   height (elevations t) = height (elevations s) /\
                   no_data (elevations t) = no_data (elevations s) /\
                   no_data (labels t) = no_data (labels s) /\
                   processed_cells t = processed_cells s /\
                   clabel t = clabel s);
    [|repeat split; reflexivity].
  intros k t _ (H1 & H2 & H3 & H4 & H5 & H6).
  destruct (fw_visit_dims a c k t) as (G1 & G2 & G3 & G4 & G5 & G6).
  repeat split; congruence.
Qed.

Lemma fw_neighbours_fuel : forall a c s,
    (unclosed (fw_neighbours a c s) + length (open (fw_neighbours a c s))
     + length (meander (fw_neighbours a c s))
     <= unclosed s + length (open s) + length (meander s))%nat
    /\ (unclosed (fw_neighbours a c s) <= unclosed s)%nat.
Proof.
  intros a c s. unfold fw_neighbours.
  apply for_loop_ind with
    (P := fun t => (unclosed t + length (open t) + length (meander t)
                    <= unclosed s + length (open s) + length (meander s))%nat
                   /\ (unclosed t <= unclosed s)%nat);
    [|lia].
  intros k t _ [H1 H2]. destruct (fw_visit_fuel a c k t). lia.
Qed.

Lemma fw_pop_spec : forall s c s1,
    fw_pop s = Some (c, s1) ->
    elevations s1 = elevations s /\ labels s1 = labels s /\
    closed s1 = closed s /\ clabel s1 = clabel s /\
    processed_cells s1 = processed_cells s + 1 /\
    In c (open s ++ meander s) /\
    (forall b, In b (open s1 ++ meander s1) -> In b (open s ++ meander s)) /\
    (length (open s) + length (meander s)
     = S (length (open s1) + length (meander s1)))%nat.
Proof.
  intros s c s1 Hp. unfold fw_pop in Hp.
  destruct (meander s) as [|b m] eqn:Hm.
  - destruct (pq_pop (open s)) as [[c' q]|] eqn:Hq; [|discriminate].
    injection Hp as <- <-. simpl.
    pose proof (pq_pop_length _ _ _ Hq). destruct (pq_pop_In _ _ _ Hq) as (Hc & Hsub & _).
    rewrite !app_nil_r. simpl. repeat split; auto; lia.
  - injection Hp as <- <-. simpl.
    repeat split; auto; try lia;
      try (apply in_or_app; right; left; reflexivity);
      try (intros d Hd; apply in_app_or in Hd; apply in_or_app; simpl; tauto).
Qed.

Lemma fw_pop_None : forall s, fw_pop s = None <-> open s = [] /\ meander s = [].
Proof.
  intros s. unfold fw_pop. destruct (meander s) as [|b m].
  - destruct (pq_pop (open s)) as [[c q]|] eqn:Hq.
    + split; [discriminate|]. intros [Ho _]. apply pq_pop_None in Ho. congruence.
    + apply pq_pop_None in Hq. tauto.
  - split; [discriminate|]. intros [_ Hm]. discriminate.
Qed.

Lemma fw_body_None : forall a s, fw_body a s = None <-> open s = [] /\ meander s = [].
Proof.
  intros a s. rewrite <- fw_pop_None. unfold fw_body.
  destruct (fw_pop s) as [[c s1]|]; split; congruence.
Qed.

(** Every iteration uses up fuel. *)
Lemma fw_body_fuel : forall a s s',
    fw_body a s = Some s' -> (fw_fuel s' < fw_fuel s)%nat.
Proof.
  intros a s s' Hb. unfold fw_body in Hb.
  destruct (fw_pop s) as [[c s1]|] eqn:Hp; [|discriminate].
  injection Hb as <-.
  destruct (fw_pop_spec _ _ _ Hp) as (He & _ & Hc & _ & _ & _ & _ & Hlen).
  destruct (fw_label_frame c s1) as (Le & Lc & Lo & Lm & _).
  destruct (fw_neighbours_fuel a c (fw_label c s1)) as [F1 F2].
  assert (Hu : unclosed (fw_label c s1) = unclosed s)
    by (apply unclosed_ext; congruence).
  unfold fw_fuel. rewrite Hu, Lo, Lm in *. lia.
Qed.

(** With [fw_fuel s] iterations allowed, the loop finishes, and it finishes
    with both frontier structures empty. *)
Lemma fw_loop_total : forall a fuel s,
    (fw_fuel s <= fuel)%nat ->
    exists s', fw_loop a fuel s = Some s' /\ open s' = [] /\ meander s' = [].
Proof.
  intros a fuel. induction fuel as [|fuel IH]; intros s Hf; simpl.
  - destruct (fw_body a s) as [s'|] eqn:Hb.
    + apply fw_body_fuel in Hb. lia.
    + exists s. split; [reflexivity|]. apply (fw_body_None a). exact Hb.
  - destruct (fw_body a s) as [s'|] eqn:Hb.
    + apply IH. apply fw_body_fuel in Hb. lia.
    + exists s. split; [reflexivity|]. apply (fw_body_None a). exact Hb.
Qed.

(** The loop's result is the state after some number of iterations. *)
Lemma fw_loop_iter : forall a fuel s s',
    fw_loop a fuel s = Some s' -> exists n, s' = fw_iter a n s.
Proof.
  intros a fuel. induction fuel as [|fuel IH]; intros s s' Hl; simpl in Hl.
  - destruct (fw_body a s) eqn:Hb; [discriminate|].
    injection Hl as <-. exists O. reflexivity.
  - destruct (fw_body a s) as [t|] eqn:Hb.
    + destruct (IH _ _ Hl) as [n ->]. exists (S n). simpl. rewrite Hb. reflexivity.
    + injection Hl as <-. exists O. reflexivity.
Qed.

(** A property kept by every iteration holds in every state the loop reaches. *)
Lemma fw_iter_inv : forall a (P : fw_state -> Prop),
    (forall s s', P s -> fw_body a s = Some s' -> P s') ->
    forall n s, P s -> P (fw_iter a n s).
Proof.
  intros a P Hstep n. induction n as [|n IH]; intros s Hs; simpl; [exact Hs|].
  destruct (fw_body a s) as [s'|] eqn:Hb; [|exact Hs].
  apply IH. apply (Hstep s); assumption.
Qed.

End Termination.

(** ** The seeding phase *)

Lemma seed_loop_spec : forall (body : Z -> fw_state -> fw_state)
                              (pushed : float_2d -> Z -> list grid_cellz),
    (forall k s,
        elevations (body k s) = elevations s /\ labels (body k s) = labels s /\
        meander (body k s) = meander s /\ clabel (body k s) = clabel s /\
        processed_cells (body k s) = processed_cells s /\
        open (body k s) = rev (pushed (elevations s) k) ++ open s /\
        (forall x y, get (closed (body k s)) x y = true <->
                     get (closed s) x y = true \/
                     exists c, In c (pushed (elevations s) k) /\ cell_xy c = (x, y))) ->
    forall l s,
      let t := fold_left (fun acc k => body k acc) l s in
      elevations t = elevations s /\ labels t = labels s /\
      meander t = meander s /\ clabel t = clabel s /\
      processed_cells t = processed_cells s /\
      open t = rev (flat_map (pushed (elevations s)) l) ++ open s /\
      (forall x y, get (closed t) x y = true <->
                   get (closed s) x y = true \/
                   exists c, In c (flat_map (pushed (elevations s)) l)
                             /\ cell_xy c = (x, y)).
Proof.
  intros body pushed Hbody l. induction l as [|k l IH]; intros s; simpl.
  - repeat split; auto. intros [Hc|[c [[] _]]]; exact Hc.
  - destruct (Hbody k s) as (B1 & B2 & B3 & B4 & B5 & B6 & B7).
    destruct (IH (body k s)) as (I1 & I2 & I3 & I4 & I5 & I6 & I7).
    cbv zeta in *. rewrite B1 in *.
    repeat split; try congruence.
    + rewrite I6, B6, rev_app_distr, app_assoc. reflexivity.
    + rewrite I7, B7. intros [[Hc|[c [Hc Hxy]]]|[c [Hc Hxy]]]; auto.
      * right. exists c. split; [apply in_or_app; left|]; assumption.
      * right. exists c. split; [apply in_or_app; right|]; assumption.
    + rewrite I7, B7. intros [Hc|[c [Hc Hxy]]]; auto.
      apply in_app_or in Hc. destruct Hc as [Hc|Hc]; eauto.
Qed.

Lemma get_set_true2 : forall (g : bool_2d) x1 y1 x2 y2 x y,
    get (set (set g x1 y1 true) x2 y2 true) x y = true <->
    get g x y = true \/ (x1, y1) = (x, y) \/ (x2, y2) = (x, y).
Proof.
  intros g x1 y1 x2 y2 x y. rewrite !get_set.
  destruct (Z.eqb_spec x x2), (Z.eqb_spec y y2); simpl;
    try (subst; tauto);
    (destruct (Z.eqb_spec x x1), (Z.eqb_spec y y1); simpl;
     [subst; tauto|..]);
    (split; [tauto|]; intros [Hg|[Heq|Heq]]; [exact Hg|..];
     injection Heq as -> ->; congruence).
Qed.

Lemma in_pair_xy : forall x1 y1 z1 x2 y2 z2 x y,
    (exists c, In c [mk_grid_cellz x1 y1 z1; mk_grid_cellz x2 y2 z2]
               /\ cell_xy c = (x, y)) <->
    (x1, y1) = (x, y) \/ (x2, y2) = (x, y).
Proof.
  intros. split.
  - intros [c [[<-|[<-|[]]] Hxy]]; auto.
  - intros [Heq|Heq].
    + exists (mk_grid_cellz x1 y1 z1). split; [left; reflexivity | exact Heq].
    + exists (mk_grid_cellz x2 y2 z2). split; [right; left; reflexivity | exact Heq].
Qed.

Lemma seed_column_spec : forall k s,
    elevations (seed_column k s) = elevations s /\ labels (seed_column k s) = labels s /\
    meander (seed_column k s) = meander s /\ clabel (seed_column k s) = clabel s /\
    processed_cells (seed_column k s) = processed_cells s /\
    open (seed_column k s) = rev (column_seeds (elevations s) k) ++ open s /\
    (forall x y, get (closed (seed_column k s)) x y = true <->
                 get (closed s) x y = true \/
                 exists c, In c (column_seeds (elevations s) k) /\ cell_xy c = (x, y)).
Proof.
  intros k s. do 6 (split; [reflexivity|]).
  intros x y. unfold column_seeds. rewrite in_pair_xy.
  unfold seed_column, close. simpl. apply get_set_true2.
Qed.

Lemma seed_row_spec : forall k s,
    elevations (seed_row k s) = elevations s /\ labels (seed_row k s) = labels s /\
    meander (seed_row k s) = meander s /\ clabel (seed_row k s) = clabel s /\
    processed_cells (seed_row k s) = processed_cells s /\
    open (seed_row k s) = rev (row_seeds (elevations s) k) ++ open s /\
    (forall x y, get (closed (seed_row k s)) x y = true <->
                 get (closed s) x y = true \/
                 exists c, In c (row_seeds (elevations s) k) /\ cell_xy c = (x, y)).
Proof.
  intros k s. do 6 (split; [reflexivity|]).
  intros x y. unfold row_seeds. rewrite in_pair_xy.
  unfold seed_row, close. simpl. apply get_set_true2.
Qed.

(** The state the main loop starts from. *)
Lemma fw_seed_spec : forall elev lab,
    let s := fw_seed (fw_setup elev lab) in
    elevations s = elev /\
    (forall x y, get (labels s) x y = -1) /\ no_data (labels s) = -1 /\
    meander s = [] /\ clabel s = 1 /\ processed_cells s = 0 /\
    open s = rev (seeds elev) /\
    (forall x y, get (closed s) x y = true <->
                 exists c, In c (seeds elev) /\ cell_xy c = (x, y)).
Proof.
  intros elev lab. unfold fw_seed, for_loop.
  set (s0 := fw_setup elev lab).
  destruct (seed_loop_spec seed_column column_seeds seed_column_spec
              (zrange 0 (width (elevations s0))) s0)
    as (C1 & C2 & C3 & C4 & C5 & C6 & C7).
  set (s1 := fold_left (fun acc k => seed_column k acc)
                       (zrange 0 (width (elevations s0))) s0) in *.
  destruct (seed_loop_spec seed_row row_seeds seed_row_spec
              (zrange 1 (height (elevations s1) - 1)) s1)
    as (R1 & R2 & R3 & R4 & R5 & R6 & R7).
  set (s2 := fold_left (fun acc k => seed_row k acc)
                       (zrange 1 (height (elevations s1) - 1)) s1) in *.
  change (elevations s0) with elev in *.
  assert (E1 : elevations s1 = elev) by exact C1.
  rewrite E1 in *.
  split; [congruence|].
  split; [intros x y; rewrite R2, C2; reflexivity|].
  split; [rewrite R2, C2; reflexivity|].
  split; [rewrite R3, C3; reflexivity|].
  split; [rewrite R4, C4; reflexivity|].
  split; [rewrite R5, C5; reflexivity|].
  split.
  - rewrite R6, C6. unfold seeds. rewrite rev_app_distr.
    simpl. rewrite app_nil_r. reflexivity.
  - intros x y. rewrite R7, C7. unfold seeds. split.
    + intros [[Hc|[c [Hc Hxy]]]|[c [Hc Hxy]]].
      * discriminate Hc.
      * exists c. split; [apply in_or_app; left|]; assumption.
      * exists c. split; [apply in_or_app; right|]; assumption.
    + intros [c [Hc Hxy]].
      apply in_app_or in Hc. destruct Hc as [Hc|Hc]; eauto.
Qed.

Lemma in_seeds : forall e c,
    In c (seeds e) <->
    cell_z c = get e (cell_x c) (cell_y c) /\
    ((0 <= cell_x c < width e /\ (cell_y c = 0 \/ cell_y c = height e - 1)) \/
     (1 <= cell_y c < height e - 1 /\ (cell_x c = 0 \/ cell_x c = width e - 1))).
Proof.
  intros e c. unfold seeds. rewrite in_app_iff, !in_flat_map. split.
  - intros [[x [Hx Hc]]|[y [Hy Hc]]].
    + apply in_zrange in Hx. destruct Hc as [<-|[<-|[]]]; simpl; split; auto; lia.
    + apply in_zrange in Hy. destruct Hc as [<-|[<-|[]]]; simpl; split; auto; lia.
  - destruct c as [x y z]. simpl. intros [-> [[Hx [->| ->]]|[Hy [->| ->]]]].
    + left. exists x. split; [apply in_zrange; lia|]. left. reflexivity.
    + left. exists x. split; [apply in_zrange; lia|]. right. left. reflexivity.
    + right. exists y. split; [apply in_zrange; lia|]. left. reflexivity.
    + right. exists y. split; [apply in_zrange; lia|]. right. left. reflexivity.
Qed.

(** On a non-empty grid the seeds are exactly the boundary cells. *)
Lemma seeds_boundary : forall e x y,
    1 <= width e -> 1 <= height e ->
    (exists c, In c (seeds e) /\ cell_xy c = (x, y)) <-> on_boundary e x y.
Proof.
  intros e x y Hw Hh. unfold on_boundary. split.
  - intros [c [Hc Hxy]]. apply in_seeds in Hc. unfold cell_xy in Hxy.
    injection Hxy as <- <-. lia.
  - intros (Hx & Hy & Hb). exists (mk_grid_cellz x y (get e x y)).
    split; [|reflexivity]. apply in_seeds. simpl. split; [reflexivity|]. lia.
Qed.

Lemma length_seeds : forall e,
    Z.of_nat (length (seeds e)) = 2 * Z.max 0 (width e) + 2 * Z.max 0 (height e - 2).
Proof.
  intros e. unfold seeds. rewrite length_app.
  assert (Hl : forall (f : Z -> list grid_cellz) l,
             (forall k, length (f k) = 2%nat) ->
             length (flat_map f l) = (2 * length l)%nat).
  { intros f l Hf. induction l as [|a l IH]; simpl; [reflexivity|].
    rewrite length_app, Hf, IH. lia. }
  rewrite !Hl by reflexivity. rewrite !length_zrange. lia.
Qed.

(** ** Invariants of the main loop *)

Lemma in_entries : forall s e, In e (entries s) <-> In e (open s) \/ In e (meander s).
Proof. intros s e. unfold entries. apply in_app_iff. Qed.

Section Invariants.
Context `{PriorityQueue} `{Neighbourhood}.

(** The elevation grid [find_watersheds] was called with, and its flag. *)
Variable elev0 : float_2d.
Variable alter : bool.

Record fw_inv (s : fw_state) : Prop := {
  inv_width : width (elevations s) = width elev0;
  inv_height : height (elevations s) = height elev0;
  inv_no_data : no_data (elevations s) = no_data elev0;
  inv_label_no_data : no_data (labels s) = -1;
  (** every waiting entry is a closed cell *)
  inv_entries_closed :
    forall c, In c (entries s) -> get (closed s) (cell_x c) (cell_y c) = true;
  (** a cell not closed yet is untouched *)
  inv_unclosed :
    forall x y, get (closed s) x y = false ->
                get (labels s) x y = -1 /\ get (elevations s) x y = get elev0 x y;
  (** labels are the sentinel or were drawn from the counter *)
  inv_clabel : 1 <= clabel s;
  inv_labels :
    forall x y, get (labels s) x y = -1 \/ 1 <= get (labels s) x y < clabel s;
  (** when elevations are altered, an entry carries its cell's elevation *)
  inv_entry_z :
    alter = true ->
    forall c, In c (entries s) -> cell_z c = get (elevations s) (cell_x c) (cell_y c);
  (** a cell whose elevation was overwritten is labelled, or was overwritten
      with a no-data value *)
  inv_changed :
    forall x y, get (elevations s) x y = get elev0 x y \/
                get (labels s) x y <> -1 \/
                FP.eqb (get (elevations s) x y) (no_data elev0) = true;
  (** an overwritten elevation is not below the input elevation *)
  inv_raised :
    forall x y, get (elevations s) x y = get elev0 x y \/
                FP.leb (get elev0 x y) (get (elevations s) x y) = true;
  (** on a non-empty grid, entries are cells of the grid and carry an
      elevation of the input grid *)
  inv_entries_in_grid :
    1 <= width elev0 -> 1 <= height elev0 ->
    forall c, In c (entries s) ->
              in_grid elev0 (cell_x c) (cell_y c) = true /\
              exists x y, in_grid elev0 x y = true /\ cell_z c = get elev0 x y;
  (** boundary cells are closed from the start and keep their elevation; a
      no-data boundary cell keeps the label sentinel *)
  inv_boundary :
    forall x y, on_boundary elev0 x y ->
                get (closed s) x y = true /\
                get (elevations s) x y = get elev0 x y /\
                (FP.eqb (get elev0 x y) (no_data elev0) = true ->
                 get (labels s) x y = -1)
}.

(** What is known of the entry [c] being processed. *)
Record popped_ok (c : grid_cellz) (s : fw_state) : Prop := {
  pop_closed : get (closed s) (cell_x c) (cell_y c) = true;
  pop_z : alter = true -> cell_z c = get (elevations s) (cell_x c) (cell_y c);
  pop_in_grid :
    1 <= width elev0 -> 1 <= height elev0 ->
    in_grid elev0 (cell_x c) (cell_y c) = true /\
    exists x y, in_grid elev0 x y = true /\ cell_z c = get elev0 x y
}.

(** After lines 385-386 the processed cell is labelled unless its elevation
    is no-data. *)
Definition labelled (c : grid_cellz) (s : fw_state) : Prop :=
  get (labels s) (cell_x c) (cell_y c) <> -1 \/
  FP.eqb (get (elevations s) (cell_x c) (cell_y c)) (no_data elev0) = true.

Lemma fw_inv_seed : forall lab, fw_inv (fw_seed (fw_setup elev0 lab)).
Proof.
  intros lab.
  destruct (fw_seed_spec elev0 lab) as (E & L & Ln & M & C & P & O & Cl).
  set (s := fw_seed (fw_setup elev0 lab)) in *.
  assert (Hent : forall c, In c (entries s) -> In c (seeds elev0)).
  { intros c Hc. unfold entries in Hc. rewrite O, M, app_nil_r in Hc.
    apply in_rev. exact Hc. }
  constructor; try (rewrite E; reflexivity); auto.
  - intros c Hc. apply Cl. exists c. split; [apply Hent; exact Hc | reflexivity].
  - intros x y _. rewrite E. auto.
  - lia.
  - intros _ c Hc. rewrite E. apply Hent in Hc. apply in_seeds in Hc. tauto.
  - intros x y. left. rewrite E. reflexivity.
  - intros x y. left. rewrite E. reflexivity.
  - intros Hw Hh c Hc. apply Hent in Hc. apply in_seeds in Hc.
    destruct Hc as [Hz Hc].
    assert (Hin : in_grid elev0 (cell_x c) (cell_y c) = true)
      by (apply in_grid_spec; lia).
    split; [exact Hin|]. eauto.
  - intros x y Hb. split; [|split].
    + apply Cl. apply seeds_boundary; [unfold on_boundary in Hb; lia ..| exact Hb].
    + rewrite E. reflexivity.
    + intros _. apply L.
Qed.

Lemma fw_inv_pop : forall s c s1,
    fw_inv s -> fw_pop s = Some (c, s1) -> fw_inv s1 /\ popped_ok c s1.
Proof.
  intros s c s1 Hi Hp.
  destruct (fw_pop_spec _ _ _ Hp) as (He & Hl & Hc & Hcl & _ & Hin & Hsub & _).
  destruct Hi. split.
  - constructor; rewrite ?He, ?Hl, ?Hc, ?Hcl; auto.
  - constructor; rewrite ?He, ?Hl, ?Hc, ?Hcl; auto.
Qed.

Lemma fw_inv_label : forall c s,
    fw_inv s -> popped_ok c s ->
    fw_inv (fw_label c s) /\ popped_ok c (fw_label c s) /\ labelled c (fw_label c s).
Proof.
  intros c s Hi Hc. unfold fw_label, labelled.
  rewrite (inv_label_no_data s Hi), (inv_no_data s Hi).
  destruct (get (labels s) (cell_x c) (cell_y c) =? -1) eqn:Hl; simpl andb.
  2:{ split; [exact Hi|]. split; [exact Hc|]. left. apply Z.eqb_neq. exact Hl. }
  unfold FP.neqb.
  destruct (SFeqb (get (elevations s) (cell_x c) (cell_y c)) (no_data elev0))
    eqn:Hnd; simpl negb.
  1:{ split; [exact Hi|]. split; [exact Hc|]. right. exact Hnd. }
  apply Z.eqb_eq in Hl.
  pose proof (inv_clabel s Hi) as Hcl.
  split; [|split].
  - destruct Hi. constructor; simpl; auto.
    + intros x y Hxy. destruct (inv_unclosed0 x y Hxy) as [L E]. split; [|exact E].
      rewrite get_set_other; [exact L|].
      intros Heq. injection Heq as -> ->. rewrite (pop_closed c s Hc) in Hxy.
      discriminate.
    + lia.
    + intros x y. rewrite get_set.
      destruct ((x =? cell_x c) && (y =? cell_y c)); [right; lia|].
      destruct (inv_labels0 x y); [left; assumption | right; lia].
    + intros x y. destruct (cell_eq_dec (x, y) (cell_x c, cell_y c)) as [Heq|Hne].
      * injection Heq as -> ->. rewrite get_set_same. right. left. lia.
      * rewrite get_set_other by exact Hne. apply inv_changed0.
    + intros x y Hb. destruct (inv_boundary0 x y Hb) as (B1 & B2 & B3).
      split; [exact B1|]. split; [exact B2|]. intros Hn.
      rewrite get_set_other; [apply B3; exact Hn|].
      intros Heq. injection Heq as -> ->.
      unfold FP.eqb in Hn. rewrite B2 in Hnd. congruence.
  - destruct Hc. constructor; simpl; auto.
  - left. simpl. rewrite get_set_same. lia.
Qed.

Lemma in_grid_dims : forall T U (g : array2d T) (g' : array2d U) x y,
    width g = width g' -> height g = height g' -> in_grid g x y = in_grid g' x y.
Proof. intros. unfold in_grid. congruence. Qed.

(** The shape of the state after a visit that discovers a cell, in the form
    the invariants need. *)
Lemma fw_visit_discovers : forall c n s,
    let nx := cell_x c + dx n in
    let ny := cell_y c + dy n in
    let s' := fw_visit alter c n s in
    in_grid (elevations s) nx ny = true -> get (closed s) nx ny = false ->
    width (elevations s') = width (elevations s) /\
    height (elevations s') = height (elevations s) /\
    no_data (elevations s') = no_data (elevations s) /\
    no_data (labels s') = no_data (labels s) /\
    clabel s' = clabel s /\
    labels s' = set (labels s) nx ny (get (labels s) (cell_x c) (cell_y c)) /\
    closed s' = set (closed s) nx ny true /\
    (forall x y, (x, y) <> (nx, ny) ->
                 get (elevations s') x y = get (elevations s) x y) /\
    ((get (elevations s') nx ny = cell_z c /\ alter = true /\
      FP.leb (get (elevations s) nx ny) (cell_z c) = true) \/
     (get (elevations s') nx ny = get (elevations s) nx ny /\
      (alter = false \/ FP.leb (get (elevations s) nx ny) (cell_z c) = false))) /\
    exists z,
      (z = cell_z c /\ FP.leb (get (elevations s) nx ny) (cell_z c) = true /\
       open s' = open s /\ meander s' = mk_grid_cellz nx ny z :: meander s
       \/
       z = get (elevations s) nx ny /\
       FP.leb (get (elevations s) nx ny) (cell_z c) = false /\
       open s' = mk_grid_cellz nx ny z :: open s /\ meander s' = meander s) /\
      (alter = true -> z = get (elevations s') nx ny).
Proof.
  intros c n s nx ny s' Hin Hcl.
  destruct (fw_visit_cases alter c n s) as [[_ Hf]|(_ & _ & z & e & Heq & Hz & He)].
  { fold nx ny in Hf. destruct Hf; congruence. }
  fold nx ny in Heq, Hz, He.
  unfold s'. rewrite Heq. simpl. subst e.
  destruct (FP.leb (get (elevations s) nx ny) (cell_z c)) eqn:Hle;
    destruct alter eqn:Ha; simpl andb; cbv iota;
    (do 7 (split; [reflexivity|]));
    (split; [intros x y Hne; rewrite ?get_set_other by exact Hne; reflexivity|]);
    rewrite ?get_set_same.
  - split; [left; auto|]. exists z. split; [left; auto|]. intros _. exact Hz.
  - split; [right; auto|]. exists z. split; [left; auto|]. discriminate.
  - split; [right; auto|]. exists z. split; [right; auto|]. intros _. exact Hz.
  - split; [right; auto|]. exists z. split; [right; auto|]. discriminate.
Qed.

Lemma fw_inv_visit : forall c n s,
    fw_inv s -> popped_ok c s -> labelled c s ->
    fw_inv (fw_visit alter c n s) /\ popped_ok c (fw_visit alter c n s)
    /\ labelled c (fw_visit alter c n s).
Proof.
  intros c n s Hi Hc Hl.
  destruct (fw_visit_cases alter c n s) as [[-> _]|(Hin & Hcl & _)]; [auto|].
  destruct (fw_visit_discovers c n s Hin Hcl)
    as (Dw & Dh & Dn & Dln & Dcl & Dl & Dc & De & Den & z & Dz & Dza).
  set (nx := cell_x c + dx n) in *. set (ny := cell_y c + dy n) in *.
  set (s' := fw_visit alter c n s) in *.
  destruct (inv_unclosed s Hi nx ny Hcl) as [Ln En].
  assert (Hcn : (cell_x c, cell_y c) <> (nx, ny)).
  { intros Heq. injection Heq as Hx Hy. rewrite <- Hx, <- Hy in Hcl.
    rewrite (pop_closed c s Hc) in Hcl. discriminate. }
  assert (Hclosed : forall x y, get (closed s) x y = true ->
                                (x, y) <> (nx, ny) /\ get (closed s') x y = true).
  { intros x y Hxy. assert (Hne : (x, y) <> (nx, ny)).
    { intros Heq. injection Heq as -> ->. congruence. }
    split; [exact Hne|]. rewrite Dc, get_set_other by exact Hne. exact Hxy. }
  assert (Hgrid : in_grid elev0 nx ny = true).
  { rewrite <- Hin. symmetry. apply in_grid_dims; [apply inv_width | apply inv_height]; exact Hi. }
  assert (Hent : forall b, In b (entries s') ->
                           b = mk_grid_cellz nx ny z \/ In b (entries s)).
  { intros b Hb. unfold entries in *.
    destruct Dz as [(_ & _ & Eo & Em)|(_ & _ & Eo & Em)];
      rewrite Eo, Em in Hb;
      apply in_app_or in Hb; simpl in Hb; rewrite in_app_iff; intuition. }
  split; [|split].
  - destruct Hi. constructor; try congruence.
    + intros b Hb. destruct (Hent b Hb) as [->|Hb'].
      * simpl. rewrite Dc, get_set_same. reflexivity.
      * apply Hclosed. apply inv_entries_closed0. exact Hb'.
    + intros x y Hxy. rewrite Dc, get_set in Hxy.
      destruct ((x =? nx) && (y =? ny)) eqn:E; [discriminate|].
      assert (Hne : (x, y) <> (nx, ny)).
      { intros Heq. injection Heq as -> ->. rewrite !Z.eqb_refl in E. discriminate. }
      rewrite Dl, get_set_other, De by exact Hne. apply inv_unclosed0. exact Hxy.
    + intros x y. rewrite Dl, Dcl, get_set.
      destruct ((x =? nx) && (y =? ny)); apply inv_labels0.
    + intros Ha b Hb. destruct (Hent b Hb) as [->|Hb'].
      * simpl. apply Dza. exact Ha.
      * destruct (Hclosed _ _ (inv_entries_closed0 b Hb')) as [Hne _].
        rewrite De by exact Hne. apply inv_entry_z0; assumption.
    + intros x y. destruct (cell_eq_dec (x, y) (nx, ny)) as [Heq|Hne].
      * injection Heq as -> ->. rewrite Dl, get_set_same.
        destruct Den as [(Ev & Ha & Hle)|(Ev & _)]; rewrite Ev.
        -- destruct Hl as [Hl|Hl]; [right; left; exact Hl|].
           right. right. rewrite (pop_z c s Hc Ha). exact Hl.
        -- left. exact En.
      * rewrite Dl, get_set_other, De by exact Hne. apply inv_changed0.
    + intros x y. destruct (cell_eq_dec (x, y) (nx, ny)) as [Heq|Hne].
      * injection Heq as -> ->.
        destruct Den as [(Ev & Ha & Hle)|(Ev & _)]; rewrite Ev.
        -- right. rewrite <- En. exact Hle.
        -- left. exact En.
      * rewrite De by exact Hne. apply inv_raised0.
    + intros Hw Hh b Hb. destruct (Hent b Hb) as [->|Hb'].
      * simpl. split; [exact Hgrid|].
        destruct Dz as [(-> & _)|(-> & _)].
        -- apply (pop_in_grid c s Hc Hw Hh).
        -- exists nx, ny. split; [exact Hgrid | exact En].
      * apply inv_entries_in_grid0; assumption.
    + intros x y Hb. destruct (inv_boundary0 x y Hb) as (B1 & B2 & B3).
      destruct (Hclosed x y B1) as [Hne B1'].
      split; [exact B1'|]. rewrite Dl, get_set_other, De by exact Hne. auto.
  - destruct Hc. constructor; auto.
    + apply Hclosed. exact pop_closed0.
    + intros Ha. rewrite De by exact Hcn. apply pop_z0. exact Ha.
  - unfold labelled in *. rewrite Dl, get_set_other, De by exact Hcn. exact Hl.
Qed.

Lemma fw_inv_neighbours : forall c s,
    fw_inv s -> popped_ok c s -> labelled c s ->
    fw_inv (fw_neighbours alter c s).
Proof.
  intros c s Hi Hc Hl. unfold fw_neighbours.
  apply (for_loop_ind fw_state
           (fun t => fw_inv t /\ popped_ok c t /\ labelled c t)); [|auto].
  intros k t _ (Ti & Tc & Tl). apply fw_inv_visit; assumption.
Qed.

(** Every iteration of the main loop keeps the invariants. *)
Lemma fw_inv_body : forall s s', fw_inv s -> fw_body alter s = Some s' -> fw_inv s'.
Proof.
  intros s s' Hi Hb. unfold fw_body in Hb.
  destruct (fw_pop s) as [[c s1]|] eqn:Hp; [|discriminate].
  injection Hb as <-.
  destruct (fw_inv_pop s c s1 Hi Hp) as [Hi1 Hc1].
  destruct (fw_inv_label c s1 Hi1 Hc1) as (Hi2 & Hc2 & Hl2).
  apply fw_inv_neighbours; assumption.
Qed.

Lemma fw_inv_iter : forall lab n,
    fw_inv (fw_iter alter n (fw_seed (fw_setup elev0 lab))).
Proof.
  intros lab n. apply fw_iter_inv; [apply fw_inv_body | apply fw_inv_seed].
Qed.

End Invariants.

(** ** What one iteration pushes *)

Section Pushes.
Context `{PriorityQueue} `{Neighbourhood}.
Variable alter : bool.

(** What is true of an entry [e] pushed while [c] is processed from the
    state [s]: it is a neighbour of [c] inside the grid that was not closed,
    and it carries either the flood elevation of [c], when its own elevation
    is not above it, or else its own elevation. *)
Definition pushed_from (c : grid_cellz) (s : fw_state) (e : grid_cellz) : Prop :=
  (exists k, 1 <= k < 9 /\ cell_x e = cell_x c + dx k /\ cell_y e = cell_y c + dy k) /\
  in_grid (elevations s) (cell_x e) (cell_y e) = true /\
  get (closed s) (cell_x e) (cell_y e) = false /\
  ((cell_z e = cell_z c /\
    FP.leb (get (elevations s) (cell_x e) (cell_y e)) (cell_z c) = true) \/
   (cell_z e = get (elevations s) (cell_x e) (cell_y e) /\
    FP.leb (get (elevations s) (cell_x e) (cell_y e)) (cell_z c) = false)).

Lemma fw_neighbours_pushes : forall c s,
    exists po pm,
      open (fw_neighbours alter c s) = po ++ open s /\
      meander (fw_neighbours alter c s) = pm ++ meander s /\
      forall e, In e (po ++ pm) -> pushed_from c s e.
Proof.
  intros c s. unfold fw_neighbours.
  apply (for_loop_ind fw_state
           (fun t =>
              (width (elevations t) = width (elevations s) /\
               height (elevations t) = height (elevations s) /\
               forall x y, get (closed t) x y = false ->
                           get (closed s) x y = false /\
                           get (elevations t) x y = get (elevations s) x y) /\
              exists po pm,
                open t = po ++ open s /\ meander t = pm ++ meander s /\
                forall e, In e (po ++ pm) -> pushed_from c s e)).
  2:{ split; [auto|]. exists [], [].
      split; [reflexivity|]. split; [reflexivity|]. intros e []. }
  intros k t Hk ((Tw & Th & Tc) & po & pm & To & Tm & Tp).
  destruct (fw_visit_cases alter c k t) as [[-> _]|(Hin & Hcl & _)].
  { split; [auto|]. exists po, pm. auto. }
  destruct (fw_visit_discovers alter c k t Hin Hcl)
    as (Dw & Dh & _ & _ & _ & _ & Dc & De & _ & z & Dz & _).
  set (nx := cell_x c + dx k) in *. set (ny := cell_y c + dy k) in *.
  destruct (Tc nx ny Hcl) as [Scl Sel].
  split.
  - split; [congruence|]. split; [congruence|].
    intros x y Hxy. rewrite Dc, get_set in Hxy.
    destruct ((x =? nx) && (y =? ny)) eqn:E; [discriminate|].
    assert (Hne : (x, y) <> (nx, ny)).
    { intros Heq. injection Heq as -> ->. rewrite !Z.eqb_refl in E. discriminate. }
    rewrite De by exact Hne. apply Tc. exact Hxy.
  - assert (Hnew : pushed_from c s (mk_grid_cellz nx ny z)).
    { unfold pushed_from. simpl. split; [exists k; auto|].
      split; [rewrite <- Hin; apply in_grid_dims; congruence|].
      split; [exact Scl|]. rewrite <- Sel.
      destruct Dz as [(Hz & Hle & _)|(Hz & Hle & _)]; auto. }
    destruct Dz as [(_ & _ & Eo & Em)|(_ & _ & Eo & Em)].
    + exists po, (mk_grid_cellz nx ny z :: pm). rewrite Eo, Em, To, Tm.
      split; [reflexivity|]. split; [reflexivity|].
      intros e He. apply in_app_or in He.
      destruct He as [He|[<-|He]]; auto; apply Tp; apply in_or_app; auto.
    + exists (mk_grid_cellz nx ny z :: po), pm. rewrite Eo, Em, To, Tm.
      split; [reflexivity|]. split; [reflexivity|].
      intros e [<-|He]; auto.
Qed.

Lemma firstn_app_exact : forall A (l1 l2 : list A),
    firstn (length (l1 ++ l2) - length l2) (l1 ++ l2) = l1.
Proof.
  intros A l1 l2. rewrite length_app.
  replace (length l1 + length l2 - length l2)%nat with (length l1) by lia.
  rewrite firstn_app, Nat.sub_diag, firstn_all. simpl. apply app_nil_r.
Qed.

Lemma fw_pushed_eq : forall s1 s2 po pm,
    open s2 = po ++ open s1 -> meander s2 = pm ++ meander s1 ->
    fw_pushed s1 s2 = po ++ pm.
Proof.
  intros s1 s2 po pm Ho Hm. unfold fw_pushed.
  rewrite Ho, Hm, !firstn_app_exact. reflexivity.
Qed.

Lemma fw_pushed_spec : forall c s e,
    In e (fw_pushed s (fw_neighbours alter c s)) -> pushed_from c s e.
Proof.
  intros c s e He.
  destruct (fw_neighbours_pushes c s) as (po & pm & Ho & Hm & Hp).
  rewrite (fw_pushed_eq _ _ po pm Ho Hm) in He.
  apply Hp. exact He.
Qed.

Lemma discovers_spec : forall s c e,
    discovers alter s c e ->
    exists s1, fw_pop s = Some (c, s1) /\ pushed_from c (fw_label c s1) e.
Proof.
  intros s c e (s1 & Hp & He). exists s1. split; [exact Hp|].
  destruct (fw_label_frame c s1) as (_ & _ & Lo & Lm & _).
  destruct (fw_neighbours_pushes c (fw_label c s1)) as (po & pm & Ho & Hm & Hpf).
  apply Hpf. rewrite Lo in Ho. rewrite Lm in Hm.
  rewrite (fw_pushed_eq _ _ po pm Ho Hm) in He. exact He.
Qed.

(** What an iteration pushes waits after it. *)
Lemma discovers_entries : forall s s' c e,
    discovers alter s c e -> fw_body alter s = Some s' -> In e (entries s').
Proof.
  intros s s' c e (s1 & Hp & He) Hb. unfold fw_body in Hb. rewrite Hp in Hb.
  injection Hb as <-.
  destruct (fw_label_frame c s1) as (_ & _ & Lo & Lm & _).
  destruct (fw_neighbours_pushes c (fw_label c s1)) as (po & pm & Ho & Hm & _).
  apply in_entries. rewrite Ho, Hm. rewrite Lo in Ho. rewrite Lm in Hm.
  rewrite (fw_pushed_eq _ _ po pm Ho Hm) in He.
  rewrite !in_app_iff in *. tauto.
Qed.

(** Whatever waits after an iteration waited before it or was pushed by it. *)
Lemma fw_body_entries : forall s s' e,
    fw_body alter s = Some s' -> In e (entries s') ->
    In e (entries s) \/ exists c, discovers alter s c e.
Proof.
  intros s s' e Hb He. unfold fw_body in Hb.
  destruct (fw_pop s) as [[c s1]|] eqn:Hp; [|discriminate].
  injection Hb as <-.
  destruct (fw_pop_spec _ _ _ Hp) as (_ & _ & _ & _ & _ & _ & Hsub & _).
  destruct (fw_label_frame c s1) as (_ & _ & Lo & Lm & _).
  destruct (fw_neighbours_pushes c (fw_label c s1)) as (po & pm & Ho & Hm & _).
  assert (Hcases : In e (po ++ pm) \/ In e (open s1 ++ meander s1)).
  { apply in_entries in He. rewrite Ho, Hm, Lo, Lm in He.
    rewrite !in_app_iff in *. tauto. }
  destruct Hcases as [Hnew|Hold].
  - right. exists c, s1. split; [exact Hp|].
    rewrite Lo in Ho. rewrite Lm in Hm.
    rewrite (fw_pushed_eq _ _ po pm Ho Hm). exact Hnew.
  - left. apply Hsub. exact Hold.
Qed.

End Pushes.

(** ** Counting the iterations *)

(** Iterations done, plus entries waiting, plus cells still to close. *)
Definition fw_budget (s : fw_state) : Z :=
  processed_cells s
  + Z.of_nat (length (open s) + length (meander s) + unclosed s).

Section Counting.
Context `{PriorityQueue} `{Neighbourhood}.

Lemma fw_body_budget : forall a s s',
    fw_body a s = Some s' ->
    fw_budget s' <= fw_budget s /\ processed_cells s' = processed_cells s + 1.
Proof.
  intros a s s' Hb. unfold fw_body in Hb.
  destruct (fw_pop s) as [[c s1]|] eqn:Hp; [|discriminate].
  injection Hb as <-.
  destruct (fw_pop_spec _ _ _ Hp) as (He & _ & Hc & _ & Hpc & _ & _ & Hlen).
  destruct (fw_label_frame c s1) as (Le & Lc & Lo & Lm & Lp & _).
  destruct (fw_neighbours_fuel a c (fw_label c s1)) as [F1 _].
  destruct (fw_neighbours_dims a c (fw_label c s1)) as (_ & _ & _ & _ & Np & _).
  assert (Hu : unclosed (fw_label c s1) = unclosed s)
    by (apply unclosed_ext; congruence).
  unfold fw_budget. rewrite Np, Lp, Hpc. rewrite Hu, Lo, Lm in F1. lia.
Qed.

Lemma fw_iter_budget : forall a n s,
    fw_budget (fw_iter a n s) <= fw_budget s /\
    processed_cells s <= processed_cells (fw_iter a n s).
Proof.
  intros a n s.
  apply (fw_iter_inv a (fun t => fw_budget t <= fw_budget s /\
                                 processed_cells s <= processed_cells t)); [|lia].
  intros t t' [B P] Hb. destruct (fw_body_budget a t t' Hb). lia.
Qed.

Lemma fw_seed_budget : forall elev lab,
    fw_budget (fw_seed (fw_setup elev lab))
    <= 2 * Z.max 0 (width elev) + 2 * Z.max 0 (height elev - 2)
       + Z.max 0 (width elev) * Z.max 0 (height elev).
Proof.
  intros elev lab.
  destruct (fw_seed_spec elev lab) as (E & _ & _ & M & _ & P & O & _).
  set (s := fw_seed (fw_setup elev lab)) in *.
  unfold fw_budget. rewrite P, O, M, length_rev. simpl length.
  assert (Hu : (unclosed s <= length (grid_cells (width elev) (height elev)))%nat).
  { unfold unclosed. rewrite E. apply filter_length_le_all. }
  pose proof (length_seeds elev). pose proof (length_grid_cells (width elev) (height elev)).
  lia.
Qed.

End Counting.

(** * The flood: termination and frame *)

Section FloodResults.
Context `{PriorityQueue} `{Neighbourhood}.

(** [find_watersheds] returns: the state it returns is reached after some
    number of iterations, with both frontier structures empty. *)
Lemma find_watersheds_state_total : forall elev lab a,
    exists s n,
      find_watersheds_state elev lab a = Some s /\
      s = fw_iter a n (fw_seed (fw_setup elev lab)) /\
      open s = [] /\ meander s = [].
Proof.
  intros elev lab a. unfold find_watersheds_state.
  destruct (fw_loop_total a (fw_fuel (fw_seed (fw_setup elev lab)))
              (fw_seed (fw_setup elev lab)) (Nat.le_refl _))
    as (s & Hl & Ho & Hm).
  destruct (fw_loop_iter _ _ _ _ Hl) as [n Hn].
  exists s, n. auto.
Qed.

(** On a grid with at least one cell, every entry that ever waits in the
    open queue or on the meander stack is a cell of the grid: the flood reads
    and writes cells of the grid only. *)
Lemma find_watersheds_in_bounds : forall elev lab a n c,
    1 <= width elev -> 1 <= height elev ->
    In c (entries (fw_iter a n (fw_seed (fw_setup elev lab)))) ->
    in_grid elev (cell_x c) (cell_y c) = true.
Proof.
  intros elev lab a n c Hw Hh Hc.
  apply (inv_entries_in_grid elev a _ (fw_inv_iter elev a lab n) Hw Hh c Hc).
Qed.

Lemma fw_visit_keeps_elevations : forall c n s,
    elevations (fw_visit false c n s) = elevations s.
Proof.
  intros c n s.
  destruct (fw_visit_cases false c n s) as [[-> _]|(_ & _ & z & e & -> & _ & ->)];
    [reflexivity|].
  simpl. rewrite andb_false_r. reflexivity.
Qed.

Lemma fw_body_keeps_elevations : forall s s',
    fw_body false s = Some s' -> elevations s' = elevations s.
Proof.
  intros s s' Hb. unfold fw_body in Hb.
  destruct (fw_pop s) as [[c s1]|] eqn:Hp; [|discriminate].
  injection Hb as <-.
  destruct (fw_pop_spec _ _ _ Hp) as (He & _).
  destruct (fw_label_frame c s1) as (Le & _).
  rewrite <- He, <- Le. unfold fw_neighbours.
  apply (for_loop_ind fw_state
           (fun t => elevations t = elevations (fw_label c s1))); [|reflexivity].
  intros k t _ Ht. rewrite fw_visit_keeps_elevations. exact Ht.
Qed.

End FloodResults.

(** C9: with [alter_elevations = false], [find_watersheds] returns and leaves
    the elevation grid as it was: no iteration of the main loop writes a cell
    of it, and the grid handed back is the input grid, so every elevation
    equals its value before the call. *)
Theorem find_watersheds_frame :
  forall (PQ : PriorityQueue) (N : Neighbourhood) (elev : float_2d) (lab : int_2d),
    (forall n, elevations (fw_iter false n (fw_seed (fw_setup elev lab))) = elev) /\
    exists elev' lab',
      find_watersheds elev lab false = Some (elev', lab') /\
      elev' = elev /\
      forall x y, get elev' x y = get elev x y.
Proof.
  intros PQ N elev lab.
  assert (Hiter : forall n, elevations (fw_iter false n (fw_seed (fw_setup elev lab))) = elev).
  { intros n.
    apply (fw_iter_inv false (fun t => elevations t = elev)).
    - intros s s' Hs Hb. rewrite (fw_body_keeps_elevations s s' Hb). exact Hs.
    - destruct (fw_seed_spec elev lab) as (E & _). exact E. }
  split; [exact Hiter|].
  destruct (find_watersheds_state_total elev lab false) as (s & n & Hs & Hn & _).
  exists elev, (labels s). unfold find_watersheds. rewrite Hs.
  rewrite Hn at 1. rewrite Hiter. repeat split; reflexivity.
Qed.

(** C10: the main loop of [find_watersheds] terminates for every grid.  The
    call returns with both frontier structures empty after a number of
    iterations (counted by [processed_cells], one pop each) bounded by the
    number of seeds plus the number of cells; every entry waiting in the open
    queue or on the meander stack is a closed cell, and an iteration pushes
    only cells that were not closed before, so no closed cell is pushed
    again. *)
Theorem find_watersheds_terminates :
  forall (PQ : PriorityQueue) (N : Neighbourhood)
         (elev : float_2d) (lab : int_2d) (alter : bool),
    (exists s,
        find_watersheds_state elev lab alter = Some s /\
        open s = [] /\ meander s = [] /\
        0 <= processed_cells s
          <= 2 * Z.max 0 (width elev) + 2 * Z.max 0 (height elev - 2)
             + Z.max 0 (width elev) * Z.max 0 (height elev)) /\
    (forall n c,
        In c (entries (fw_iter alter n (fw_seed (fw_setup elev lab)))) ->
        get (closed (fw_iter alter n (fw_seed (fw_setup elev lab))))
            (cell_x c) (cell_y c) = true) /\
    (forall n c e,
        discovers alter (fw_iter alter n (fw_seed (fw_setup elev lab))) c e ->
        get (closed (fw_iter alter n (fw_seed (fw_setup elev lab))))
            (cell_x e) (cell_y e) = false).
Proof.
  intros PQ N elev lab alter. split; [|split].
  - destruct (find_watersheds_state_total elev lab alter) as (s & n & Hs & Hn & Ho & Hm).
    exists s. repeat (split; [assumption|]).
    destruct (fw_iter_budget alter n (fw_seed (fw_setup elev lab))) as [B P].
    rewrite <- Hn in B, P.
    pose proof (fw_seed_budget elev lab) as S0.
    destruct (fw_seed_spec elev lab) as (_ & _ & _ & _ & _ & P0 & _).
    rewrite P0 in P. unfold fw_budget in B at 1. lia.
  - intros n c Hc.
    apply (inv_entries_closed elev alter _ (fw_inv_iter elev alter lab n)). exact Hc.
  - intros n c e Hd.
    destruct (discovers_spec alter _ c e Hd) as (s1 & Hp & _ & _ & Hcl & _).
    destruct (fw_pop_spec _ _ _ Hp) as (_ & _ & Hc & _).
    destruct (fw_label_frame c s1) as (_ & Lc & _).
    rewrite Lc, Hc in Hcl. exact Hcl.
Qed.

(** * The flood: labels *)

Section Labels.
Context `{PriorityQueue} `{Neighbourhood}.
Variable elev0 : float_2d.
Variable alter : bool.

(** How the neighbour loop changes the closed set and the labels: a cell is
    either left alone, or it was not closed, is a neighbour of [c] inside
    the grid, and is now closed with the label of [c]. *)
Lemma fw_neighbours_labels : forall c s,
    get (closed s) (cell_x c) (cell_y c) = true ->
    forall x y,
      (get (closed (fw_neighbours alter c s)) x y = get (closed s) x y /\
       get (labels (fw_neighbours alter c s)) x y = get (labels s) x y)
      \/
      (get (closed s) x y = false /\
       get (closed (fw_neighbours alter c s)) x y = true /\
       get (labels (fw_neighbours alter c s)) x y
       = get (labels s) (cell_x c) (cell_y c) /\
       in_grid (elevations s) x y = true /\
       exists k, 1 <= k < 9 /\ x = cell_x c + dx k /\ y = cell_y c + dy k).
Proof.
  intros c s Hc. unfold fw_neighbours.
  apply (proj2 (A := width (elevations (for_loop 1 9 (fw_visit alter c) s))
                     = width (elevations s) /\
                     height (elevations (for_loop 1 9 (fw_visit alter c) s))
                     = height (elevations s))).
  apply (for_loop_ind fw_state
           (fun t =>
              (width (elevations t) = width (elevations s) /\
               height (elevations t) = height (elevations s)) /\
              forall x y,
                (get (closed t) x y = get (closed s) x y /\
                 get (labels t) x y = get (labels s) x y)
                \/
                (get (closed s) x y = false /\ get (closed t) x y = true /\
                 get (labels t) x y = get (labels s) (cell_x c) (cell_y c) /\
                 in_grid (elevations s) x y = true /\
                 exists k, 1 <= k < 9 /\ x = cell_x c + dx k /\ y = cell_y c + dy k))).
  2:{ split; [auto|]. intros x y. left. auto. }
  intros k t Hk [[Tw Th] Tall].
  destruct (fw_visit_cases alter c k t) as [[-> _]|(Hin & Hcl & _)]; [auto|].
  destruct (fw_visit_discovers alter c k t Hin Hcl)
    as (Dw & Dh & _ & _ & _ & Dl & Dc & _).
  set (nx := cell_x c + dx k) in *. set (ny := cell_y c + dy k) in *.
  split; [split; congruence|].
  assert (Hcc : get (labels t) (cell_x c) (cell_y c) = get (labels s) (cell_x c) (cell_y c)).
  { destruct (Tall (cell_x c) (cell_y c)) as [[_ L]|(F & _)]; [exact L | congruence]. }
  intros x y. rewrite Dl, Dc.
  destruct (cell_eq_dec (x, y) (nx, ny)) as [Heq|Hne].
  - injection Heq as -> ->. rewrite !get_set_same. right.
    destruct (Tall nx ny) as [[Cn _]|(_ & Cn & _)]; [|congruence].
    split; [congruence|]. split; [reflexivity|]. split; [exact Hcc|].
    split; [rewrite <- Hin; apply in_grid_dims; congruence|].
    exists k. auto.
  - rewrite !get_set_other by exact Hne. apply Tall.
Qed.

(** The labelling step changes the label of the processed cell only. *)
Lemma fw_label_other : forall c s x y,
    (x, y) <> (cell_x c, cell_y c) ->
    get (labels (fw_label c s)) x y = get (labels s) x y.
Proof.
  intros c s x y Hne. unfold fw_label.
  destruct (_ && _); [|reflexivity]. simpl. apply get_set_other. exact Hne.
Qed.

(** A label that is set is never changed by an iteration. *)
Lemma fw_body_label_stable : forall s s' x y,
    fw_inv elev0 alter s -> fw_body alter s = Some s' ->
    get (labels s) x y <> -1 ->
    get (labels s') x y = get (labels s) x y.
Proof.
  intros s s' x y Hi Hb Hl. unfold fw_body in Hb.
  destruct (fw_pop s) as [[c s1]|] eqn:Hp; [|discriminate].
  injection Hb as <-.
  destruct (fw_inv_pop elev0 alter s c s1 Hi Hp) as [Hi1 Hc1].
  destruct (fw_inv_label elev0 alter c s1 Hi1 Hc1) as (Hi2 & Hc2 & _).
  destruct (fw_pop_spec _ _ _ Hp) as (_ & L1 & _).
  assert (L2 : get (labels (fw_label c s1)) x y = get (labels s) x y).
  { rewrite <- L1. unfold fw_label.
    rewrite (inv_label_no_data _ _ _ Hi1).
    destruct (get (labels s1) (cell_x c) (cell_y c) =? -1) eqn:E; [|reflexivity].
    destruct (FP.neqb _ _); [|reflexivity]. simpl.
    apply get_set_other. intros Heq. injection Heq as -> ->.
    apply Z.eqb_eq in E. rewrite L1 in E. contradiction. }
  destruct (fw_neighbours_labels c (fw_label c s1) (pop_closed _ _ _ _ Hc2) x y)
    as [[_ L3]|(Cl & _)].
  - congruence.
  - destruct (inv_unclosed _ _ _ Hi2 x y Cl) as [L _]. congruence.
Qed.

Lemma fw_iter_label_stable : forall lab n m x y,
    let s := fw_iter alter n (fw_seed (fw_setup elev0 lab)) in
    get (labels s) x y <> -1 ->
    get (labels (fw_iter alter m s)) x y = get (labels s) x y.
Proof.
  intros lab n m x y s Hl.
  apply (fw_iter_inv alter
           (fun t => fw_inv elev0 alter t /\ get (labels t) x y = get (labels s) x y)).
  - intros t t' [Ti Tl] Hb. split; [apply (fw_inv_body elev0 alter t); assumption|].
    rewrite <- Tl. apply fw_body_label_stable; [assumption..|]. congruence.
  - split; [apply fw_inv_iter | reflexivity].
Qed.

End Labels.

(** * The flood: labels and elevations *)

(** C4: how labels are assigned.  The counter starts at 1 with every cell
    unlabelled.  In the iteration that pops [c]: (a) when [c] is unlabelled
    and its elevation is valid data, [c] receives the counter's value, which
    is positive and above every label in use, and the counter is incremented;
    otherwise the labelling step changes nothing; the labelling step never
    touches another cell; (b) the neighbour loop changes the label of a cell
    only by giving a neighbour of [c] that was not closed the label of [c].
    And a label that is set is not changed by any later iteration. *)
Theorem label_assignment :
  forall (PQ : PriorityQueue) (N : Neighbourhood)
         (elev : float_2d) (lab : int_2d) (alter : bool) (n : nat),
    let s0 := fw_seed (fw_setup elev lab) in
    let s := fw_iter alter n s0 in
    (clabel s0 = 1 /\ forall x y, get (labels s0) x y = -1) /\
    (forall c s1,
        fw_pop s = Some (c, s1) ->
        let s2 := fw_label c s1 in
        let s3 := fw_neighbours alter c s2 in
        fw_body alter s = Some s3 /\
        ((get (labels s) (cell_x c) (cell_y c) = no_data (labels s) /\
          FP.neqb (get (elevations s) (cell_x c) (cell_y c))
                  (no_data (elevations s)) = true) ->
         get (labels s2) (cell_x c) (cell_y c) = clabel s /\
         clabel s3 = clabel s + 1 /\ 1 <= clabel s /\
         forall x y, get (labels s) x y < clabel s) /\
        (~ (get (labels s) (cell_x c) (cell_y c) = no_data (labels s) /\
            FP.neqb (get (elevations s) (cell_x c) (cell_y c))
                    (no_data (elevations s)) = true) ->
         s2 = s1 /\ clabel s3 = clabel s) /\
        (forall x y, (x, y) <> (cell_x c, cell_y c) ->
                     get (labels s2) x y = get (labels s) x y) /\
        (forall x y,
            get (labels s3) x y <> get (labels s2) x y ->
            get (closed s) x y = false /\
            (exists k, 1 <= k <= 8 /\ x = cell_x c + dx k /\ y = cell_y c + dy k) /\
            get (labels s3) x y = get (labels s3) (cell_x c) (cell_y c))) /\
    (forall m x y,
        1 <= get (labels s) x y ->
        get (labels (fw_iter alter m s)) x y = get (labels s) x y).
Proof.
  intros PQ N elev lab alter n s0 s.
  pose proof (fw_inv_iter elev alter lab n) as Hi. fold s0 s in Hi.
  split; [|split].
  - destruct (fw_seed_spec elev lab) as (_ & L & _ & _ & C & _). auto.
  - intros c s1 Hp s2 s3.
    destruct (fw_inv_pop elev alter s c s1 Hi Hp) as [Hi1 Hc1].
    destruct (fw_inv_label elev alter c s1 Hi1 Hc1) as (Hi2 & Hc2 & _).
    destruct (fw_pop_spec _ _ _ Hp) as (E1 & L1 & C1 & K1 & _).
    destruct (fw_neighbours_dims alter c s2) as (_ & _ & _ & _ & _ & K3).
    fold s3 in K3.
    split; [unfold fw_body; rewrite Hp; reflexivity|].
    split; [|split; [|split]].
    + intros [Hl Hd]. rewrite K3. unfold s2, fw_label.
      rewrite L1, E1, Hl, Z.eqb_refl, Hd. simpl. rewrite get_set_same, K1.
      split; [reflexivity|]. split; [reflexivity|].
      split; [apply (inv_clabel _ _ _ Hi)|].
      intros x y. pose proof (inv_clabel _ _ _ Hi).
      destruct (inv_labels _ _ _ Hi x y); lia.
    + intros Hno. rewrite K3. unfold s2, fw_label. rewrite L1, E1.
      destruct (get (labels s) (cell_x c) (cell_y c) =? no_data (labels s)) eqn:El;
        [|auto].
      destruct (FP.neqb _ _) eqn:Ed; [|auto].
      exfalso. apply Hno. apply Z.eqb_eq in El. auto.
    + intros x y Hne. unfold s2. rewrite fw_label_other by exact Hne.
      rewrite L1. reflexivity.
    + intros x y Hch.
      pose proof (fw_neighbours_labels alter c s2 (pop_closed _ _ _ _ Hc2)) as Hn.
      fold s3 in Hn.
      destruct (Hn x y) as [[_ L]|(Cl & _ & L & _ & k & Hk & Hx & Hy)]; [contradiction|].
      split; [|split].
      * destruct (fw_label_frame c s1) as (_ & C2 & _). fold s2 in C2.
        rewrite <- C1, <- C2. exact Cl.
      * exists k. split; [lia|auto].
      * rewrite L. destruct (Hn (cell_x c) (cell_y c)) as [[_ Lc]|(Cc & _)].
        -- symmetry. exact Lc.
        -- assert (Pc : get (closed s2) (cell_x c) (cell_y c) = true)
             by exact (pop_closed _ _ _ _ Hc2).
           congruence.
  - intros m x y Hl. subst s s0.
    apply (fw_iter_label_stable elev alter lab n m x y). lia.
Qed.

(** On the pit grid the first entry popped is the boundary cell [(2, 1)]: it
    is unlabelled with a data elevation, receives label 1, and the counter
    moves on to 2. *)
Lemma label_assignment_witness :
  match @fw_pop lowest_first (fw_seed (fw_setup pit_grid empty_labels)) with
  | Some (c, s1) =>
      cell_xy c = (2, 1) /\
      get (labels (fw_label c s1)) (cell_x c) (cell_y c) = 1 /\
      clabel (@fw_neighbours d8_neighbourhood true c (fw_label c s1)) = 2
  | None => False
  end.
Proof.
  destruct (@fw_pop lowest_first (fw_seed (fw_setup pit_grid empty_labels)))
    as [[c s1]|] eqn:Hp; [|vm_compute in Hp; discriminate].
  assert (Hc : c = mk_grid_cellz 2 1 (FP.float_of_int 5)).
  { pose proof Hp as Hp'. vm_compute in Hp'. injection Hp' as Hc _.
    symmetry. exact Hc. }
  destruct (label_assignment lowest_first d8_neighbourhood pit_grid empty_labels true O)
    as (_ & Hstep & _).
  destruct (Hstep c s1 Hp) as (_ & Ha & _).
  subst c. destruct Ha as (Hl & Hk & _); [split; reflexivity|].
  split; [reflexivity|]. split; [exact Hl | exact Hk].
Defined.

Section Monotone.
Context `{PriorityQueue} `{Neighbourhood}.

(** An entry never carries less than the entry that discovered it. *)
Lemma discovers_not_below : forall alter elev lab n c e,
    real_valued elev ->
    discovers alter (fw_iter alter n (fw_seed (fw_setup elev lab))) c e ->
    not_below e c.
Proof.
  intros alter elev lab n c e Hreal Hd.
  pose proof (fw_inv_iter elev alter lab n) as Hi.
  set (s := fw_iter alter n (fw_seed (fw_setup elev lab))) in *.
  destruct (discovers_spec alter s c e Hd) as (s1 & Hp & _ & Hin & Hcl & Hz).
  destruct (fw_inv_pop elev alter s c s1 Hi Hp) as [Hi1 Hc1].
  destruct (fw_inv_label elev alter c s1 Hi1 Hc1) as (Hi2 & Hc2 & _).
  assert (Hg : in_grid elev (cell_x e) (cell_y e) = true).
  { rewrite <- Hin. symmetry.
    apply in_grid_dims; [apply (inv_width _ _ _ Hi2) | apply (inv_height _ _ _ Hi2)]. }
  assert (Hwh : 1 <= width elev /\ 1 <= height elev)
    by (apply in_grid_spec in Hg; lia).
  destruct (pop_in_grid _ _ _ _ Hc2 (proj1 Hwh) (proj2 Hwh)) as (_ & x & y & Hxy & Hcz).
  assert (Hnc : FP.is_nan (cell_z c) = false) by (rewrite Hcz; apply Hreal; exact Hxy).
  destruct (inv_unclosed _ _ _ Hi2 _ _ Hcl) as [_ He].
  unfold not_below.
  destruct Hz as [[-> _]|[Hez Hle]].
  - apply float_leb_refl. exact Hnc.
  - rewrite Hez. apply float_ltb_leb. apply float_leb_false_ltb; auto.
    rewrite He. apply Hreal. exact Hg.
Qed.

(** An entry carries the flood elevation of the entry that discovered it, or
    its own elevation when that is not at or below it. *)
Lemma discovers_not_lowered : forall alter s c e,
    discovers alter s c e -> not_lowered e c.
Proof.
  intros alter s c e Hd.
  destruct (discovers_spec alter s c e Hd) as (s1 & _ & _ & _ & _ & Hz).
  unfold not_lowered.
  destruct Hz as [[Hez _]|[Hez Hle]]; [left; exact Hez|].
  right. rewrite Hez. exact Hle.
Qed.

End Monotone.

(** C2, as the claim states it, fails on a grid with a NaN cell: on
    [nan_centre] with [alter_elevations = true] the centre cell ends with a
    NaN, which does not compare greater than or equal to its input elevation,
    for the queue that serves the lowest entry first and for the one that
    serves the highest first; and the entry of the centre cell, discovered
    by the first iteration from the boundary cell [(2, 1)], carries a NaN,
    so the flood elevations along this discovery path are not monotone
    non-decreasing. *)
Lemma nan_cell_breaks_fill_monotone :
  in_grid nan_centre 1 1 = true /\
  option_map (fun r => (get (fst r) 1 1,
                        FP.leb (get nan_centre 1 1) (get (fst r) 1 1)))
             (@find_watersheds lowest_first d8_neighbourhood
                               nan_centre empty_labels true)
  = Some (S754_nan, false) /\
  option_map (fun r => (get (fst r) 1 1,
                        FP.leb (get nan_centre 1 1) (get (fst r) 1 1)))
             (@find_watersheds highest_first d8_neighbourhood
                               nan_centre empty_labels true)
  = Some (S754_nan, false) /\
  @discovery_path lowest_first d8_neighbourhood true nan_centre empty_labels
    [mk_grid_cellz 1 1 S754_nan; mk_grid_cellz 2 1 (FP.float_of_int 5)] /\
  ~ Sorted not_below
      [mk_grid_cellz 1 1 S754_nan; mk_grid_cellz 2 1 (FP.float_of_int 5)].
Proof.
  split; [reflexivity|].
  split; [vm_compute; reflexivity|].
  split; [vm_compute; reflexivity|].
  split.
  - apply (@path_step lowest_first d8_neighbourhood true nan_centre empty_labels 0%nat).
    + apply path_seed. vm_compute. tauto.
    + unfold discovers. eexists. split.
      * vm_compute. reflexivity.
      * vm_compute. tauto.
  - intros Hs. apply Sorted_inv in Hs. destruct Hs as [_ Hr].
    apply HdRel_inv in Hr. unfold not_below in Hr. simpl in Hr.
    vm_compute in Hr. discriminate Hr.
Qed.

(** C2, amended: for every elevation grid, [find_watersheds] with
    [alter_elevations = true] returns an elevation grid in which every cell
    holds its input elevation unchanged or an elevation that compares
    greater than or equal to it, so that every cell whose input elevation is
    not a NaN is at least its input elevation; and along every
    flood-discovery path from the boundary (whatever the flag) an entry
    carries the flood elevation of the entry before it, or one that is not
    at or below it.  On a grid without NaN cells the flood elevations along
    every discovery path never decrease. *)
Theorem find_watersheds_fill_monotone :
  forall (PQ : PriorityQueue) (N : Neighbourhood) (elev : float_2d) (lab : int_2d),
    (exists elev' lab',
        find_watersheds elev lab true = Some (elev', lab') /\
        forall x y,
          (get elev' x y = get elev x y \/
           FP.leb (get elev x y) (get elev' x y) = true) /\
          (FP.is_nan (get elev x y) = false ->
           FP.leb (get elev x y) (get elev' x y) = true)) /\
    (forall alter p, discovery_path alter elev lab p -> Sorted not_lowered p) /\
    (real_valued elev ->
     forall alter p, discovery_path alter elev lab p -> Sorted not_below p).
Proof.
  intros PQ N elev lab. split; [|split].
  - destruct (find_watersheds_state_total elev lab true) as (s & n & Hs & Hn & _).
    exists (elevations s), (labels s). unfold find_watersheds. rewrite Hs.
    split; [reflexivity|]. intros x y.
    pose proof (fw_inv_iter elev true lab n) as Hi. rewrite <- Hn in Hi.
    split; [apply (inv_raised _ _ _ Hi x y)|].
    intros Hnan. destruct (inv_raised _ _ _ Hi x y) as [->|Hle]; [|exact Hle].
    apply float_leb_refl. exact Hnan.
  - intros alter p Hp. induction Hp as [c Hc|n c e p Hp IH Hd].
    + constructor; constructor.
    + constructor; [exact IH|]. constructor.
      apply (discovers_not_lowered alter _ c e Hd).
  - intros Hreal alter p Hp. induction Hp as [c Hc|n c e p Hp IH Hd].
    + constructor; constructor.
    + constructor; [exact IH|]. constructor.
      apply (discovers_not_below alter elev lab n); assumption.
Qed.

(** The pit grid holds no NaN: every cell of the returned grid is at least
    its input elevation, and the flood elevations along its discovery paths
    never decrease. *)
Lemma find_watersheds_fill_monotone_witness :
  real_valued pit_grid /\
  (exists elev' lab',
      @find_watersheds lowest_first d8_neighbourhood pit_grid empty_labels true
      = Some (elev', lab') /\
      forall x y, in_grid pit_grid x y = true ->
                  FP.leb (get pit_grid x y) (get elev' x y) = true) /\
  (forall alter p,
      @discovery_path lowest_first d8_neighbourhood alter pit_grid empty_labels p ->
      Sorted not_below p).
Proof.
  assert (Hreal : real_valued pit_grid).
  { intros x y _. unfold get, pit_grid. simpl.
    destruct ((x =? 1) && (y =? 1)); reflexivity. }
  split; [exact Hreal|].
  destruct (find_watersheds_fill_monotone lowest_first d8_neighbourhood
              pit_grid empty_labels) as ((elev' & lab' & Hr & Hcells) & _ & Hpaths).
  split.
  - exists elev', lab'. split; [exact Hr|].
    intros x y Hg. apply (Hcells x y). apply Hreal. exact Hg.
  - exact (Hpaths Hreal).
Defined.

(** C1, as the claim states it, fails: on [nodata_centre] the centre cell,
    whose input elevation is the no-data sentinel, ends with the watershed
    label 1 instead of the label sentinel, and with [alter_elevations = true]
    its elevation is overwritten with the flood elevation 0; this is so for
    the queue that serves the lowest entry first and for the one that serves
    the highest first. *)
Lemma no_data_cell_is_flooded :
  FP.eqb (get nodata_centre 1 1) (no_data nodata_centre) = true /\
  option_map (fun r => (get (snd r) 1 1, no_data (snd r), get (fst r) 1 1))
             (@find_watersheds lowest_first d8_neighbourhood
                               nodata_centre empty_labels true)
  = Some (1, -1, S754_zero false) /\
  option_map (fun r => (get (snd r) 1 1, no_data (snd r), get (fst r) 1 1))
             (@find_watersheds highest_first d8_neighbourhood
                               nodata_centre empty_labels true)
  = Some (1, -1, S754_zero false).
Proof. vm_compute. repeat split; reflexivity. Qed.

(** C1, amended: a cell whose input elevation equals the no-data sentinel
    never starts a watershed (when it is popped, the labelling step leaves the
    state as it is, so no label is drawn from the counter for it); a boundary
    cell whose input elevation is no-data ends with the label sentinel and its
    input elevation.  No-data cells are not skipped as traversal targets:
    every cell an iteration discovers, no-data or not, is closed and takes the
    label of the cell that discovered it, and with [alter_elevations = true]
    its elevation is overwritten with the flood elevation when it is not
    above it. *)
Theorem no_data_isolation :
  forall (PQ : PriorityQueue) (N : Neighbourhood)
         (elev : float_2d) (lab : int_2d) (alter : bool),
    (forall n c s1,
        fw_pop (fw_iter alter n (fw_seed (fw_setup elev lab))) = Some (c, s1) ->
        FP.eqb (get elev (cell_x c) (cell_y c)) (no_data elev) = true ->
        fw_label c s1 = s1) /\
    (exists elev' lab',
        find_watersheds elev lab alter = Some (elev', lab') /\
        no_data lab' = -1 /\
        forall x y,
          on_boundary elev x y ->
          FP.eqb (get elev x y) (no_data elev) = true ->
          get lab' x y = no_data lab' /\ get elev' x y = get elev x y) /\
    (forall n c e s',
        let s := fw_iter alter n (fw_seed (fw_setup elev lab)) in
        discovers alter s c e ->
        fw_body alter s = Some s' ->
        get (closed s') (cell_x e) (cell_y e) = true /\
        get (labels s') (cell_x e) (cell_y e)
        = get (labels s') (cell_x c) (cell_y c) /\
        (alter = true ->
         FP.leb (get (elevations s) (cell_x e) (cell_y e)) (cell_z c) = true ->
         get (elevations s') (cell_x e) (cell_y e) = cell_z c)).
Proof.
  intros PQ N elev lab alter. split; [|split].
  - intros n c s1 Hp Hnd.
    pose proof (fw_inv_iter elev alter lab n) as Hi.
    destruct (fw_inv_pop elev alter _ c s1 Hi Hp) as [Hi1 _].
    unfold fw_label.
    rewrite (inv_label_no_data _ _ _ Hi1), (inv_no_data _ _ _ Hi1).
    destruct (get (labels s1) (cell_x c) (cell_y c) =? -1) eqn:El; [|reflexivity].
    apply Z.eqb_eq in El. unfold FP.neqb.
    destruct (inv_changed _ _ _ Hi1 (cell_x c) (cell_y c)) as [E|[L|E]].
    + rewrite E. unfold FP.eqb in Hnd. rewrite Hnd. reflexivity.
    + contradiction.
    + unfold FP.eqb in E. rewrite E. reflexivity.
  - destruct (find_watersheds_state_total elev lab alter) as (s & n & Hs & Hn & _).
    exists (elevations s), (labels s). unfold find_watersheds. rewrite Hs.
    pose proof (fw_inv_iter elev alter lab n) as Hi. rewrite <- Hn in Hi.
    split; [reflexivity|]. split; [apply (inv_label_no_data _ _ _ Hi)|].
    intros x y Hb Hnd. destruct (inv_boundary _ _ _ Hi x y Hb) as (_ & E & L).
    rewrite (inv_label_no_data _ _ _ Hi). auto.
  - intros n c e s' s Hd Hb.
    pose proof (fw_inv_iter elev alter lab n) as Hi. fold s in Hi.
    pose proof (fw_inv_body elev alter s s' Hi Hb) as Hi'.
    pose proof (discovers_entries alter s s' c e Hd Hb) as He.
    destruct (discovers_spec alter s c e Hd) as (s1 & Hp & _ & _ & Hcl & Hz).
    destruct (fw_inv_pop elev alter s c s1 Hi Hp) as [Hi1 Hc1].
    destruct (fw_inv_label elev alter c s1 Hi1 Hc1) as (Hi2 & Hc2 & _).
    assert (Hs' : s' = fw_neighbours alter c (fw_label c s1)).
    { unfold fw_body in Hb. rewrite Hp in Hb. congruence. }
    pose proof (inv_entries_closed _ _ _ Hi' e He) as Hce.
    pose proof (fw_neighbours_labels alter c _ (pop_closed _ _ _ _ Hc2)) as Hn.
    rewrite <- Hs' in Hn.
    split; [exact Hce|]. split.
    + destruct (Hn (cell_x e) (cell_y e)) as [[C _]|(_ & _ & L & _)]; [congruence|].
      destruct (Hn (cell_x c) (cell_y c)) as [[_ Lc]|(Cc & _)]; [congruence|].
      rewrite (pop_closed _ _ _ _ Hc2) in Cc. discriminate.
    + intros Ha Hle. rewrite <- (inv_entry_z _ _ _ Hi' Ha e He).
      destruct (fw_pop_spec _ _ _ Hp) as (E1 & _).
      destruct (fw_label_frame c s1) as (E2 & _).
      rewrite E2, E1 in Hz. destruct Hz as [[Hez _]|[_ Hf]]; [exact Hez | congruence].
Qed.

(** On [nodata_centre] the second entry popped is the no-data centre cell
    [(1, 1)], and the labelling step leaves the state as it is; the boundary
    cells, which are not no-data, are handled by the first part alone. *)
Lemma no_data_isolation_witness :
  match @fw_pop lowest_first
          (@fw_iter lowest_first d8_neighbourhood true 1
                    (fw_seed (fw_setup nodata_centre empty_labels))) with
  | Some (c, s1) => cell_xy c = (1, 1) /\ fw_label c s1 = s1
  | None => False
  end.
Proof.
  destruct (@fw_pop lowest_first
              (@fw_iter lowest_first d8_neighbourhood true 1
                        (fw_seed (fw_setup nodata_centre empty_labels))))
    as [[c s1]|] eqn:Hp; [|vm_compute in Hp; discriminate].
  assert (Hc : cell_xy c = (1, 1)).
  { pose proof Hp as Hp'. vm_compute in Hp'. injection Hp' as Hc _.
    rewrite <- Hc. reflexivity. }
  split; [exact Hc|].
  destruct (no_data_isolation lowest_first d8_neighbourhood nodata_centre
              empty_labels true) as (Hfresh & _).
  apply (Hfresh 1%nat c s1 Hp).
  unfold cell_xy in Hc. injection Hc as -> ->. reflexivity.
Defined.

(** * The seeding phase: which cells are enqueued *)

Lemma NoDup_flat_map : forall A B (f : A -> list B) l,
    NoDup l ->
    (forall a, In a l -> NoDup (f a)) ->
    (forall a a' b, In a l -> In a' l -> In b (f a) -> In b (f a') -> a = a') ->
    NoDup (flat_map f l).
Proof.
  intros A B f l Hl. induction Hl as [|a l Ha Hl IH]; intros Hf Hdis; simpl.
  - constructor.
  - apply NoDup_app.
    + apply Hf. left. reflexivity.
    + apply IH.
      * intros a' Ha'. apply Hf. right. exact Ha'.
      * intros a1 a2 b H1 H2. apply Hdis; right; assumption.
    + intros b Hb Hb'. apply in_flat_map in Hb'. destruct Hb' as [a' [Ha' Hba']].
      assert (a = a') by (apply (Hdis a a' b); simpl; auto).
      subst a'. contradiction.
Qed.

Lemma map_flat_map : forall A B C (g : B -> C) (f : A -> list B) l,
    map g (flat_map f l) = flat_map (fun a => map g (f a)) l.
Proof.
  intros A B C g f l. induction l as [|a l IH]; simpl; [reflexivity|].
  rewrite map_app, IH. reflexivity.
Qed.

(** On a grid at least 2 wide and 2 high, the seeding loops enumerate no
    cell twice. *)
Lemma seeds_NoDup : forall e,
    2 <= width e -> 2 <= height e -> NoDup (map cell_xy (seeds e)).
Proof.
  intros e Hw Hh. unfold seeds. rewrite map_app, !map_flat_map.
  apply NoDup_app.
  - apply NoDup_flat_map; [apply NoDup_zrange| |].
    + intros x _. simpl. unfold cell_xy. simpl.
      constructor; [|constructor; [|constructor]]; simpl; [|tauto].
      intros [Heq|[]]. injection Heq; intros; lia.
    + intros x x' b _ _ Hb Hb'. simpl in Hb, Hb'. unfold cell_xy in *. simpl in *.
      destruct Hb as [<-|[<-|[]]]; destruct Hb' as [Heq|[Heq|[]]];
        injection Heq; intros; lia.
  - apply NoDup_flat_map; [apply NoDup_zrange| |].
    + intros y _. simpl. unfold cell_xy. simpl.
      constructor; [|constructor; [|constructor]]; simpl; [|tauto].
      intros [Heq|[]]. injection Heq; intros; lia.
    + intros y y' b _ _ Hb Hb'. simpl in Hb, Hb'. unfold cell_xy in *. simpl in *.
      destruct Hb as [<-|[<-|[]]]; destruct Hb' as [Heq|[Heq|[]]];
        injection Heq; intros; lia.
  - intros b Hb Hb'. apply in_flat_map in Hb. apply in_flat_map in Hb'.
    destruct Hb as [x [Hx Hb]]. destruct Hb' as [y [Hy Hb']].
    apply in_zrange in Hx. apply in_zrange in Hy.
    simpl in Hb, Hb'. unfold cell_xy in *. simpl in *.
    destruct Hb as [<-|[<-|[]]]; destruct Hb' as [Heq|[Heq|[]]];
      injection Heq; intros; lia.
Qed.

(** The seeding phase on a grid at least 2 wide and 2 high: the open queue
    holds every boundary cell exactly once and nothing else, each keyed by
    its own elevation, and the closed cells are the boundary cells. *)
Lemma seeding_each_boundary_cell_once : forall elev lab,
    2 <= width elev -> 2 <= height elev ->
    let s := fw_seed (fw_setup elev lab) in
    NoDup (map cell_xy (open s)) /\
    (forall x y, In (x, y) (map cell_xy (open s)) <-> on_boundary elev x y) /\
    (forall c, In c (open s) -> cell_z c = get elev (cell_x c) (cell_y c)) /\
    (forall x y, get (closed s) x y = true <-> on_boundary elev x y) /\
    meander s = [].
Proof.
  intros elev lab Hw Hh s.
  destruct (fw_seed_spec elev lab) as (_ & _ & _ & M & _ & _ & O & C).
  fold s in M, O, C.
  assert (Hb : forall x y, (exists c, In c (seeds elev) /\ cell_xy c = (x, y))
                           <-> on_boundary elev x y)
    by (intros x y; apply seeds_boundary; lia).
  rewrite O. split; [|split; [|split; [|split]]].
  - rewrite map_rev. apply NoDup_rev. apply seeds_NoDup; assumption.
  - intros x y. rewrite <- Hb. rewrite in_map_iff. split.
    + intros [c [Hc Hin]]. exists c. split; [apply in_rev; exact Hin | exact Hc].
    + intros [c [Hc Hxy]]. exists c. split; [exact Hxy | apply in_rev in Hc; exact Hc].
  - intros c Hc. apply in_rev in Hc. apply in_seeds in Hc. tauto.
  - intros x y. rewrite <- Hb. apply C.
  - exact M.
Qed.

(** C3, as the claim states it, fails on grids narrower or shorter than 2:
    on a grid of one row the seeding loop over [x] pushes [(x, 0)] and
    [(x, height - 1)], the same cell, and on a grid of one column the loop
    over [y] pushes [(0, y)] and [(width - 1, y)], the same cell.  Here the
    open queue after seeding: the single cell of [single_cell] is enqueued
    twice, and so is each of the two cells of [single_row]. *)
Theorem seeding_enqueues_twice :
  map cell_xy (open (fw_seed (fw_setup single_cell empty_labels)))
  = [(0, 0); (0, 0)] /\
  map cell_xy (open (fw_seed (fw_setup single_row empty_labels)))
  = [(1, 0); (1, 0); (0, 0); (0, 0)] /\
  count_occ cell_eq_dec
    (map cell_xy (open (fw_seed (fw_setup single_row empty_labels)))) (0, 0)
  = 2%nat.
Proof. vm_compute. repeat split; reflexivity. Qed.

(** * Scans over a grid *)

Section Scan.
Context {T : Type}.

(** The body of a scan: it writes its own cell at most and keeps the grid's
    properties. *)
Definition own_cell_only (cell : Z -> Z -> array2d T -> array2d T) : Prop :=
  forall x y g,
    width (cell x y g) = width g /\ height (cell x y g) = height g /\
    cellsize (cell x y g) = cellsize g /\ no_data (cell x y g) = no_data g /\
    forall x' y', (x', y') <> (x, y) -> get (cell x y g) x' y' = get g x' y'.

(** Two nested counted loops visit the cells of [grid_cells] in order. *)
Lemma nested_loops_cells : forall (cell : Z -> Z -> array2d T -> array2d T) w h g,
    for_loop 0 w (fun x acc => for_loop 0 h (cell x) acc) g
    = fold_left (fun acc p => cell (fst p) (snd p) acc) (grid_cells w h) g.
Proof.
  intros cell w h g. unfold for_loop, grid_cells.
  generalize (zrange 0 w) as xs. intros xs. revert g.
  induction xs as [|x xs IH]; intros g; simpl; [reflexivity|].
  rewrite fold_left_app. rewrite <- IH. f_equal.
  generalize (zrange 0 h) as ys. intros ys. revert g.
  induction ys as [|y ys IHy]; intros g; simpl; [reflexivity|].
  apply IHy.
Qed.

Variable cell : Z -> Z -> array2d T -> array2d T.
Hypothesis cell_frame : own_cell_only cell.

Lemma scan_props : forall l g,
    let out := fold_left (fun acc p => cell (fst p) (snd p) acc) l g in
    width out = width g /\ height out = height g /\
    cellsize out = cellsize g /\ no_data out = no_data g.
Proof.
  induction l as [|p l IH]; intros g; simpl; [auto|].
  destruct (IH (cell (fst p) (snd p) g)) as (A & B & C & D).
  destruct (cell_frame (fst p) (snd p) g) as (A' & B' & C' & D' & _).
  cbv zeta in *. repeat split; congruence.
Qed.

Lemma scan_untouched : forall l g x y,
    ~ In (x, y) l ->
    get (fold_left (fun acc p => cell (fst p) (snd p) acc) l g) x y = get g x y.
Proof.
  induction l as [|p l IH]; intros g x y Hn; simpl; [reflexivity|].
  rewrite IH by (intros Hin; apply Hn; right; exact Hin).
  destruct (cell_frame (fst p) (snd p) g) as (_ & _ & _ & _ & F).
  apply F. intros Heq. apply Hn. left. destruct p. simpl in Heq. congruence.
Qed.

(** A visited cell holds what the body writes there, whenever that value [v]
    depends on the grid being written through its no-data sentinel only. *)
Lemma scan_visited : forall l g x y v,
    (forall g', no_data g' = no_data g -> get (cell x y g') x y = v) ->
    In (x, y) l ->
    get (fold_left (fun acc p => cell (fst p) (snd p) acc) l g) x y = v.
Proof.
  induction l as [|p l IH]; intros g x y v Hv Hin; simpl; [contradiction|].
  destruct (cell_frame (fst p) (snd p) g) as (_ & _ & _ & D & _).
  destruct (in_dec cell_eq_dec (x, y) l) as [Hl|Hl].
  - apply IH; [|exact Hl]. intros g' Hg'. apply Hv. congruence.
  - rewrite scan_untouched by exact Hl.
    destruct Hin as [->|Hin]; [|contradiction]. simpl. apply Hv. reflexivity.
Qed.

End Scan.

(** * Terrain attributes *)

Section TerrainFacts.
Context `{Libm} `{Selectors}.

Lemma terrain_cell_frame : forall elevations attrib,
    own_cell_only (terrain_cell elevations attrib).
Proof.
  intros elevations attrib x y g. unfold terrain_cell.
  destruct (FP.eqb _ _);
    [|destruct (select_attrib _ _)];
    repeat split; try reflexivity;
      intros x' y' Hne; try reflexivity; apply get_set_other; exact Hne.
Qed.

Lemma d8_terrain_attribute_scan : forall elevations attribs attrib,
    d8_terrain_attribute elevations attribs attrib
    = fold_left (fun acc p => terrain_cell elevations attrib (fst p) (snd p) acc)
        (grid_cells (width elevations) (height elevations))
        (set_no_data (copyprops attribs elevations) (FP.float_of_int (-99999))).
Proof.
  intros. unfold d8_terrain_attribute. cbv zeta. apply nested_loops_cells.
Qed.

(** The selectors are pairwise distinct, so each selects its own case. *)
Lemma select_attrib_cases : forall t,
    select_attrib TATTRIB_CURVATURE t = Some (curvature t) /\
    select_attrib TATTRIB_PLANFORM_CURVATURE t = Some (planform_curvature t) /\
    select_attrib TATTRIB_PROFILE_CURVATURE t = Some (profile_curvature t) /\
    select_attrib TATTRIB_ASPECT t = Some (aspect t) /\
    select_attrib TATTRIB_SLOPE_RISERUN t = Some (rise_over_run t).
Proof.
  intros t. pose proof selectors_distinct as Hd.
  repeat (apply NoDup_cons_iff in Hd; destruct Hd as [? Hd]).
  simpl in *. unfold select_attrib.
  repeat split;
    repeat match goal with
           | |- context [?a =? ?b] => destruct (Z.eqb_spec a b)
           end;
    try reflexivity; exfalso; intuition congruence.
Qed.

End TerrainFacts.

(** C6: whatever the selector, [d8_terrain_attribute] hands back a grid with
    the dimensions and the cell size of the elevation grid, whose no-data
    sentinel is [-99999] whatever the input's sentinel is, and in which every
    cell whose input elevation equals the input's sentinel holds [-99999]. *)
Theorem d8_terrain_attribute_no_data :
  forall (L : Libm) (Sel : Selectors) (elevations attribs : float_2d) (attrib : Z),
    let out := d8_terrain_attribute elevations attribs attrib in
    width out = width elevations /\ height out = height elevations /\
    cellsize out = cellsize elevations /\
    no_data out = FP.float_of_int (-99999) /\
    forall x y,
      in_grid elevations x y = true ->
      FP.eqb (get elevations x y) (no_data elevations) = true ->
      get out x y = FP.float_of_int (-99999).
Proof.
  intros L Sel elevations attribs attrib out. unfold out.
  rewrite d8_terrain_attribute_scan.
  destruct (scan_props (terrain_cell elevations attrib)
              (terrain_cell_frame elevations attrib)
              (grid_cells (width elevations) (height elevations))
              (set_no_data (copyprops attribs elevations) (FP.float_of_int (-99999))))
    as (W & Hh & C & D).
  cbv zeta in *. repeat (split; [assumption|]).
  intros x y Hin Hnd.
  apply (scan_visited (terrain_cell elevations attrib)
           (terrain_cell_frame elevations attrib)).
  - intros g' Hg'. unfold terrain_cell. rewrite Hnd, get_set_same. exact Hg'.
  - apply in_grid_cells. apply in_grid_spec. exact Hin.
Qed.

(** The centre cell of [nodata_centre] is no-data, and the attribute grid
    holds [-99999] there. *)
Lemma d8_terrain_attribute_no_data_witness :
  (in_grid nodata_centre 1 1 = true /\
   FP.eqb (get nodata_centre 1 1) (no_data nodata_centre) = true) /\
  get (d8_terrain_attribute (libm := nan_libm) (selectors := example_selectors)
         nodata_centre pit_grid 5) 1 1
  = FP.float_of_int (-99999).
Proof.
  split; [split; reflexivity|].
  destruct (d8_terrain_attribute_no_data nan_libm example_selectors
              nodata_centre pit_grid 5) as (_ & _ & _ & _ & Hcell).
  apply Hcell; reflexivity.
Defined.

Lemma window_flat : forall cs nd x0 y0 ox oy,
    window (flat_grid cs nd) x0 y0 ox oy = FP.to_double (FP.float_of_int 100).
Proof.
  intros. unfold window.
  change (get (flat_grid cs nd) x0 y0) with (FP.float_of_int 100).
  change (get (flat_grid cs nd) (x0 + ox) (y0 + oy)) with (FP.float_of_int 100).
  destruct (in_grid _ _ _); destruct (FP.eqb _ _); reflexivity.
Qed.

Lemma flat_helper : forall (L : Libm) m e nd x y,
    d8_terrain_attrib_helper (flat_grid (S754_finite false m e) nd) x y
    = mk_terrain_attribs (FP.float_of_int 0) (FP.float_of_int (-1))
        (FP.float_of_int 0) (FP.float_of_int 0) (FP.float_of_int 0).
Proof.
  intros L m e nd x y. unfold d8_terrain_attrib_helper.
  rewrite !window_flat.
  change (get (flat_grid (S754_finite false m e) nd) x y) with (FP.float_of_int 100).
  change (cellsize (flat_grid (S754_finite false m e) nd)) with (S754_finite false m e).
  vm_compute. reflexivity.
Qed.

(** C7: on the flat 5 by 5 grid (every cell 100, none of them no-data, any
    positive finite cell size) the helper yields, at every interior cell,
    rise-over-run 0, aspect -1 and curvature, profile curvature and planform
    curvature 0; and these are the values [d8_terrain_attribute] writes at
    that cell for the five selectors. *)
Theorem flat_plane_attributes :
  forall (L : Libm) (Sel : Selectors) (m : positive) (e : Z) (nd : FP.float)
         (attribs : float_2d) (x y : Z),
    FP.eqb (FP.float_of_int 100) nd = false ->
    1 <= x <= 3 -> 1 <= y <= 3 ->
    let elevations := flat_grid (S754_finite false m e) nd in
    d8_terrain_attrib_helper elevations x y
    = mk_terrain_attribs (FP.float_of_int 0) (FP.float_of_int (-1))
        (FP.float_of_int 0) (FP.float_of_int 0) (FP.float_of_int 0) /\
    get (d8_terrain_attribute elevations attribs TATTRIB_SLOPE_RISERUN) x y
    = FP.float_of_int 0 /\
    get (d8_terrain_attribute elevations attribs TATTRIB_ASPECT) x y
    = FP.float_of_int (-1) /\
    get (d8_terrain_attribute elevations attribs TATTRIB_CURVATURE) x y
    = FP.float_of_int 0 /\
    get (d8_terrain_attribute elevations attribs TATTRIB_PROFILE_CURVATURE) x y
    = FP.float_of_int 0 /\
    get (d8_terrain_attribute elevations attribs TATTRIB_PLANFORM_CURVATURE) x y
    = FP.float_of_int 0.
Proof.
  intros L Sel m e nd attribs x y Hnd Hx Hy elevations.
  split; [apply flat_helper|].
  assert (Hcell : forall attrib v,
             select_attrib attrib
               (mk_terrain_attribs (FP.float_of_int 0) (FP.float_of_int (-1))
                  (FP.float_of_int 0) (FP.float_of_int 0) (FP.float_of_int 0))
             = Some v ->
             get (d8_terrain_attribute elevations attribs attrib) x y = v).
  { intros attrib v Hv. rewrite d8_terrain_attribute_scan.
    apply (scan_visited (terrain_cell elevations attrib)
             (terrain_cell_frame elevations attrib)).
    - intros g' _. unfold terrain_cell.
      change (get elevations x y) with (FP.float_of_int 100).
      change (no_data elevations) with nd. rewrite Hnd.
      unfold elevations. rewrite flat_helper, Hv. apply get_set_same.
    - apply in_grid_cells. simpl. lia. }
  destruct (select_attrib_cases
              (mk_terrain_attribs (FP.float_of_int 0) (FP.float_of_int (-1))
                 (FP.float_of_int 0) (FP.float_of_int 0) (FP.float_of_int 0)))
    as (Sc & Spl & Spr & Sa & Sr).
  repeat split; apply Hcell; assumption.
Qed.

(** The flat 5 by 5 grid with cell size 1 and sentinel [-9999], at its centre. *)
Lemma flat_plane_attributes_witness :
  let L := nan_libm in
  let Sel := example_selectors in
  let elevations :=
    flat_grid (S754_finite false 4503599627370496 (-52)) (FP.float_of_int (-9999)) in
  (FP.eqb (FP.float_of_int 100) (FP.float_of_int (-9999)) = false /\
   1 <= 2 <= 3) /\
  d8_terrain_attrib_helper elevations 2 2
  = mk_terrain_attribs (FP.float_of_int 0) (FP.float_of_int (-1))
      (FP.float_of_int 0) (FP.float_of_int 0) (FP.float_of_int 0) /\
  get (d8_terrain_attribute elevations nodata_centre TATTRIB_SLOPE_RISERUN) 2 2
  = FP.float_of_int 0 /\
  get (d8_terrain_attribute elevations nodata_centre TATTRIB_ASPECT) 2 2
  = FP.float_of_int (-1) /\
  get (d8_terrain_attribute elevations nodata_centre TATTRIB_CURVATURE) 2 2
  = FP.float_of_int 0 /\
  get (d8_terrain_attribute elevations nodata_centre TATTRIB_PROFILE_CURVATURE) 2 2
  = FP.float_of_int 0 /\
  get (d8_terrain_attribute elevations nodata_centre TATTRIB_PLANFORM_CURVATURE) 2 2
  = FP.float_of_int 0.
Proof.
  intros L Sel elevations.
  split; [split; [reflexivity | lia]|].
  apply (flat_plane_attributes L Sel
           4503599627370496 (-52) (FP.float_of_int (-9999)) nodata_centre 2 2);
    [reflexivity | lia | lia].
Defined.

(** * SPI and CTI *)

Section IndexFacts.
Context {libm : Libm}.

Lemma index_cell_frame : forall value flow slope,
    own_cell_only (index_cell value flow slope).
Proof.
  intros value flow slope x y g. unfold index_cell.
  destruct (_ || _); repeat split; try reflexivity;
    intros x' y' Hne; apply get_set_other; exact Hne.
Qed.

(** The grid the two loops of [d8_SPI] and [d8_CTI] leave: the properties of
    the flow-accumulation grid, the sentinel [-1], and in every cell of the
    grid the sentinel or the index value. *)
Lemma index_scan : forall value (flow slope res : float_2d),
    let out :=
      for_loop 0 (width flow)
        (fun x acc => for_loop 0 (height flow) (index_cell value flow slope x) acc)
        (set_no_data (copyprops res flow) (FP.float_of_int (-1))) in
    width out = width flow /\ height out = height flow /\
    cellsize out = cellsize flow /\ no_data out = FP.float_of_int (-1) /\
    forall x y,
      in_grid flow x y = true ->
      get out x y =
      if FP.eqb (get flow x y) (no_data flow) || FP.eqb (get slope x y) (no_data slope)
      then FP.float_of_int (-1)
      else value flow slope x y.
Proof.
  intros value flow slope res out. unfold out.
  rewrite (nested_loops_cells (index_cell value flow slope)).
  destruct (scan_props (index_cell value flow slope)
              (index_cell_frame value flow slope)
              (grid_cells (width flow) (height flow))
              (set_no_data (copyprops res flow) (FP.float_of_int (-1))))
    as (W & Hh & C & D).
  cbv zeta in *. repeat (split; [assumption|]).
  intros x y Hin.
  apply (scan_visited (index_cell value flow slope)
           (index_cell_frame value flow slope)).
  - intros g' Hg'. unfold index_cell.
    destruct (_ || _); rewrite get_set_same; [exact Hg' | reflexivity].
  - apply in_grid_cells. apply in_grid_spec. exact Hin.
Qed.

Lemma dims_differ : forall (flow slope : float_2d),
    negb (width flow =? width slope) || negb (height flow =? height slope) = true
    <-> width flow <> width slope \/ height flow <> height slope.
Proof.
  intros flow slope. rewrite orb_true_iff, !negb_true_iff, !Z.eqb_neq. tauto.
Qed.

End IndexFacts.

(** C5: when the two input grids differ in width or in height, [d8_SPI] and
    [d8_CTI] report the mismatch and call [exit(-1)], leaving the result grid
    as it was; when the dimensions agree there is no exit and the mismatch is
    not reported. *)
Theorem index_dimension_guard :
  forall (L : Libm) (flow slope res : float_2d) (diag : list string),
    (width flow <> width slope \/ height flow <> height slope ->
     d8_SPI flow slope res diag
     = mk_outcome
         (diag ++ ["\n###d8_SPI\n"%string;
                   "Couldn't calculate SPI! The input matricies were of unequal dimensions!\n"%string])
         (Some (-1)) res /\
     d8_CTI flow slope res diag
     = mk_outcome
         (diag ++ ["\n###d8_CTI\n"%string;
                   "Couldn't calculate CTI! The input matricies were of unequal dimensions!\n"%string])
         (Some (-1)) res) /\
    (width flow = width slope /\ height flow = height slope ->
     exit_code (d8_SPI flow slope res diag) = None /\
     exit_code (d8_CTI flow slope res diag) = None /\
     diagnostics (d8_SPI flow slope res diag)
     = diag ++ ["\n###d8_SPI\n"%string; "Setting up the SPI matrix..."%string; "succeeded.\n"%string;
                "Calculating SPI...\n"%string; "succeeded in %lfs.\n"%string] /\
     diagnostics (d8_CTI flow slope res diag)
     = diag ++ ["\n###d8_CTI\n"%string; "Setting up the CTI matrix..."%string; "succeeded.\n"%string;
                "Calculating CTI..."%string; "succeeded in %lfs.\n"%string]).
Proof.
  intros L flow slope res diag. split.
  - intros Hd. apply dims_differ in Hd. unfold d8_SPI, d8_CTI. rewrite Hd.
    unfold diagnostic. rewrite <- !app_assoc. split; reflexivity.
  - intros [Hw Hh]. unfold d8_SPI, d8_CTI.
    rewrite Hw, Hh, !Z.eqb_refl. simpl negb. simpl orb. cbv iota zeta.
    unfold diagnostic. simpl. rewrite <- !app_assoc. repeat split; reflexivity.
Qed.

(** A 2 by 2 flow accumulation against a 2 by 1 slope grid: both functions
    exit with code -1 and the result grid untouched; against a 2 by 2 slope
    grid: no exit. *)
Lemma index_dimension_guard_witness :
  (height flow_example <> height single_row /\
   width flow_example = width slope_example /\
   height flow_example = height slope_example) /\
  exit_code (d8_SPI (libm := nan_libm) flow_example single_row pit_grid [])
  = Some (-1) /\
  result (d8_CTI (libm := nan_libm) flow_example single_row pit_grid [])
  = pit_grid /\
  exit_code (d8_SPI (libm := nan_libm) flow_example slope_example pit_grid [])
  = None.
Proof.
  split; [split; [discriminate | split; reflexivity]|].
  destruct (index_dimension_guard nan_libm flow_example single_row pit_grid [])
    as [Hdiff _].
  destruct (index_dimension_guard nan_libm flow_example slope_example pit_grid [])
    as [_ Hsame].
  destruct Hdiff as [Hs Hc]; [right; discriminate|].
  destruct Hsame as (He & _); [split; reflexivity|].
  rewrite Hs, Hc. simpl exit_code. simpl result.
  split; [reflexivity|]. split; [reflexivity | exact He].
Defined.

(** C8: for input grids of equal dimensions, every cell of the result grid of
    [d8_SPI] and of [d8_CTI] holds the output sentinel [-1] when the
    flow-accumulation cell or the percent-slope cell equals its grid's
    sentinel, and otherwise the logarithm of
    [cellsize * (flow + 0.001) * (slope / 100 + 0.001)] for SPI, of
    [cellsize * (flow + 0.001) / (slope / 100 + 0.001)] for CTI, with the
    cell size of the flow-accumulation grid. *)
Theorem index_values :
  forall (L : Libm) (flow slope res : float_2d) (diag : list string) (x y : Z),
    width flow = width slope -> height flow = height slope ->
    in_grid flow x y = true ->
    let scaled_flow :=
      FP.dmul (cellsize flow) (FP.dadd (FP.to_double (get flow x y)) FP.d_0_001) in
    let slope_term :=
      FP.dadd (FP.to_double (FP.fdiv (get slope x y) (FP.float_of_int 100)))
              FP.d_0_001 in
    let masked :=
      FP.eqb (get flow x y) (no_data flow) || FP.eqb (get slope x y) (no_data slope) in
    no_data (result (d8_SPI flow slope res diag)) = FP.float_of_int (-1) /\
    no_data (result (d8_CTI flow slope res diag)) = FP.float_of_int (-1) /\
    get (result (d8_SPI flow slope res diag)) x y
    = (if masked then FP.float_of_int (-1)
       else FP.to_float (log (FP.dmul scaled_flow slope_term))) /\
    get (result (d8_CTI flow slope res diag)) x y
    = (if masked then FP.float_of_int (-1)
       else FP.to_float (log (FP.ddiv scaled_flow slope_term))).
Proof.
  intros L flow slope res diag x y Hw Hh Hin scaled_flow slope_term masked.
  unfold d8_SPI, d8_CTI. rewrite Hw, Hh, !Z.eqb_refl. simpl negb. simpl orb.
  cbv iota zeta. simpl result. rewrite <- Hw, <- Hh.
  destruct (index_scan spi_value flow slope res) as (_ & _ & _ & Ns & Vs).
  destruct (index_scan cti_value flow slope res) as (_ & _ & _ & Nc & Vc).
  cbv zeta in *.
  split; [exact Ns|]. split; [exact Nc|].
  split; [apply Vs; exact Hin | apply Vc; exact Hin].
Qed.

(** The two example grids have equal dimensions; cell [(0, 0)] of the flow
    accumulation is no-data, so both indices are [-1] there. *)
Lemma index_values_witness :
  (width flow_example = width slope_example /\
   height flow_example = height slope_example /\
   in_grid flow_example 0 0 = true) /\
  get (result (d8_SPI (libm := nan_libm) flow_example slope_example
                      nodata_centre [])) 0 0
  = FP.float_of_int (-1) /\
  get (result (d8_CTI (libm := nan_libm) flow_example slope_example
                      nodata_centre [])) 0 0
  = FP.float_of_int (-1).
Proof.
  split; [repeat split; reflexivity|].
  pose proof (index_values nan_libm flow_example slope_example nodata_centre [] 0 0
                eq_refl eq_refl eq_refl) as (_ & _ & Hs & Hc).
  split; [exact Hs | exact Hc].
Defined.

(** * The area report of [watershed_area] *)

(** The keys of a map are strictly ascending. *)
Definition keys_ascending (m : int_map) : Prop := StronglySorted Z.lt (map fst m).

(** The sum of the values of a map. *)
Definition total_area (m : int_map) : Z := fold_right Z.add 0 (map snd m).

(** The cells of [l] that hold a label, and those that hold the label [k]. *)
Definition labelled_cells (labels : int_2d) (l : list (Z * Z)) : list (Z * Z) :=
  filter (fun p => negb (get labels (fst p) (snd p) =? no_data labels)) l.

Definition cells_of (labels : int_2d) (k : Z) (l : list (Z * Z)) : list (Z * Z) :=
  filter (fun p => get labels (fst p) (snd p) =? k) l.

(** Two nested counted loops over any state visit the cells of [grid_cells]
    in order. *)
Lemma nested_loops_fold : forall St (body : Z -> Z -> St -> St) w h s,
    for_loop 0 w (fun x acc => for_loop 0 h (body x) acc) s
    = fold_left (fun acc p => body (fst p) (snd p) acc) (grid_cells w h) s.
Proof.
  intros St body w h s. unfold for_loop, grid_cells.
  generalize (zrange 0 w) as xs. intros xs. revert s.
  induction xs as [|x xs IH]; intros s; simpl; [reflexivity|].
  rewrite fold_left_app. rewrite <- IH. f_equal.
  generalize (zrange 0 h) as ys. intros ys. revert s.
  induction ys as [|y ys IHy]; intros s; simpl; [reflexivity|].
  apply IHy.
Qed.

Lemma map_incr_keys : forall k m x,
    In x (map fst (map_incr k m)) <-> x = k \/ In x (map fst m).
Proof.
  intros k m x. induction m as [|[k0 v] m IH]; simpl.
  - intuition.
  - destruct (k <? k0); [simpl; intuition|].
    destruct (Z.eqb_spec k k0); simpl; [subst; intuition|].
    rewrite IH. intuition.
Qed.

Lemma map_incr_ascending : forall k m,
    keys_ascending m -> keys_ascending (map_incr k m).
Proof.
  unfold keys_ascending. intros k m. induction m as [|[k0 v] m IH]; intros Hs; simpl.
  - constructor; constructor.
  - apply StronglySorted_inv in Hs. destruct Hs as [Hs Hall]. simpl in Hall.
    destruct (Z.ltb_spec k k0).
    + simpl. constructor; [constructor; assumption|].
      constructor; [assumption|].
      eapply Forall_impl; [|exact Hall]. simpl. intros a Ha. lia.
    + destruct (Z.eqb_spec k k0); simpl.
      * constructor; assumption.
      * constructor; [apply IH; exact Hs|].
        apply Forall_forall. intros x Hx. apply map_incr_keys in Hx.
        destruct Hx as [->|Hx]; [lia|].
        rewrite Forall_forall in Hall. apply Hall. exact Hx.
Qed.

Lemma map_find_below : forall k k0 v m,
    keys_ascending ((k0, v) :: m) -> k < k0 -> map_find k ((k0, v) :: m) = None.
Proof.
  unfold keys_ascending, map_find. intros k k0 v m Hs Hk.
  apply StronglySorted_inv in Hs. destruct Hs as [_ Hall]. simpl in *.
  destruct (Z.eqb_spec k0 k); [lia|].
  destruct (find (fun kv => fst kv =? k) m) as [[k1 v1]|] eqn:Hf; [|reflexivity].
  apply find_some in Hf. destruct Hf as [Hin Heq]. simpl in Heq.
  apply Z.eqb_eq in Heq. subst k1.
  rewrite Forall_forall in Hall.
  assert (k0 < k) by (apply Hall; apply in_map_iff; exists (k, v1); auto). lia.
Qed.

(** Lookup after [m[k]++]. *)
Lemma map_find_incr : forall k m k',
    keys_ascending m ->
    map_find k' (map_incr k m)
    = if k' =? k
      then Some (match map_find k m with Some v => v + 1 | None => 1 end)
      else map_find k' m.
Proof.
  intros k m k'. induction m as [|[k0 v] m IH]; intros Hs.
  - unfold map_find. simpl. rewrite (Z.eqb_sym k k').
    destruct (k' =? k); reflexivity.
  - simpl map_incr. destruct (Z.ltb_spec k k0).
    + rewrite (map_find_below k k0 v m Hs) by assumption.
      unfold map_find at 1. simpl find. simpl fst. rewrite (Z.eqb_sym k k').
      destruct (k' =? k); reflexivity.
    + assert (Hs' : keys_ascending m).
      { unfold keys_ascending in *. simpl in Hs.
        apply StronglySorted_inv in Hs. tauto. }
      destruct (Z.eqb_spec k k0).
      * subst k0. unfold map_find. simpl. rewrite Z.eqb_refl. simpl.
        rewrite (Z.eqb_sym k k'). destruct (k' =? k); reflexivity.
      * specialize (IH Hs'). unfold map_find in *. simpl.
        destruct (Z.eqb_spec k0 k'); simpl.
        -- subst k'. destruct (Z.eqb_spec k0 k); [lia|].
           destruct (Z.eqb_spec k0 k); [lia | reflexivity].
        -- destruct (Z.eqb_spec k0 k); [lia|]. exact IH.
Qed.

Lemma total_area_incr : forall k m, total_area (map_incr k m) = total_area m + 1.
Proof.
  unfold total_area. intros k m. induction m as [|[k0 v] m IH];
    cbn [map_incr map snd fold_right]; [lia|].
  destruct (k <? k0); cbn [map snd fold_right]; [lia|].
  destruct (k =? k0); cbn [map snd fold_right]; [lia|].
  rewrite IH. lia.
Qed.

(** The map after the cells of [l] have been counted, starting from a map
    that holds the counts of the cells of [done]. *)
Lemma count_fold : forall labels l done m,
    keys_ascending m ->
    total_area m = Z.of_nat (length (labelled_cells labels done)) ->
    (forall k, map_find k m
               = if (k =? no_data labels) || (length (cells_of labels k done) =? 0)%nat
                 then None
                 else Some (Z.of_nat (length (cells_of labels k done)))) ->
    let m' := fold_left (fun acc p => count_label labels (fst p) (snd p) acc) l m in
    keys_ascending m' /\
    total_area m' = Z.of_nat (length (labelled_cells labels (done ++ l))) /\
    (forall k, map_find k m'
               = if (k =? no_data labels)
                    || (length (cells_of labels k (done ++ l)) =? 0)%nat
                 then None
                 else Some (Z.of_nat (length (cells_of labels k (done ++ l))))).
Proof.
  intros labels l. induction l as [|p l IH]; intros done m Hs Ht Hf; simpl.
  - rewrite app_nil_r. auto.
  - replace (done ++ p :: l) with ((done ++ [p]) ++ l)
      by (rewrite <- app_assoc; reflexivity).
    apply IH; unfold count_label.
    + destruct (negb _); [apply map_incr_ascending|]; assumption.
    + unfold labelled_cells in *. rewrite filter_app, length_app. simpl.
      destruct (negb (get labels (fst p) (snd p) =? no_data labels)); simpl.
      * rewrite total_area_incr. lia.
      * lia.
    + intros k. unfold cells_of in *. rewrite filter_app, length_app. simpl.
      destruct (Z.eqb_spec (get labels (fst p) (snd p)) (no_data labels)) as [End|End];
        simpl negb; cbv iota.
      * rewrite Hf. destruct (Z.eqb_spec k (no_data labels)); [reflexivity|].
        destruct (Z.eqb_spec (get labels (fst p) (snd p)) k); [congruence|].
        simpl length. rewrite Nat.add_0_r. reflexivity.
      * rewrite map_find_incr by exact Hs. rewrite !Hf.
        destruct (Z.eqb_spec k (get labels (fst p) (snd p))) as [->|Hk].
        -- rewrite Z.eqb_refl. simpl length.
           destruct (Z.eqb_spec (get labels (fst p) (snd p)) (no_data labels));
             [contradiction|]. simpl orb.
           destruct (Nat.eqb_spec (length (filter
              (fun p0 => get labels (fst p0) (snd p0) =? get labels (fst p) (snd p))
              done)) 0) as [E0|E0].
           ++ rewrite E0. reflexivity.
           ++ destruct (Nat.eqb_spec (length (filter
                (fun p0 => get labels (fst p0) (snd p0) =? get labels (fst p) (snd p))
                done) + 1) 0); [lia|]. f_equal. lia.
        -- destruct (Z.eqb_spec (get labels (fst p) (snd p)) k); [congruence|].
           simpl length. rewrite Nat.add_0_r. reflexivity.
Qed.

(** The map [wsheds] that [watershed_area] builds: its keys ascend strictly;
    the value under a key is the number of cells of the grid that hold that
    label, keys being exactly the labels other than the sentinel held by at
    least one cell; and the values add up to the number of labelled cells. *)
Lemma watershed_counts_spec : forall labels,
    let cells := grid_cells (width labels) (height labels) in
    keys_ascending (watershed_counts labels) /\
    total_area (watershed_counts labels)
    = Z.of_nat (length (labelled_cells labels cells)) /\
    (forall k, map_find k (watershed_counts labels)
               = if (k =? no_data labels)
                    || (length (cells_of labels k cells) =? 0)%nat
                 then None
                 else Some (Z.of_nat (length (cells_of labels k cells)))).
Proof.
  intros labels cells. unfold watershed_counts.
  rewrite (nested_loops_fold int_map (count_label labels)).
  apply (count_fold labels cells [] []).
  - constructor.
  - reflexivity.
  - intros k. unfold map_find. simpl. rewrite orb_true_r. reflexivity.
Qed.

Lemma map_find_In : forall m k v,
    keys_ascending m -> (In (k, v) m <-> map_find k m = Some v).
Proof.
  unfold keys_ascending, map_find. intros m k v.
  induction m as [|[k0 v0] m IH]; intros Hs; simpl.
  - split; [contradiction | discriminate].
  - apply StronglySorted_inv in Hs. destruct Hs as [Hs Hall]. simpl in Hall.
    rewrite Forall_forall in Hall.
    destruct (Z.eqb_spec k0 k) as [->|Hne]; simpl.
    + split.
      * intros [Heq|Hin]; [congruence|].
        assert (k < k) by (apply Hall; apply in_map_iff; exists (k, v); auto). lia.
      * intros Heq. left. congruence.
    + rewrite <- (IH Hs). split; [intros [Heq|Hin]; [congruence | exact Hin] | auto].
Qed.

(** The report adds up: the areas printed by [watershed_area] sum to the
    number of cells of the grid whose label is not the sentinel. *)
Theorem watershed_area_total :
  forall labels : int_2d,
    total_area (watershed_counts labels)
    = Z.of_nat (length (labelled_cells labels
                          (grid_cells (width labels) (height labels)))).
Proof.
  intros labels. destruct (watershed_counts_spec labels) as (_ & Ht & _). exact Ht.
Qed.

(** The report of [watershed_area] has one line per label that is not the
    sentinel and is held by at least one cell of the grid, in strictly
    ascending order of the labels, and the area on the line of a label is
    the number of cells that hold it (at least 1). *)
Theorem watershed_area_report :
  forall labels : int_2d,
    let cells := grid_cells (width labels) (height labels) in
    watershed_area labels = map area_line (watershed_counts labels) /\
    StronglySorted Z.lt (map fst (watershed_counts labels)) /\
    forall k v,
      In (k, v) (watershed_counts labels) <->
      k <> no_data labels /\ 1 <= v /\
      v = Z.of_nat (length (cells_of labels k cells)).
Proof.
  intros labels cells. destruct (watershed_counts_spec labels) as (Hs & _ & Hf).
  fold cells in Hf. split; [reflexivity|]. split; [exact Hs|].
  intros k v. rewrite (map_find_In _ k v Hs), Hf.
  destruct (Z.eqb_spec k (no_data labels)); simpl.
  - split; [discriminate | tauto].
  - destruct (Nat.eqb_spec (length (cells_of labels k cells)) 0).
    + split; [discriminate | lia].
    + split.
      * intros Heq. injection Heq as <-. repeat split; [assumption | lia].
      * intros (_ & _ & ->). reflexivity.
Qed.

(** * The flood: what the result looks like *)

(** A cell with an entry waiting in one of the two frontier structures. *)
Definition waiting (s : fw_state) (x y : Z) : Prop :=
  exists c, In c (entries s) /\ cell_xy c = (x, y).

(** What each iteration of a loop establishes for itself, and no iteration
    undoes, holds for every iteration after the loop. *)
Lemma for_loop_each : forall St (Q : Z -> St -> Prop) lo hi (body : Z -> St -> St),
    (forall k s, lo <= k < hi -> Q k (body k s)) ->
    (forall k j s, Q k s -> Q k (body j s)) ->
    forall s k, lo <= k < hi -> Q k (for_loop lo hi body s).
Proof.
  intros St Q lo hi body Hest Hkeep s k Hk. unfold for_loop.
  assert (Hin : In k (zrange lo hi)) by (apply in_zrange; exact Hk).
  assert (Hall : forall j, In j (zrange lo hi) -> lo <= j < hi)
    by (intros j Hj; apply in_zrange; exact Hj).
  assert (Hpersist : forall l t, Q k t -> Q k (fold_left (fun acc j => body j acc) l t)).
  { induction l as [|j l IH]; intros t Ht; simpl; [exact Ht|].
    apply IH. apply Hkeep. exact Ht. }
  revert s. induction (zrange lo hi) as [|j l IH]; intros s; [contradiction|].
  simpl. destruct Hin as [->|Hin].
  - apply Hpersist. apply Hest. apply Hall. left. reflexivity.
  - apply IH; [exact Hin|]. intros j' Hj'. apply Hall. right. exact Hj'.
Qed.

Section Progress.
Context `{PriorityQueue} `{Neighbourhood}.
Variable elev0 : float_2d.
Variable alter : bool.

(** The entries other than the popped one keep waiting. *)
Lemma fw_pop_rest : forall s c s1 b,
    fw_pop s = Some (c, s1) -> In b (entries s) -> b = c \/ In b (entries s1).
Proof.
  intros s c s1 b Hp Hb. unfold fw_pop in Hp. apply in_entries in Hb.
  destruct (meander s) as [|c' m] eqn:Hm.
  - destruct (pq_pop (open s)) as [[c'' q]|] eqn:Hq; [|discriminate].
    injection Hp as <- <-. destruct (pq_pop_In _ _ _ Hq) as (_ & _ & Hrest).
    destruct Hb as [Hb|[]]. destruct (Hrest b Hb) as [->|Hb']; [auto|].
    right. apply in_entries. simpl. auto.
  - injection Hp as <- <-. destruct Hb as [Hb|[->|Hb]]; [|auto|];
      right; apply in_entries; simpl; auto.
Qed.

(** What the neighbour loop does to the cells: entries keep waiting, a cell
    closed by the loop waits afterwards, a cell closed before keeps its
    elevation and label, and afterwards every neighbour of [c] inside the
    grid is closed. *)
Lemma fw_neighbours_progress : forall c s,
    get (closed s) (cell_x c) (cell_y c) = true ->
    let s' := fw_neighbours alter c s in
    (forall b, In b (entries s) -> In b (entries s')) /\
    (forall x y, get (closed s') x y = true ->
                 get (closed s) x y = true \/ waiting s' x y) /\
    (forall x y, get (closed s) x y = true ->
                 get (closed s') x y = true /\
                 get (elevations s') x y = get (elevations s) x y /\
                 get (labels s') x y = get (labels s) x y) /\
    (forall k, 1 <= k < 9 ->
               in_grid (elevations s) (cell_x c + dx k) (cell_y c + dy k) = true ->
               get (closed s') (cell_x c + dx k) (cell_y c + dy k) = true).
Proof.
  intros c s Hc s'. unfold s', fw_neighbours.
  assert (Hinv :
    (fun t =>
       (width (elevations t) = width (elevations s) /\
        height (elevations t) = height (elevations s)) /\
       (forall b, In b (entries s) -> In b (entries t)) /\
       (forall x y, get (closed t) x y = true ->
                    get (closed s) x y = true \/ waiting t x y) /\
       (forall x y, get (closed s) x y = true ->
                    get (closed t) x y = true /\
                    get (elevations t) x y = get (elevations s) x y /\
                    get (labels t) x y = get (labels s) x y))
      (for_loop 1 9 (fw_visit alter c) s)).
  { apply for_loop_ind.
    2:{ repeat split; auto. }
    intros k t _ ((Tw & Th) & Te & Tc & Tk).
    destruct (fw_visit_cases alter c k t) as [[-> _]|(Hin & Hcl & _)];
      [repeat split; auto; apply Tk; assumption|].
    destruct (fw_visit_discovers alter c k t Hin Hcl)
      as (Dw & Dh & _ & _ & _ & Dl & Dc & De & _ & z & Dz & _).
    set (nx := cell_x c + dx k) in *. set (ny := cell_y c + dy k) in *.
    assert (Hsub : forall b, In b (entries t) -> In b (entries (fw_visit alter c k t))).
    { intros b Hb. apply in_entries in Hb. apply in_entries.
      destruct Dz as [(_ & _ & -> & ->)|(_ & _ & -> & ->)]; simpl; tauto. }
    assert (Hnew : waiting (fw_visit alter c k t) nx ny).
    { exists (mk_grid_cellz nx ny z). split; [|reflexivity]. apply in_entries.
      destruct Dz as [(_ & _ & -> & ->)|(_ & _ & -> & ->)]; simpl; auto. }
    split; [split; congruence|]. split; [auto|]. split.
    - intros x y Hxy. rewrite Dc, get_set in Hxy.
      destruct ((x =? nx) && (y =? ny)) eqn:E.
      + apply andb_true_iff in E. destruct E as [Ex Ey].
        apply Z.eqb_eq in Ex. apply Z.eqb_eq in Ey. subst x y. right. exact Hnew.
      + destruct (Tc x y Hxy) as [Hs|[b [Hb Hxyb]]]; [auto|].
        right. exists b. auto.
    - intros x y Hxy. destruct (Tk x y Hxy) as (K1 & K2 & K3).
      assert (Hne : (x, y) <> (nx, ny)).
      { intros Heq. injection Heq as -> ->. congruence. }
      rewrite Dc, Dl, !get_set_other, De by exact Hne. auto. }
  destruct Hinv as ((Tw & Th) & Te & Tc & Tk).
  split; [exact Te|]. split; [exact Tc|]. split; [exact Tk|].
  intros k Hk Hin.
  assert (Hdims : forall j t x y,
             in_grid (elevations (fw_visit alter c j t)) x y
             = in_grid (elevations t) x y).
  { intros j t x y. destruct (fw_visit_dims alter c j t) as (W & Hh & _).
    apply in_grid_dims; assumption. }
  assert (Hmono : forall j t x y,
             get (closed t) x y = true ->
             get (closed (fw_visit alter c j t)) x y = true).
  { intros j t x y Hxy.
    destruct (fw_visit_cases alter c j t) as [[-> _]|(Hin' & Hcl' & _)]; [exact Hxy|].
    destruct (fw_visit_discovers alter c j t Hin' Hcl')
      as (_ & _ & _ & _ & _ & _ & Dc & _).
    rewrite Dc, get_set. destruct (_ && _); [reflexivity | exact Hxy]. }
  assert (Hend :
    in_grid (elevations (for_loop 1 9 (fw_visit alter c) s))
            (cell_x c + dx k) (cell_y c + dy k) = true ->
    get (closed (for_loop 1 9 (fw_visit alter c) s))
        (cell_x c + dx k) (cell_y c + dy k) = true).
  { apply (for_loop_each fw_state
             (fun k t =>
                in_grid (elevations t) (cell_x c + dx k) (cell_y c + dy k) = true ->
                get (closed t) (cell_x c + dx k) (cell_y c + dy k) = true)
             1 9 (fw_visit alter c)); [| |exact Hk].
    - intros j t Hj Hg. rewrite Hdims in Hg.
      destruct (fw_visit_cases alter c j t) as [[-> [Hf|Hf]]|(Hin' & Hcl' & _)];
        [congruence | exact Hf |].
      destruct (fw_visit_discovers alter c j t Hin' Hcl')
        as (_ & _ & _ & _ & _ & _ & Dc & _).
      rewrite Dc, get_set_same. reflexivity.
    - intros j j' t Hq Hg. rewrite Hdims in Hg. apply Hmono. apply Hq. exact Hg. }
  apply Hend. rewrite <- Hin. apply in_grid_dims; assumption.
Qed.

(** A closed cell the flood is done with: it is labelled unless its
    elevation is no-data, and its neighbours inside the grid are closed. *)
Definition done_with (s : fw_state) (x y : Z) : Prop :=
  (get (labels s) x y <> -1 \/
   FP.eqb (get (elevations s) x y) (no_data elev0) = true) /\
  forall k, 1 <= k < 9 ->
            in_grid elev0 (x + dx k) (y + dy k) = true ->
            get (closed s) (x + dx k) (y + dy k) = true.

(** Every closed cell still waits or is done with. *)
Definition fw_progress (s : fw_state) : Prop :=
  forall x y, get (closed s) x y = true -> waiting s x y \/ done_with s x y.

Lemma fw_progress_seed : forall lab, fw_progress (fw_seed (fw_setup elev0 lab)).
Proof.
  intros lab x y Hxy. left.
  destruct (fw_seed_spec elev0 lab) as (_ & _ & _ & M & _ & _ & O & C).
  apply C in Hxy. destruct Hxy as [c [Hc Hxy]]. exists c. split; [|exact Hxy].
  apply in_entries. left. rewrite O. apply in_rev in Hc. exact Hc.
Qed.

Lemma fw_progress_body : forall s s',
    fw_inv elev0 alter s -> fw_progress s -> fw_body alter s = Some s' ->
    fw_progress s'.
Proof.
  intros s s' Hi Hpr Hb. pose proof Hb as Hb'. unfold fw_body in Hb.
  destruct (fw_pop s) as [[c s1]|] eqn:Hp; [|discriminate].
  injection Hb as Hs'.
  destruct (fw_inv_pop elev0 alter s c s1 Hi Hp) as [Hi1 Hc1].
  destruct (fw_inv_label elev0 alter c s1 Hi1 Hc1) as (Hi2 & Hc2 & Hl2).
  destruct (fw_pop_spec _ _ _ Hp) as (E1 & L1 & C1 & _).
  destruct (fw_label_frame c s1) as (E2 & C2 & O2 & M2 & _).
  destruct (fw_neighbours_progress c (fw_label c s1) (pop_closed _ _ _ _ Hc2))
    as (Pa & Pb & Pc & Pd).
  rewrite Hs' in Pa, Pb, Pc, Pd.
  intros x y Hxy.
  destruct (Pb x y Hxy) as [Hcl|Hw]; [|left; exact Hw].
  assert (Hcls : get (closed s) x y = true) by (rewrite <- C1, <- C2; exact Hcl).
  destruct (Pc x y Hcl) as (_ & Ke & Kl).
  assert (Hdone_c : (x, y) = cell_xy c -> done_with s' x y).
  { intros Heq. unfold cell_xy in Heq. injection Heq as -> ->. split.
    - destruct Hl2 as [Hl|Hl]; [left; rewrite Kl; exact Hl | right; rewrite Ke; exact Hl].
    - intros k Hk Hg. apply Pd; [exact Hk|]. rewrite <- Hg.
      apply in_grid_dims; [apply (inv_width _ _ _ Hi2) | apply (inv_height _ _ _ Hi2)]. }
  destruct (Hpr x y Hcls) as [[b [Hb Hxyb]]|[Hlab Hnb]].
  - destruct (fw_pop_rest s c s1 b Hp Hb) as [->|Hb1].
    + right. apply Hdone_c. symmetry. exact Hxyb.
    + left. exists b. split; [|exact Hxyb]. apply Pa.
      apply in_entries. rewrite O2, M2. apply in_entries. exact Hb1.
  - right. split.
    + destruct Hlab as [Hl|Hl].
      * left. rewrite (fw_body_label_stable elev0 alter s s' x y Hi Hb' Hl). exact Hl.
      * right. rewrite Ke, E2, E1. exact Hl.
    + intros k Hk Hg. specialize (Hnb k Hk Hg).
      apply Pc. rewrite C2, C1. exact Hnb.
Qed.

Lemma fw_progress_iter : forall lab n,
    fw_progress (fw_iter alter n (fw_seed (fw_setup elev0 lab))).
Proof.
  intros lab n.
  apply (proj2 (A := fw_inv elev0 alter (fw_iter alter n (fw_seed (fw_setup elev0 lab))))).
  apply (fw_iter_inv alter (fun t => fw_inv elev0 alter t /\ fw_progress t)).
  - intros s s' [Hi Hpr] Hb.
    split; [apply (fw_inv_body elev0 alter s) | apply (fw_progress_body s)]; assumption.
  - split; [apply fw_inv_seed | apply fw_progress_seed].
Qed.

(** When nothing waits any more and the offset table holds the step to the
    right, every cell of the grid is closed. *)
Lemma fw_all_closed : forall s,
    (exists k, 1 <= k < 9 /\ dx k = 1 /\ dy k = 0) ->
    fw_inv elev0 alter s -> fw_progress s ->
    open s = [] -> meander s = [] ->
    forall x y, in_grid elev0 x y = true -> get (closed s) x y = true.
Proof.
  intros s (k & Hk & Hdx & Hdy) Hi Hpr Ho Hm.
  assert (Hnat : forall n x y, x = Z.of_nat n -> in_grid elev0 x y = true ->
                               get (closed s) x y = true).
  { induction n as [|n IH]; intros x y Hx Hg.
    - apply (inv_boundary _ _ _ Hi). apply in_grid_spec in Hg.
      unfold on_boundary. lia.
    - assert (Hg' : in_grid elev0 (x - 1) y = true)
        by (apply in_grid_spec in Hg; apply in_grid_spec; lia).
      specialize (IH (x - 1) y ltac:(lia) Hg').
      destruct (Hpr _ _ IH) as [[b [Hb _]]|[_ Hnb]].
      + apply in_entries in Hb. rewrite Ho, Hm in Hb. destruct Hb as [[]|[]].
      + specialize (Hnb k Hk). rewrite Hdx, Hdy in Hnb.
        replace (x - 1 + 1) with x in Hnb by lia.
        replace (y + 0) with y in Hnb by lia. apply Hnb. exact Hg. }
  intros x y Hg. apply (Hnat (Z.to_nat x) x y); [|exact Hg].
  apply in_grid_spec in Hg. lia.
Qed.

End Progress.

Section Postconditions.
Context `{PriorityQueue} `{Neighbourhood}.

Lemma fw_seed_labels : forall elev lab,
    labels (fw_seed (fw_setup elev lab)) = labels (fw_setup elev lab).
Proof.
  intros elev lab. unfold fw_seed, for_loop.
  set (s0 := fw_setup elev lab).
  destruct (seed_loop_spec seed_column column_seeds seed_column_spec
              (zrange 0 (width (elevations s0))) s0) as (_ & C2 & _).
  set (s1 := fold_left (fun acc k => seed_column k acc)
                       (zrange 0 (width (elevations s0))) s0) in *.
  destruct (seed_loop_spec seed_row row_seeds seed_row_spec
              (zrange 1 (height (elevations s1) - 1)) s1) as (_ & R2 & _).
  cbv zeta in *. rewrite R2, C2. reflexivity.
Qed.

(** The grid properties an iteration keeps, and what it does to the two
    counters. *)
Definition same_props {T} (g g' : array2d T) : Prop :=
  width g' = width g /\ height g' = height g /\
  cellsize g' = cellsize g /\ no_data g' = no_data g.

Lemma fw_visit_props : forall a c k s,
    same_props (labels s) (labels (fw_visit a c k s)) /\
    same_props (elevations s) (elevations (fw_visit a c k s)) /\
    clabel (fw_visit a c k s) = clabel s /\
    processed_cells (fw_visit a c k s) = processed_cells s /\
    pitc (fw_visit a c k s) = pitc s /\ openc (fw_visit a c k s) = openc s.
Proof.
  intros a c k s. unfold same_props.
  destruct (fw_visit_cases a c k s) as [[-> _]|(_ & _ & z & e & -> & _ & ->)];
    [repeat split; reflexivity|].
  simpl. destruct (FP.leb _ _ && a); repeat split; reflexivity.
Qed.

Lemma fw_body_props : forall a s s',
    fw_body a s = Some s' ->
    same_props (labels s) (labels s') /\
    same_props (elevations s) (elevations s') /\
    clabel s <= clabel s' <= clabel s + 1 /\
    processed_cells s' = processed_cells s + 1 /\
    pitc s' + openc s' = pitc s + openc s + 1.
Proof.
  intros a s s' Hb. unfold fw_body in Hb.
  destruct (fw_pop s) as [[c s1]|] eqn:Hp; [|discriminate].
  injection Hb as <-.
  assert (Hpop : labels s1 = labels s /\ elevations s1 = elevations s /\
                 clabel s1 = clabel s /\
                 processed_cells s1 = processed_cells s + 1 /\
                 pitc s1 + openc s1 = pitc s + openc s + 1).
  { unfold fw_pop in Hp. destruct (meander s) as [|c' m].
    - destruct (pq_pop (open s)) as [[c'' q]|]; [|discriminate].
      injection Hp as <- <-. simpl. repeat split; lia.
    - injection Hp as <- <-. simpl. repeat split; lia. }
  destruct Hpop as (L1 & E1 & K1 & P1 & Q1).
  assert (Hlab : same_props (labels s1) (labels (fw_label c s1)) /\
                 elevations (fw_label c s1) = elevations s1 /\
                 clabel s1 <= clabel (fw_label c s1) <= clabel s1 + 1 /\
                 processed_cells (fw_label c s1) = processed_cells s1 /\
                 pitc (fw_label c s1) = pitc s1 /\ openc (fw_label c s1) = openc s1).
  { unfold fw_label, same_props.
    destruct (_ && _); simpl; repeat split; try reflexivity; lia. }
  destruct Hlab as (L2 & E2 & K2 & P2 & Q2 & Q2').
  assert (Hloop :
    (fun t => same_props (labels (fw_label c s1)) (labels t) /\
              same_props (elevations (fw_label c s1)) (elevations t) /\
              clabel t = clabel (fw_label c s1) /\
              processed_cells t = processed_cells (fw_label c s1) /\
              pitc t = pitc (fw_label c s1) /\ openc t = openc (fw_label c s1))
      (fw_neighbours a c (fw_label c s1))).
  { unfold fw_neighbours. apply for_loop_ind.
    - intros k t _ (TL & TE & TK & TP & TQ & TQ').
      destruct (fw_visit_props a c k t) as (VL & VE & VK & VP & VQ & VQ').
      unfold same_props in *. repeat split; try congruence; try lia;
        intuition congruence.
    - unfold same_props. repeat split; reflexivity. }
  destruct Hloop as (L3 & E3 & K3 & P3 & Q3 & Q3').
  unfold same_props in *. rewrite L1, E1 in *. rewrite E2 in E3.
  repeat split; try lia; intuition congruence.
Qed.

(** The state [find_watersheds] returns, with what holds of it. *)
Lemma find_watersheds_final : forall elev lab a,
    exists s n,
      find_watersheds_state elev lab a = Some s /\
      find_watersheds elev lab a = Some (elevations s, labels s) /\
      s = fw_iter a n (fw_seed (fw_setup elev lab)) /\
      open s = [] /\ meander s = [] /\
      fw_inv elev a s /\ fw_progress elev s /\
      same_props (copyprops lab elev) (set_no_data (labels s) (no_data lab)) /\
      same_props elev (elevations s) /\
      clabel s <= processed_cells s + 1 /\
      pitc s + openc s = processed_cells s.
Proof.
  intros elev lab a.
  destruct (find_watersheds_state_total elev lab a) as (s & n & Hs & Hn & Ho & Hm).
  exists s, n. unfold find_watersheds. rewrite Hs.
  repeat (split; [assumption || reflexivity|]).
  split; [rewrite Hn; apply fw_inv_iter|].
  split; [rewrite Hn; apply fw_progress_iter|].
  rewrite Hn.
  apply (fw_iter_inv a
           (fun t => same_props (copyprops lab elev)
                                (set_no_data (labels t) (no_data lab)) /\
                     same_props elev (elevations t) /\
                     clabel t <= processed_cells t + 1 /\
                     pitc t + openc t = processed_cells t)).
  - intros t t' (TL & TE & TK & TQ) Hb.
    destruct (fw_body_props a t t' Hb) as (BL & BE & BK & BP & BQ).
    unfold same_props in *. simpl in *.
    repeat split; try lia; intuition congruence.
  - destruct (fw_seed_spec elev lab) as (E & _ & _ & _ & K & P & _).
    rewrite fw_seed_labels, E, K.
    assert (Hq : pitc (fw_seed (fw_setup elev lab))
                 + openc (fw_seed (fw_setup elev lab)) = 0).
    { unfold fw_seed.
      apply (for_loop_ind fw_state (fun t => pitc t + openc t = 0)).
      - intros k t _ Ht. exact Ht.
      - apply (for_loop_ind fw_state (fun t => pitc t + openc t = 0)).
        + intros k t _ Ht. exact Ht.
        + reflexivity. }
    rewrite Hq, P. unfold same_props. simpl. repeat split; lia.
Qed.

End Postconditions.

(** * The flood: watersheds *)

(** The cell [(x, y)] is linked to the cell [(rx, ry)] within the watershed
    [L]: a chain of cells that all hold the label [L] leads from [(rx, ry)]
    to [(x, y)], each cell of the chain a neighbour of the one before by an
    offset of the tables [dx], [dy]. *)
Inductive linked `{Neighbourhood} (lab : int_2d) (L : Z) (rx ry : Z)
  : Z -> Z -> Prop :=
| linked_root :
    get lab rx ry = L -> linked lab L rx ry rx ry
| linked_step : forall x y k,
    linked lab L rx ry x y -> 1 <= k <= 8 ->
    get lab (x + dx k) (y + dy k) = L ->
    linked lab L rx ry (x + dx k) (y + dy k).

Section Watersheds.
Context `{PriorityQueue} `{Neighbourhood}.
Variable elev0 : float_2d.
Variable alter : bool.

Lemma linked_mono : forall lab lab' L rx ry x y,
    (forall x' y', get lab x' y' = L -> get lab' x' y' = L) ->
    linked lab L rx ry x y -> linked lab' L rx ry x y.
Proof.
  intros lab lab' L rx ry x y Hsub Hl. induction Hl as [Hr|x y k Hl IH Hk Hxy].
  - apply linked_root. apply Hsub. exact Hr.
  - apply linked_step; [exact IH | exact Hk | apply Hsub; exact Hxy].
Qed.

(** A closed cell that holds no label because its elevation is no-data. *)
Definition void_cell (s : fw_state) (x y : Z) : Prop :=
  get (closed s) x y = true /\ get (labels s) x y = -1 /\
  FP.eqb (get (elevations s) x y) (no_data elev0) = true /\
  (1 <= width elev0 -> 1 <= height elev0 -> in_grid elev0 x y = true).

(** Where a watershed may start: at a seed of the boundary, or at a
    neighbour of a cell that holds no label. *)
Definition starts_at (s : fw_state) (x y : Z) : Prop :=
  (exists c, In c (seeds elev0) /\ cell_xy c = (x, y)) \/
  exists cx cy k, 1 <= k <= 8 /\ x = cx + dx k /\ y = cy + dy k /\
                  void_cell s cx cy.

(** A closed cell without a label is a place where a watershed may start. *)
Definition fw_sources (s : fw_state) : Prop :=
  forall x y, get (closed s) x y = true -> get (labels s) x y = -1 ->
              starts_at s x y.

(** Every label drawn so far names a watershed with a first cell, which is
    a place where a watershed may start and to which every cell of the
    watershed is linked; and on a grid with cells, no more labels were drawn
    than there are labelled cells. *)
Definition fw_watersheds (s : fw_state) : Prop :=
  (forall L, 1 <= L < clabel s ->
             exists rx ry,
               get (labels s) rx ry = L /\
               (1 <= width elev0 -> 1 <= height elev0 ->
                in_grid elev0 rx ry = true) /\
               starts_at s rx ry /\
               forall x y, get (labels s) x y = L ->
                           linked (labels s) L rx ry x y) /\
  (1 <= width elev0 -> 1 <= height elev0 ->
   clabel s - 1
   <= Z.of_nat (length (labelled_cells (labels s)
                          (grid_cells (width elev0) (height elev0))))).

(** The labelling step either leaves the state alone or gives the unlabelled
    cell [c], whose elevation is not no-data, the counter's value. *)
Lemma fw_label_cases : forall c s,
    fw_inv elev0 alter s ->
    fw_label c s = s \/
    (get (labels s) (cell_x c) (cell_y c) = -1 /\
     FP.eqb (get (elevations s) (cell_x c) (cell_y c)) (no_data elev0) = false /\
     labels (fw_label c s) = set (labels s) (cell_x c) (cell_y c) (clabel s) /\
     clabel (fw_label c s) = clabel s + 1).
Proof.
  intros c s Hi. unfold fw_label.
  rewrite (inv_label_no_data _ _ _ Hi), (inv_no_data _ _ _ Hi).
  destruct (Z.eqb_spec (get (labels s) (cell_x c) (cell_y c)) (-1)); simpl; [|auto].
  destruct (FP.neqb _ _) eqn:Hne; [|auto]. right.
  unfold FP.neqb in Hne. apply negb_true_iff in Hne. auto.
Qed.

Lemma void_cell_label : forall c s x y,
    fw_inv elev0 alter s -> void_cell s x y -> void_cell (fw_label c s) x y.
Proof.
  intros c s x y Hi Hv.
  destruct (fw_label_cases c s Hi) as [->|(_ & Hne & Hlab & _)]; [exact Hv|].
  destruct (fw_label_frame c s) as (E & C & _).
  destruct Hv as (Vc & Vl & Ve & Vg). unfold void_cell. rewrite E, C, Hlab.
  repeat split; try assumption.
  rewrite get_set_other; [exact Vl|].
  intros Heq. injection Heq as -> ->. congruence.
Qed.

Lemma void_cell_neighbours : forall c s x y,
    get (closed s) (cell_x c) (cell_y c) = true ->
    void_cell s x y -> void_cell (fw_neighbours alter c s) x y.
Proof.
  intros c s x y Hcc (Vc & Vl & Ve & Vg).
  destruct (fw_neighbours_progress alter c s Hcc) as (_ & _ & Pc & _).
  destruct (Pc x y Vc) as (Kc & Ke & Kl).
  unfold void_cell. rewrite Ke, Kl. repeat split; assumption.
Qed.

Lemma starts_at_mono : forall s s' x y,
    (forall x' y', void_cell s x' y' -> void_cell s' x' y') ->
    starts_at s x y -> starts_at s' x y.
Proof.
  intros s s' x y Hsub [Hseed|(cx & cy & k & Hk & Hx & Hy & Hv)]; [left; exact Hseed|].
  right. exists cx, cy, k.
  split; [exact Hk|]. split; [exact Hx|]. split; [exact Hy|]. apply Hsub. exact Hv.
Qed.

Lemma fw_sources_body : forall s s',
    fw_inv elev0 alter s -> fw_sources s -> fw_body alter s = Some s' ->
    fw_sources s'.
Proof.
  intros s s' Hi Hsrc Hb. unfold fw_body in Hb.
  destruct (fw_pop s) as [[c s1]|] eqn:Hp; [|discriminate].
  injection Hb as Hs'.
  destruct (fw_inv_pop elev0 alter s c s1 Hi Hp) as [Hi1 Hc1].
  destruct (fw_inv_label elev0 alter c s1 Hi1 Hc1) as (Hi2 & Hc2 & Hl2).
  destruct (fw_pop_spec _ _ _ Hp) as (E1 & L1 & C1 & _).
  destruct (fw_label_frame c s1) as (E2 & C2 & _).
  pose proof (pop_closed _ _ _ _ Hc2) as Hcc.
  assert (Hsrc1 : fw_sources s1).
  { unfold fw_sources, starts_at, void_cell in *. rewrite E1, L1, C1. exact Hsrc. }
  assert (Hsrc2 : fw_sources (fw_label c s1)).
  { intros x y Hx Hl. rewrite C2 in Hx.
    apply (starts_at_mono s1); [intros x' y'; apply void_cell_label; exact Hi1|].
    apply Hsrc1; [exact Hx|].
    destruct (fw_label_cases c s1 Hi1) as [Heq|(_ & _ & Hlab & _)];
      [rewrite Heq in Hl; exact Hl|].
    rewrite Hlab in Hl.
    destruct (cell_eq_dec (x, y) (cell_x c, cell_y c)) as [Heq|Hne].
    - injection Heq as -> ->. rewrite get_set_same in Hl.
      pose proof (inv_clabel _ _ _ Hi1). lia.
    - rewrite get_set_other in Hl by exact Hne. exact Hl. }
  rewrite <- Hs'. intros x y Hx Hl.
  destruct (fw_neighbours_labels alter c (fw_label c s1) Hcc x y)
    as [[Kc Kl]|(_ & _ & Kl & _ & k & Hk & -> & ->)].
  - apply (starts_at_mono (fw_label c s1));
      [intros x' y'; apply void_cell_neighbours; exact Hcc|].
    apply Hsrc2; congruence.
  - right. exists (cell_x c), (cell_y c), k.
    split; [lia|]. split; [reflexivity|]. split; [reflexivity|].
    apply void_cell_neighbours; [exact Hcc|].
    split; [exact Hcc|]. split; [congruence|].
    split; [|intros Hwd Hht; apply (pop_in_grid _ _ _ _ Hc2 Hwd Hht)].
    destruct Hl2 as [Hl2|Hl2]; [|exact Hl2]. exfalso. apply Hl2. congruence.
Qed.

Lemma fw_sources_iter : forall lab n,
    fw_sources (fw_iter alter n (fw_seed (fw_setup elev0 lab))).
Proof.
  intros lab n.
  apply (proj2 (A := fw_inv elev0 alter (fw_iter alter n (fw_seed (fw_setup elev0 lab))))).
  apply (fw_iter_inv alter (fun t => fw_inv elev0 alter t /\ fw_sources t)).
  - intros s s' [Hi Hsrc] Hb.
    split; [apply (fw_inv_body elev0 alter s) | apply (fw_sources_body s)]; assumption.
  - split; [apply fw_inv_seed|].
    destruct (fw_seed_spec elev0 lab) as (_ & _ & _ & _ & _ & _ & _ & C).
    intros x y Hx _. left. apply C. exact Hx.
Qed.

Lemma labelled_cells_grow : forall (lab lab' : int_2d) l,
    no_data lab = -1 -> no_data lab' = -1 ->
    (forall x y, get lab x y <> -1 -> get lab' x y <> -1) ->
    (length (labelled_cells lab l) <= length (labelled_cells lab' l))%nat.
Proof.
  intros lab lab' l Hn Hn' Hsub. unfold labelled_cells. rewrite Hn, Hn'.
  apply filter_length_le. intros [x y] _. simpl.
  rewrite !negb_true_iff, !Z.eqb_neq. apply Hsub.
Qed.

Lemma fw_watersheds_label : forall c s,
    fw_inv elev0 alter s -> popped_ok elev0 alter c s -> fw_sources s ->
    fw_watersheds s -> fw_watersheds (fw_label c s).
Proof.
  intros c s Hi Hc Hsrc [Hw Hn].
  destruct (fw_label_cases c s Hi) as [->|(Hl & _ & Hlab & Hk)]; [split; assumption|].
  pose proof (inv_clabel _ _ _ Hi) as Hcl.
  assert (Hvoid : forall x y, starts_at s x y -> starts_at (fw_label c s) x y).
  { intros x y. apply starts_at_mono. intros x' y'. apply void_cell_label. exact Hi. }
  split.
  - intros L HL. rewrite Hk in HL. rewrite Hlab.
    destruct (Z.eq_dec L (clabel s)) as [->|Hne].
    + exists (cell_x c), (cell_y c). rewrite get_set_same.
      split; [reflexivity|]. split; [apply (pop_in_grid _ _ _ _ Hc)|].
      split; [apply Hvoid; apply Hsrc; [apply (pop_closed _ _ _ _ Hc) | exact Hl]|].
      intros x y Hxy. destruct (cell_eq_dec (x, y) (cell_x c, cell_y c)) as [Heq|Hneq].
      * injection Heq as -> ->. apply linked_root. apply get_set_same.
      * rewrite get_set_other in Hxy by exact Hneq.
        destruct (inv_labels _ _ _ Hi x y); lia.
    + destruct (Hw L ltac:(lia)) as (rx & ry & Hr & Hg & Hst & Hlink).
      assert (Hkeep : forall x' y', get (labels s) x' y' = L ->
                get (set (labels s) (cell_x c) (cell_y c) (clabel s)) x' y' = L).
      { intros x' y' Hxy. rewrite get_set_other; [exact Hxy|].
        intros Heq. injection Heq as -> ->. lia. }
      exists rx, ry. split; [apply Hkeep; exact Hr|]. split; [exact Hg|].
      split; [apply Hvoid; exact Hst|].
      intros x y Hxy. apply (linked_mono (labels s)); [exact Hkeep|]. apply Hlink.
      destruct (cell_eq_dec (x, y) (cell_x c, cell_y c)) as [Heq|Hneq].
      * injection Heq as -> ->. rewrite get_set_same in Hxy. lia.
      * rewrite get_set_other in Hxy by exact Hneq. exact Hxy.
  - intros Hwd Hht. specialize (Hn Hwd Hht). rewrite Hk, Hlab.
    destruct (pop_in_grid _ _ _ _ Hc Hwd Hht) as [Hg _].
    assert (Hlt : (length (labelled_cells (labels s)
                             (grid_cells (width elev0) (height elev0)))
                   < length (labelled_cells
                               (set (labels s) (cell_x c) (cell_y c) (clabel s))
                               (grid_cells (width elev0) (height elev0))))%nat).
    { unfold labelled_cells. simpl no_data. rewrite (inv_label_no_data _ _ _ Hi).
      apply filter_length_lt with (a := (cell_x c, cell_y c)).
      - intros [x y] _. simpl. rewrite !negb_true_iff, !Z.eqb_neq. intros Hxy.
        rewrite get_set. destruct (_ && _); [lia | exact Hxy].
      - apply in_grid_cells. apply in_grid_spec in Hg. exact Hg.
      - simpl. rewrite get_set_same. apply negb_true_iff. apply Z.eqb_neq. lia.
      - simpl. rewrite Hl. reflexivity. }
    lia.
Qed.

Lemma fw_watersheds_neighbours : forall c s,
    fw_inv elev0 alter s -> popped_ok elev0 alter c s ->
    fw_inv elev0 alter (fw_neighbours alter c s) ->
    fw_watersheds s -> fw_watersheds (fw_neighbours alter c s).
Proof.
  intros c s Hi Hc Hi' [Hw Hn].
  pose proof (fw_neighbours_labels alter c s (pop_closed _ _ _ _ Hc)) as Hlab.
  destruct (fw_neighbours_dims alter c s) as (_ & _ & _ & _ & _ & Hk).
  assert (Hkeep : forall L, L <> -1 -> forall x y,
             get (labels s) x y = L ->
             get (labels (fw_neighbours alter c s)) x y = L).
  { intros L HL x y Hxy. destruct (Hlab x y) as [[_ E]|(Cl & _)]; [congruence|].
    destruct (inv_unclosed _ _ _ Hi x y Cl) as [E _]. congruence. }
  split.
  - intros L HL. rewrite Hk in HL.
    destruct (Hw L HL) as (rx & ry & Hr & Hg & Hst & Hlink).
    exists rx, ry. split; [apply Hkeep; [lia | exact Hr]|]. split; [exact Hg|].
    split.
    { apply (starts_at_mono s); [|exact Hst].
      intros x' y'. apply void_cell_neighbours. apply (pop_closed _ _ _ _ Hc). }
    intros x y Hxy. destruct (Hlab x y) as [[_ E]|(_ & _ & E & _ & k & Hkr & -> & ->)].
    + apply (linked_mono (labels s)); [apply Hkeep; lia|].
      apply Hlink. congruence.
    + apply linked_step; [|lia|exact Hxy].
      apply (linked_mono (labels s)); [apply Hkeep; lia|].
      apply Hlink. congruence.
  - intros Hwd Hht. specialize (Hn Hwd Hht). rewrite Hk.
    pose proof (labelled_cells_grow (labels s) (labels (fw_neighbours alter c s))
                  (grid_cells (width elev0) (height elev0))
                  (inv_label_no_data _ _ _ Hi) (inv_label_no_data _ _ _ Hi')) as Hg.
    assert (Hsub : forall x y, get (labels s) x y <> -1 ->
                               get (labels (fw_neighbours alter c s)) x y <> -1).
    { intros x y Hxy. rewrite (Hkeep _ Hxy x y eq_refl). exact Hxy. }
    specialize (Hg Hsub). lia.
Qed.

Lemma fw_watersheds_body : forall s s',
    fw_inv elev0 alter s -> fw_sources s -> fw_watersheds s ->
    fw_body alter s = Some s' -> fw_watersheds s'.
Proof.
  intros s s' Hi Hsrc Hw Hb. pose proof (fw_inv_body elev0 alter s s' Hi Hb) as Hi'.
  unfold fw_body in Hb.
  destruct (fw_pop s) as [[c s1]|] eqn:Hp; [|discriminate].
  injection Hb as Hs'.
  destruct (fw_inv_pop elev0 alter s c s1 Hi Hp) as [Hi1 Hc1].
  destruct (fw_inv_label elev0 alter c s1 Hi1 Hc1) as (Hi2 & Hc2 & _).
  destruct (fw_pop_spec _ _ _ Hp) as (E1 & L1 & C1 & K1 & _).
  assert (Hw1 : fw_watersheds s1).
  { unfold fw_watersheds, starts_at, void_cell in *. rewrite E1, L1, C1, K1. exact Hw. }
  assert (Hsrc1 : fw_sources s1).
  { unfold fw_sources, starts_at, void_cell in *. rewrite E1, L1, C1. exact Hsrc. }
  rewrite <- Hs'. apply fw_watersheds_neighbours; [assumption..| |].
  - rewrite Hs'. exact Hi'.
  - apply fw_watersheds_label; assumption.
Qed.

Lemma fw_watersheds_iter : forall lab n,
    fw_watersheds (fw_iter alter n (fw_seed (fw_setup elev0 lab))).
Proof.
  intros lab n.
  apply (proj2 (A := fw_inv elev0 alter (fw_iter alter n (fw_seed (fw_setup elev0 lab)))
                     /\ fw_sources (fw_iter alter n (fw_seed (fw_setup elev0 lab))))).
  apply (fw_iter_inv alter
           (fun t => (fw_inv elev0 alter t /\ fw_sources t) /\ fw_watersheds t)).
  - intros s s' [[Hi Hsrc] Hw] Hb.
    split; [split|];
      [apply (fw_inv_body elev0 alter s) | apply (fw_sources_body s)
       | apply (fw_watersheds_body s)]; assumption.
  - split; [split; [apply fw_inv_seed | apply (fw_sources_iter lab 0)]|].
    destruct (fw_seed_spec elev0 lab) as (_ & _ & _ & _ & K & _).
    split; [intros L HL; rewrite K in HL; lia | intros _ _; rewrite K; lia].
Qed.

End Watersheds.

(** * The flood: drainage *)

(** The cell [(x, y)] drains to the edge of the grid [e] through cells that
    satisfy [P]: it is a cell of the boundary, or it is the neighbour, by an
    offset of the tables [dx], [dy], of a cell that drains and is not
    higher. *)
Inductive drains `{Neighbourhood} (e : float_2d) (P : Z -> Z -> Prop)
  : Z -> Z -> Prop :=
| drains_edge : forall x y,
    on_boundary e x y -> P x y -> drains e P x y
| drains_step : forall x y k,
    drains e P x y -> 1 <= k <= 8 ->
    P (x + dx k) (y + dy k) ->
    FP.leb (get e x y) (get e (x + dx k) (y + dy k)) = true ->
    drains e P (x + dx k) (y + dy k).

Section Drainage.
Context `{PriorityQueue} `{Neighbourhood}.
Variable elev0 : float_2d.
Hypothesis Hreal : real_valued elev0.

Lemma drains_within : forall e P x y, drains e P x y -> P x y.
Proof. intros e P x y Hd. destruct Hd; assumption. Qed.

Lemma drains_mono : forall (e e' : float_2d) (P P' : Z -> Z -> Prop) x y,
    width e' = width e -> height e' = height e ->
    (forall x' y', P x' y' -> P' x' y' /\ get e' x' y' = get e x' y') ->
    drains e P x y -> drains e' P' x y.
Proof.
  intros e e' P P' x y Hw Hh Hsub Hd.
  induction Hd as [x y Hb Hp|x y k Hd IH Hk Hp Hle].
  - apply drains_edge; [|apply Hsub; exact Hp].
    unfold on_boundary in *. rewrite Hw, Hh. exact Hb.
  - apply drains_step; [exact IH | exact Hk | apply Hsub; exact Hp|].
    destruct (Hsub _ _ Hp) as [_ ->].
    destruct (Hsub _ _ (drains_within _ _ _ _ Hd)) as [_ ->]. exact Hle.
Qed.

(** A cell of the grid that the flood has closed. *)
Definition closed_cell (s : fw_state) (x y : Z) : Prop :=
  in_grid elev0 x y = true /\ get (closed s) x y = true.

(** With [alter_elevations] set and elevations that are numbers, the grid
    keeps holding numbers, and every closed cell drains to the edge through
    closed cells. *)
Record fw_drain (s : fw_state) : Prop := {
  dr_real :
    forall x y, in_grid elev0 x y = true ->
                FP.is_nan (get (elevations s) x y) = false;
  dr_drains :
    forall x y, closed_cell s x y -> drains (elevations s) (closed_cell s) x y
}.

Lemma fw_drain_ext : forall s s',
    elevations s' = elevations s -> closed s' = closed s ->
    fw_drain s -> fw_drain s'.
Proof.
  intros s s' He Hc [Hr Hd]. split.
  - rewrite He. exact Hr.
  - unfold closed_cell in *. rewrite He, Hc. exact Hd.
Qed.

Lemma fw_drain_visit : forall c n s,
    1 <= n <= 8 ->
    fw_inv elev0 true s -> popped_ok elev0 true c s -> fw_drain s ->
    fw_drain (fw_visit true c n s).
Proof.
  intros c n s Hn Hi Hc Hd.
  destruct (fw_visit_cases true c n s) as [[-> _]|(Hg & Hcl & _)]; [exact Hd|].
  destruct (fw_visit_discovers true c n s Hg Hcl)
    as (W & Ht & _ & _ & _ & _ & Cl & Eo & En & _).
  assert (Hg0 : in_grid elev0 (cell_x c + dx n) (cell_y c + dy n) = true).
  { rewrite <- Hg. symmetry. apply in_grid_dims.
    - apply (inv_width _ _ _ Hi).
    - apply (inv_height _ _ _ Hi). }
  assert (Hdim : 1 <= width elev0 /\ 1 <= height elev0).
  { apply in_grid_spec in Hg0. lia. }
  destruct (pop_in_grid _ _ _ _ Hc (proj1 Hdim) (proj2 Hdim))
    as [Hcg (x0 & y0 & Hg00 & Hz)].
  assert (Hzn : FP.is_nan (cell_z c) = false).
  { rewrite Hz. apply Hreal. exact Hg00. }
  pose proof (pop_z _ _ _ _ Hc eq_refl) as Hcz.
  pose proof (pop_closed _ _ _ _ Hc) as Hcc.
  assert (Hne : (cell_x c, cell_y c) <> (cell_x c + dx n, cell_y c + dy n)).
  { intros Heq. injection Heq as Hx Hy. rewrite <- Hx, <- Hy in Hcl. congruence. }
  assert (Htr : forall x y,
             closed_cell s x y ->
             closed_cell (fw_visit true c n s) x y /\
             get (elevations (fw_visit true c n s)) x y = get (elevations s) x y).
  { intros x y [Gx Cx].
    assert (Hxy : (x, y) <> (cell_x c + dx n, cell_y c + dy n)).
    { intros Heq. injection Heq as -> ->. congruence. }
    split; [split; [exact Gx|] | apply Eo; exact Hxy].
    rewrite Cl. rewrite get_set_other by exact Hxy. exact Cx. }
  split.
  - intros x y Gxy.
    destruct (cell_eq_dec (x, y) (cell_x c + dx n, cell_y c + dy n)) as [Heq|Hxy].
    + injection Heq as -> ->.
      destruct En as [(E & _)|(E & _)]; rewrite E;
        [exact Hzn | apply (dr_real _ Hd); exact Gxy].
    + rewrite (Eo x y Hxy). apply (dr_real _ Hd). exact Gxy.
  - intros x y [Gxy Cxy].
    destruct (cell_eq_dec (x, y) (cell_x c + dx n, cell_y c + dy n)) as [Heq|Hxy].
    + injection Heq as -> ->. apply drains_step.
      * apply (drains_mono (elevations s) _ (closed_cell s)); [exact W | exact Ht | exact Htr|].
        apply (dr_drains _ Hd). split; assumption.
      * exact Hn.
      * split; assumption.
      * rewrite (Eo _ _ Hne), <- Hcz.
        destruct En as [(E & _)|(E & [Hf|Hl])]; rewrite E.
        -- apply float_leb_refl. exact Hzn.
        -- discriminate Hf.
        -- apply float_ltb_leb. apply float_leb_false_ltb; [|exact Hzn|exact Hl].
           apply (dr_real _ Hd). exact Hg0.
    + apply (drains_mono (elevations s) _ (closed_cell s)); [exact W | exact Ht | exact Htr|].
      apply (dr_drains _ Hd). split; [exact Gxy|].
      rewrite Cl in Cxy. rewrite get_set_other in Cxy by exact Hxy. exact Cxy.
Qed.

Lemma fw_drain_body : forall s s',
    fw_inv elev0 true s -> fw_drain s -> fw_body true s = Some s' -> fw_drain s'.
Proof.
  intros s s' Hi Hd Hb. unfold fw_body in Hb.
  destruct (fw_pop s) as [[c s1]|] eqn:Hp; [|discriminate].
  injection Hb as Hs'.
  destruct (fw_inv_pop elev0 true s c s1 Hi Hp) as [Hi1 Hc1].
  destruct (fw_inv_label elev0 true c s1 Hi1 Hc1) as (Hi2 & Hc2 & Hl2).
  destruct (fw_pop_spec _ _ _ Hp) as (E1 & _ & C1 & _).
  destruct (fw_label_frame c s1) as (E2 & C2 & _).
  assert (Hd2 : fw_drain (fw_label c s1)).
  { apply (fw_drain_ext s); [congruence | congruence | exact Hd]. }
  rewrite <- Hs'. unfold fw_neighbours.
  apply (proj2 (A := fw_inv elev0 true (for_loop 1 9 (fw_visit true c) (fw_label c s1))
                     /\ popped_ok elev0 true c (for_loop 1 9 (fw_visit true c) (fw_label c s1))
                     /\ labelled elev0 c (for_loop 1 9 (fw_visit true c) (fw_label c s1)))).
  apply (for_loop_ind _ (fun t => (fw_inv elev0 true t /\ popped_ok elev0 true c t
                                   /\ labelled elev0 c t) /\ fw_drain t)).
  - intros k t Hk [(Ti & Tc & Tl) Td]. split.
    + apply fw_inv_visit; assumption.
    + apply fw_drain_visit; [lia | assumption..].
  - split; [split; [|split]|]; assumption.
Qed.

Lemma fw_drain_iter : forall lab n,
    fw_drain (fw_iter true n (fw_seed (fw_setup elev0 lab))).
Proof.
  intros lab n.
  apply (proj2 (A := fw_inv elev0 true (fw_iter true n (fw_seed (fw_setup elev0 lab))))).
  apply (fw_iter_inv true (fun t => fw_inv elev0 true t /\ fw_drain t)).
  - intros s s' [Hi Hd] Hb.
    split; [apply (fw_inv_body elev0 true s) | apply (fw_drain_body s)]; assumption.
  - split; [apply fw_inv_seed|].
    destruct (fw_seed_spec elev0 lab) as (E & _ & _ & _ & _ & _ & _ & C).
    split.
    + rewrite E. exact Hreal.
    + intros x y [Gxy Cxy]. apply drains_edge; [|split; assumption].
      rewrite E. apply C in Cxy. apply in_grid_spec in Gxy.
      apply seeds_boundary; [lia | lia | exact Cxy].
Qed.

End Drainage.

(** * The flood: how many cells are processed *)

Lemma filter_length_remove : forall A (f g : A -> bool) l a,
    NoDup l -> In a l -> f a = true -> g a = false ->
    (forall b, In b l -> b <> a -> g b = f b) ->
    length (filter f l) = S (length (filter g l)).
Proof.
  intros A f g l a Hnd. induction Hnd as [|b l Hb Hnd IH]; intros Hin Hf Hg Hsame.
  - destruct Hin.
  - simpl. destruct Hin as [->|Hin].
    + rewrite Hf, Hg. simpl. f_equal. f_equal. apply filter_ext_in.
      intros b Hbl. symmetry. apply Hsame; [right; exact Hbl|].
      intros ->. contradiction.
    + rewrite (Hsame b (or_introl eq_refl)) by (intros ->; contradiction).
      assert (Hrec : length (filter f l) = S (length (filter g l))).
      { apply IH; try assumption. intros b' Hb'. apply Hsame. right. exact Hb'. }
      destruct (f b); simpl; rewrite Hrec; reflexivity.
Qed.

Lemma filter_none : forall A (f : A -> bool) l,
    (forall a, In a l -> f a = false) -> filter f l = [].
Proof.
  intros A f l Hall. induction l as [|a l IH]; [reflexivity|]. simpl.
  rewrite (Hall a (or_introl eq_refl)). apply IH.
  intros b Hb. apply Hall. right. exact Hb.
Qed.

Lemma NoDup_grid_cells : forall w h, NoDup (grid_cells w h).
Proof.
  intros w h. unfold grid_cells. apply NoDup_flat_map.
  - apply NoDup_zrange.
  - intros x _. apply Injective_map_NoDup; [|apply NoDup_zrange].
    intros y y' Heq. injection Heq as ->. reflexivity.
  - intros x x' [a b] _ _ Hin Hin'.
    apply in_map_iff in Hin. destruct Hin as (y & Hy & _).
    apply in_map_iff in Hin'. destruct Hin' as (y' & Hy' & _).
    congruence.
Qed.

Section Processed.
Context `{PriorityQueue} `{Neighbourhood}.

(** Closing a cell of the grid that was not closed takes exactly one cell
    from the cells still to close. *)
Lemma unclosed_close_exact : forall (e : float_2d) (cl : bool_2d) x y,
    in_grid e x y = true -> get cl x y = false ->
    length (filter (fun p => negb (get cl (fst p) (snd p)))
              (grid_cells (width e) (height e)))
    = S (length (filter (fun p => negb (get (set cl x y true) (fst p) (snd p)))
                   (grid_cells (width e) (height e)))).
Proof.
  intros e cl x y Hg Hcl.
  apply filter_length_remove with (a := (x, y)).
  - apply NoDup_grid_cells.
  - apply in_grid_cells. apply in_grid_spec in Hg. exact Hg.
  - simpl. rewrite Hcl. reflexivity.
  - simpl. rewrite get_set_same. reflexivity.
  - intros [x' y'] _ Hne. simpl. rewrite get_set_other by exact Hne. reflexivity.
Qed.

Lemma fw_visit_budget_exact : forall a c n s,
    fw_budget (fw_visit a c n s) = fw_budget s.
Proof.
  intros a c n s.
  destruct (fw_visit_cases a c n s) as [[-> _]|(Hg & Hcl & z & e & -> & _ & He)];
    [reflexivity|].
  unfold fw_budget, unclosed. simpl.
  assert (Hw : width e = width (elevations s) /\ height e = height (elevations s)).
  { rewrite He. destruct (_ && _); split; reflexivity. }
  destruct Hw as [-> ->].
  rewrite (unclosed_close_exact (elevations s) (closed s) _ _ Hg Hcl).
  destruct (FP.leb _ _); simpl; lia.
Qed.

Lemma fw_body_budget_exact : forall a s s',
    fw_body a s = Some s' ->
    fw_budget s' = fw_budget s /\ processed_cells s' = processed_cells s + 1.
Proof.
  intros a s s' Hb. unfold fw_body in Hb.
  destruct (fw_pop s) as [[c s1]|] eqn:Hp; [|discriminate].
  injection Hb as Hs'.
  destruct (fw_pop_spec _ _ _ Hp) as (E1 & _ & C1 & _ & P1 & _ & _ & Len).
  destruct (fw_label_frame c s1) as (E2 & C2 & O2 & M2 & P2 & _).
  destruct (fw_neighbours_dims a c (fw_label c s1)) as (_ & _ & _ & _ & P3 & _).
  assert (Hn : fw_budget (fw_neighbours a c (fw_label c s1))
               = fw_budget (fw_label c s1)).
  { unfold fw_neighbours.
    apply (for_loop_ind _ (fun t => fw_budget t = fw_budget (fw_label c s1))).
    - intros k t _ Ht. rewrite fw_visit_budget_exact. exact Ht.
    - reflexivity. }
  rewrite <- Hs'. split; [|rewrite P3, P2, P1; reflexivity].
  rewrite Hn. unfold fw_budget, unclosed.
  rewrite E2, C2, O2, M2, P2, E1, C1, P1. lia.
Qed.

Lemma fw_iter_budget_exact : forall a n s,
    fw_budget (fw_iter a n s) = fw_budget s.
Proof.
  intros a n s.
  apply (fw_iter_inv a (fun t => fw_budget t = fw_budget s)); [|reflexivity].
  intros t t' Ht Hb. destruct (fw_body_budget_exact a t t' Hb) as [-> _]. exact Ht.
Qed.

(** On a grid of at least two rows and two columns the cells seeded and the
    cells still to close are the cells of the grid. *)
Lemma fw_seed_budget_exact : forall elev lab,
    2 <= width elev -> 2 <= height elev ->
    fw_budget (fw_seed (fw_setup elev lab)) = width elev * height elev.
Proof.
  intros elev lab Hw Hh.
  destruct (fw_seed_spec elev lab) as (E & _ & _ & M & _ & P & O & C).
  unfold fw_budget, unclosed. rewrite E, M, P, O, length_rev. simpl length.
  pose proof (filter_length (fun p => get (closed (fw_seed (fw_setup elev lab)))
                                        (fst p) (snd p))
                (grid_cells (width elev) (height elev))) as Hsplit.
  pose proof (length_grid_cells (width elev) (height elev)) as Hlen.
  assert (Hperm : length (filter (fun p => get (closed (fw_seed (fw_setup elev lab)))
                                             (fst p) (snd p))
                            (grid_cells (width elev) (height elev)))
                  = length (map cell_xy (seeds elev))).
  { apply Permutation.Permutation_length. apply Permutation.NoDup_Permutation.
    - apply NoDup_filter. apply NoDup_grid_cells.
    - apply seeds_NoDup; assumption.
    - intros [x y]. rewrite filter_In, in_grid_cells, in_map_iff. simpl. split.
      + intros [_ Hc]. apply C in Hc. destruct Hc as (c & Hc & Hxy).
        exists c. split; [exact Hxy | exact Hc].
      + intros (c & Hxy & Hc).
        assert (Hb : on_boundary elev x y).
        { apply seeds_boundary; [lia | lia |]. exists c. split; assumption. }
        split; [unfold on_boundary in Hb; lia|].
        apply C. exists c. split; assumption. }
  rewrite length_map in Hperm. lia.
Qed.

End Processed.

(** * The flood: properties of the result *)

Lemma fw_iter_keeps_elevations : forall `{PriorityQueue} `{Neighbourhood} n s,
    elevations (fw_iter false n s) = elevations s.
Proof.
  intros pq nb n s.
  apply (fw_iter_inv false (fun t => elevations t = elevations s)); [|reflexivity].
  intros t t' Ht Hb. rewrite (fw_body_keeps_elevations t t' Hb). exact Ht.
Qed.

Lemma sorted_same_elements : forall l l' : list Z,
    StronglySorted Z.lt l -> StronglySorted Z.lt l' ->
    (forall k, In k l <-> In k l') -> l = l'.
Proof.
  induction l as [|a l IH]; intros [|b l'] Hs Hs' Hiff.
  - reflexivity.
  - exfalso. apply (proj2 (Hiff b)). left. reflexivity.
  - exfalso. apply (proj1 (Hiff a)). left. reflexivity.
  - apply StronglySorted_inv in Hs. destruct Hs as [Hs Ha].
    apply StronglySorted_inv in Hs'. destruct Hs' as [Hs' Hb].
    rewrite Forall_forall in Ha, Hb.
    assert (Hab : a = b).
    { destruct (proj1 (Hiff a) (or_introl eq_refl)) as [Heq|Hin]; [congruence|].
      destruct (proj2 (Hiff b) (or_introl eq_refl)) as [Heq|Hin']; [congruence|].
      specialize (Ha _ Hin'). specialize (Hb _ Hin). lia. }
    subst b. f_equal. apply IH; [assumption..|].
    intros k. split; intros Hin.
    + destruct (proj1 (Hiff k) (or_intror Hin)) as [Heq|Hin']; [|exact Hin'].
      specialize (Ha _ Hin). lia.
    + destruct (proj2 (Hiff k) (or_intror Hin)) as [Heq|Hin']; [|exact Hin'].
      specialize (Hb _ Hin). lia.
Qed.

Lemma zrange_sorted : forall lo hi, StronglySorted Z.lt (zrange lo hi).
Proof.
  intros lo hi. unfold zrange. generalize (Z.to_nat (hi - lo)) as n.
  generalize 0%nat as start. intros start n. revert start.
  induction n as [|n IH]; intros start; simpl; constructor.
  - apply IH.
  - apply Forall_forall. intros k Hk. apply in_map_iff in Hk.
    destruct Hk as (i & <- & Hi). apply in_seq in Hi. lia.
Qed.

(** The postcondition of [find_watersheds]: the call returns; the label grid
    takes the width, the height and the cell size of the elevation grid, and
    the sentinel -1; the elevation grid keeps its own properties. *)
Theorem find_watersheds_postcondition :
  forall (pq : PriorityQueue) (nb : Neighbourhood) elev lab alter,
  exists elev' lab',
    find_watersheds elev lab alter = Some (elev', lab') /\
    width lab' = width elev /\ height lab' = height elev /\
    cellsize lab' = cellsize elev /\ no_data lab' = -1 /\
    width elev' = width elev /\ height elev' = height elev /\
    cellsize elev' = cellsize elev /\ no_data elev' = no_data elev.
Proof.
  intros pq nb elev lab alter.
  destruct (find_watersheds_final elev lab alter)
    as (s & n & _ & Hr & _ & _ & _ & Hi & _ & (Lw & Lh & Lc & _) & (Ew & Eh & Ec & En) & _).
  exists (elevations s), (labels s). split; [exact Hr|].
  simpl in Lw, Lh, Lc.
  pose proof (inv_label_no_data _ _ _ Hi) as Hn.
  repeat split; congruence.
Qed.

(** Every cell of the grid is reached: once [find_watersheds] returns, a cell
    of the grid holds a watershed label, or it holds the sentinel -1 and its
    elevation in the returned grid compares equal to the no-data value.  So
    when elevations are not altered, every cell whose input elevation is not
    the no-data value is labelled.  The neighbour offsets must include the
    step (1, 0), as the D8 offsets do. *)
Theorem find_watersheds_labels_every_cell :
  forall (pq : PriorityQueue) (nb : Neighbourhood) elev lab alter,
    (exists k, 1 <= k < 9 /\ dx k = 1 /\ dy k = 0) ->
    exists elev' lab',
      find_watersheds elev lab alter = Some (elev', lab') /\
      (forall x y, in_grid elev x y = true ->
                   1 <= get lab' x y \/
                   (get lab' x y = -1 /\
                    FP.eqb (get elev' x y) (no_data elev) = true)) /\
      (alter = false ->
       forall x y, in_grid elev x y = true ->
                   FP.eqb (get elev x y) (no_data elev) = false ->
                   1 <= get lab' x y).
Proof.
  intros pq nb elev lab alter Heast.
  destruct (find_watersheds_final elev lab alter)
    as (s & n & _ & Hr & Hs & Ho & Hm & Hi & Hp & _).
  exists (elevations s), (labels s). split; [exact Hr|].
  assert (Hcover : forall x y, in_grid elev x y = true ->
                     1 <= get (labels s) x y \/
                     (get (labels s) x y = -1 /\
                      FP.eqb (get (elevations s) x y) (no_data elev) = true)).
  { intros x y Hg.
    pose proof (fw_all_closed elev alter s Heast Hi Hp Ho Hm x y Hg) as Hc.
    destruct (Hp x y Hc) as [(c & Hc' & _)|[Hd _]].
    - apply in_entries in Hc'. rewrite Ho, Hm in Hc'. destruct Hc' as [[]|[]].
    - destruct (inv_labels _ _ _ Hi x y) as [Hl|Hl]; [|left; lia].
      right. split; [exact Hl|]. destruct Hd as [Hd|Hd]; [contradiction | exact Hd]. }
  split; [exact Hcover|].
  intros -> x y Hg Hdata. destruct (Hcover x y Hg) as [Hl|[_ Hnd]]; [exact Hl|].
  rewrite Hs, fw_iter_keeps_elevations in Hnd.
  destruct (fw_seed_spec elev lab) as (E & _). rewrite E in Hnd. congruence.
Qed.

(** The theorem applies to the pit grid with the D8 offsets, whose offset 5
    is the step (1, 0). *)
Lemma find_watersheds_labels_every_cell_witness :
  exists elev' lab',
    @find_watersheds lowest_first d8_neighbourhood pit_grid empty_labels false
    = Some (elev', lab') /\
    (forall x y, in_grid pit_grid x y = true ->
                 1 <= get lab' x y \/
                 (get lab' x y = -1 /\
                  FP.eqb (get elev' x y) (no_data pit_grid) = true)) /\
    (false = false ->
     forall x y, in_grid pit_grid x y = true ->
                 FP.eqb (get pit_grid x y) (no_data pit_grid) = false ->
                 1 <= get lab' x y).
Proof.
  apply (find_watersheds_labels_every_cell lowest_first d8_neighbourhood
           pit_grid empty_labels false).
  exists 5. split; [lia|]. split; reflexivity.
Defined.

(** Watersheds are numbered 1 to [n] without a gap and each is connected: a
    label of the result is the sentinel -1 or one of 1..[n]; each of 1..[n]
    has a first cell that holds it, and every cell that holds the label is
    linked to that cell by a chain of neighbouring cells that all hold the
    label.  On a grid with cells the first cell of a watershed is a cell of
    the boundary or a neighbour of a cell of the grid that holds no label
    and whose returned elevation is no-data (the comment of line 385), and
    [n] is at most the number of labelled cells, hence at most the number of
    cells. *)
Theorem find_watersheds_connected :
  forall (pq : PriorityQueue) (nb : Neighbourhood) elev lab alter,
  exists elev' lab' n,
    find_watersheds elev lab alter = Some (elev', lab') /\
    0 <= n /\
    (forall x y, get lab' x y = -1 \/ 1 <= get lab' x y <= n) /\
    (forall L, 1 <= L <= n ->
               exists rx ry,
                 get lab' rx ry = L /\
                 (forall x y, get lab' x y = L -> linked lab' L rx ry x y) /\
                 (1 <= width elev -> 1 <= height elev ->
                  on_boundary elev rx ry \/
                  exists cx cy k,
                    1 <= k <= 8 /\ rx = cx + dx k /\ ry = cy + dy k /\
                    in_grid elev cx cy = true /\ get lab' cx cy = -1 /\
                    FP.eqb (get elev' cx cy) (no_data elev) = true)) /\
    (1 <= width elev -> 1 <= height elev ->
     n <= Z.of_nat (length (labelled_cells lab'
                              (grid_cells (width elev) (height elev))))
     /\ n <= width elev * height elev).
Proof.
  intros pq nb elev lab alter.
  destruct (find_watersheds_final elev lab alter)
    as (s & n & _ & Hr & Hs & _ & _ & Hi & _).
  pose proof (fw_watersheds_iter elev alter lab n) as [Hw Hn]. rewrite <- Hs in Hw, Hn.
  exists (elevations s), (labels s), (clabel s - 1). split; [exact Hr|].
  pose proof (inv_clabel _ _ _ Hi) as Hc.
  split; [lia|]. split; [|split].
  - intros x y. destruct (inv_labels _ _ _ Hi x y); [left; assumption | right; lia].
  - intros L HL. destruct (Hw L ltac:(lia)) as (rx & ry & Hroot & _ & Hst & Hl).
    exists rx, ry. split; [exact Hroot|]. split; [exact Hl|].
    intros Hwd Hht.
    destruct Hst as [Hseed|(cx & cy & k & Hk & Hx & Hy & _ & Vl & Ve & Vg)].
    + left. apply seeds_boundary; assumption.
    + right. exists cx, cy, k. repeat split; try assumption; try lia.
      apply Vg; assumption.
  - intros Hwd Hht. specialize (Hn Hwd Hht). split; [exact Hn|].
    pose proof (filter_length_le_all _
                  (fun p => negb (get (labels s) (fst p) (snd p) =? no_data (labels s)))
                  (grid_cells (width elev) (height elev))) as Hle.
    fold (labelled_cells (labels s) (grid_cells (width elev) (height elev))) in Hle.
    pose proof (length_grid_cells (width elev) (height elev)) as Hlen. lia.
Qed.

(** With [alter_elevations] set and elevations that are numbers, every cell
    of the returned elevation grid drains to the edge: it is a boundary cell,
    or a chain of neighbouring cells of the grid leads from a boundary cell
    to it along which the returned elevation never decreases.  Boundary
    cells keep their elevation, and the returned grid holds numbers.  The
    neighbour offsets must include the step (1, 0), as the D8 offsets do. *)
Theorem find_watersheds_drains :
  forall (pq : PriorityQueue) (nb : Neighbourhood) elev lab,
    (exists k, 1 <= k < 9 /\ dx k = 1 /\ dy k = 0) ->
    real_valued elev ->
    exists elev' lab',
      find_watersheds elev lab true = Some (elev', lab') /\
      forall x y,
        in_grid elev x y = true ->
        drains elev' (fun x' y' => in_grid elev x' y' = true) x y /\
        (on_boundary elev x y -> get elev' x y = get elev x y) /\
        FP.is_nan (get elev' x y) = false.
Proof.
  intros pq nb elev lab Heast Hreal.
  destruct (find_watersheds_final elev lab true)
    as (s & n & _ & Hr & Hs & Ho & Hm & Hi & Hp & _).
  pose proof (fw_drain_iter elev Hreal lab n) as Hd. rewrite <- Hs in Hd.
  exists (elevations s), (labels s). split; [exact Hr|].
  intros x y Hg. split; [|split].
  - apply (drains_mono (elevations s) (elevations s) (closed_cell elev s));
      [reflexivity | reflexivity | |].
    + intros x' y' [Hg' _]. split; [exact Hg' | reflexivity].
    + apply (dr_drains _ _ Hd). split; [exact Hg|].
      apply (fw_all_closed elev true s Heast Hi Hp Ho Hm x y Hg).
  - intros Hb. apply (inv_boundary _ _ _ Hi x y Hb).
  - apply (dr_real _ _ Hd). exact Hg.
Qed.

(** The theorem applies to the pit grid with the D8 offsets. *)
Lemma find_watersheds_drains_witness :
  real_valued pit_grid /\
  exists elev' lab',
    @find_watersheds lowest_first d8_neighbourhood pit_grid empty_labels true
    = Some (elev', lab') /\
    forall x y,
      in_grid pit_grid x y = true ->
      @drains d8_neighbourhood elev' (fun x' y' => in_grid pit_grid x' y' = true) x y /\
      (on_boundary pit_grid x y -> get elev' x y = get pit_grid x y) /\
      FP.is_nan (get elev' x y) = false.
Proof.
  assert (Hreal : real_valued pit_grid).
  { intros x y _. unfold get, pit_grid. simpl.
    destruct ((x =? 1) && (y =? 1)); reflexivity. }
  split; [exact Hreal|].
  apply (find_watersheds_drains lowest_first d8_neighbourhood pit_grid empty_labels).
  - exists 5. split; [lia|]. split; reflexivity.
  - exact Hreal.
Defined.

(** On a grid of at least two rows and two columns every cell is processed
    exactly once: when the loop ends, [processed_cells] is width times
    height, the total given to the progress bar, and the two counters of the
    closing diagnostic add up to it.  The neighbour offsets must include the
    step (1, 0), as the D8 offsets do. *)
Theorem find_watersheds_processes_each_cell_once :
  forall (pq : PriorityQueue) (nb : Neighbourhood) elev lab alter,
    2 <= width elev -> 2 <= height elev ->
    (exists k, 1 <= k < 9 /\ dx k = 1 /\ dy k = 0) ->
    exists s,
      find_watersheds_state elev lab alter = Some s /\
      processed_cells s = width elev * height elev /\
      pitc s + openc s = width elev * height elev.
Proof.
  intros pq nb elev lab alter Hw Hh Heast.
  destruct (find_watersheds_final elev lab alter)
    as (s & n & Hst & _ & Hs & Ho & Hm & Hi & Hp & _ & _ & _ & Hcount).
  exists s. split; [exact Hst|].
  assert (Hproc : processed_cells s = width elev * height elev).
  { pose proof (fw_iter_budget_exact alter n (fw_seed (fw_setup elev lab))) as Hb.
    rewrite <- Hs, (fw_seed_budget_exact elev lab Hw Hh) in Hb.
    unfold fw_budget, unclosed in Hb. rewrite Ho, Hm in Hb.
    rewrite (inv_width _ _ _ Hi), (inv_height _ _ _ Hi) in Hb.
    rewrite filter_none in Hb; [simpl in Hb; lia|].
    intros [x y] Hin. simpl. apply in_grid_cells in Hin.
    rewrite (fw_all_closed elev alter s Heast Hi Hp Ho Hm x y); [reflexivity|].
    apply in_grid_spec. exact Hin. }
  split; [exact Hproc | lia].
Qed.

(** The theorem applies to the 3 by 3 pit grid with the D8 offsets. *)
Lemma find_watersheds_processes_each_cell_once_witness :
  exists s,
    @find_watersheds_state lowest_first d8_neighbourhood pit_grid empty_labels true
    = Some s /\
    processed_cells s = width pit_grid * height pit_grid /\
    pitc s + openc s = width pit_grid * height pit_grid.
Proof.
  apply (find_watersheds_processes_each_cell_once lowest_first d8_neighbourhood
           pit_grid empty_labels true).
  - simpl. lia.
  - simpl. lia.
  - exists 5. split; [lia|]. split; reflexivity.
Defined.

(** [watershed_area] after [find_watersheds]: on a grid with cells, the
    report on the returned labels has exactly one line for each of the
    watersheds 1..[n], in this order, and the areas are at least 1. *)
Theorem watershed_area_of_find_watersheds :
  forall (pq : PriorityQueue) (nb : Neighbourhood) elev lab alter,
    1 <= width elev -> 1 <= height elev ->
    exists elev' lab' n,
      find_watersheds elev lab alter = Some (elev', lab') /\
      map fst (watershed_counts lab') = zrange 1 (n + 1) /\
      Z.of_nat (length (watershed_area lab')) = n /\
      (forall k v, In (k, v) (watershed_counts lab') -> 1 <= v) /\
      total_area (watershed_counts lab') <= width elev * height elev.
Proof.
  intros pq nb elev lab alter Hwd Hht.
  destruct (find_watersheds_final elev lab alter)
    as (s & n & _ & Hr & Hs & _ & _ & Hi & _ & (Lw & Lh & _) & _).
  simpl in Lw, Lh.
  pose proof (fw_watersheds_iter elev alter lab n) as [Hw _]. rewrite <- Hs in Hw.
  pose proof (inv_clabel _ _ _ Hi) as Hc.
  pose proof (inv_label_no_data _ _ _ Hi) as Hnd.
  destruct (watershed_counts_spec (labels s)) as (Hsorted & Htot & Hfind).
  cbv zeta in Hfind. rewrite Lw, Lh in Htot, Hfind.
  exists (elevations s), (labels s), (clabel s - 1). split; [exact Hr|].
  assert (Hkeys : map fst (watershed_counts (labels s)) = zrange 1 (clabel s - 1 + 1)).
  { apply sorted_same_elements; [exact Hsorted | apply zrange_sorted|].
    intros k. rewrite in_zrange, in_map_iff. split.
    - intros ([k' v] & Hk & Hin). simpl in Hk. subst k'.
      apply (map_find_In _ k v Hsorted) in Hin. rewrite Hfind, Hnd in Hin.
      destruct (Z.eqb_spec k (-1)) as [|Hk]; [discriminate|]. simpl in Hin.
      destruct (length (cells_of (labels s) k
                          (grid_cells (width elev) (height elev)))) eqn:Hlen;
        [discriminate|].
      unfold cells_of in Hlen.
      destruct (filter _ _) as [|[x y] l] eqn:Hf; [discriminate|].
      assert (Hxy : In (x, y) (filter (fun p => get (labels s) (fst p) (snd p) =? k)
                                 (grid_cells (width elev) (height elev))))
        by (rewrite Hf; left; reflexivity).
      apply filter_In in Hxy. destruct Hxy as [_ Hxy]. simpl in Hxy.
      apply Z.eqb_eq in Hxy. destruct (inv_labels _ _ _ Hi x y); lia.
    - intros Hk. destruct (Hw k ltac:(lia)) as (rx & ry & Hroot & Hg & _).
      specialize (Hg Hwd Hht). apply in_grid_spec in Hg.
      assert (Hin : In (rx, ry) (cells_of (labels s) k
                                   (grid_cells (width elev) (height elev)))).
      { apply filter_In. split; [apply in_grid_cells; exact Hg|].
        simpl. apply Z.eqb_eq. exact Hroot. }
      exists (k, Z.of_nat (length (cells_of (labels s) k
                                     (grid_cells (width elev) (height elev))))).
      split; [reflexivity|]. apply (map_find_In _ _ _ Hsorted).
      rewrite Hfind, Hnd. destruct (Z.eqb_spec k (-1)) as [|_]; [lia|]. simpl.
      destruct (cells_of _ _ _); [destruct Hin | reflexivity]. }
  split; [exact Hkeys|]. split; [|split].
  - unfold watershed_area. rewrite length_map.
    rewrite <- (length_map fst), Hkeys, length_zrange. lia.
  - intros k v Hin. apply (map_find_In _ k v Hsorted) in Hin.
    rewrite Hfind in Hin.
    destruct ((k =? no_data (labels s)) || _)%bool eqn:Hb; [discriminate|].
    apply orb_false_iff in Hb. destruct Hb as [_ Hb]. apply Nat.eqb_neq in Hb.
    injection Hin as <-. lia.
  - rewrite Htot.
    pose proof (filter_length_le_all _
                  (fun p => negb (get (labels s) (fst p) (snd p) =? no_data (labels s)))
                  (grid_cells (width elev) (height elev))) as Hle.
    fold (labelled_cells (labels s) (grid_cells (width elev) (height elev))) in Hle.
    pose proof (length_grid_cells (width elev) (height elev)) as Hlen. lia.
Qed.

(** The theorem applies to the pit grid. *)
Lemma watershed_area_of_find_watersheds_witness :
  exists elev' lab' n,
    @find_watersheds lowest_first d8_neighbourhood pit_grid empty_labels true
    = Some (elev', lab') /\
    map fst (watershed_counts lab') = zrange 1 (n + 1) /\
    Z.of_nat (length (watershed_area lab')) = n /\
    (forall k v, In (k, v) (watershed_counts lab') -> 1 <= v) /\
    total_area (watershed_counts lab') <= width pit_grid * height pit_grid.
Proof.
  apply (watershed_area_of_find_watersheds lowest_first d8_neighbourhood
           pit_grid empty_labels true); simpl; lia.
Defined.

(** * Terrain attributes: the slope and the sentinel *)

(** A value that is not below zero: a NaN, a zero of either sign, or a
    positive number or infinity. *)
Definition not_negative (v : spec_float) : Prop :=
  match v with
  | S754_infinity s | S754_finite s _ _ => s = false
  | _ => True
  end.

(** Rounding keeps the sign it is given. *)
Lemma binary_round_aux_sign : forall prec emax s m e l,
    match binary_round_aux prec emax s m e l with
    | S754_zero s' | S754_infinity s' | S754_finite s' _ _ => s' = s
    | S754_nan => True
    end.
Proof.
  intros prec emax s m e l. unfold binary_round_aux.
  destruct (shr_fexp prec emax m e l) as [mrs' e'].
  destruct (shr_fexp prec emax _ e' loc_Exact) as [mrs'' e''].
  destruct (shr_m mrs''); [reflexivity| |exact I].
  destruct (Z.leb _ _); reflexivity.
Qed.

Lemma binary_round_aux_not_negative : forall prec emax m e l,
    not_negative (binary_round_aux prec emax false m e l).
Proof.
  intros prec emax m e l. pose proof (binary_round_aux_sign prec emax false m e l) as Hs.
  destruct (binary_round_aux prec emax false m e l); simpl; auto.
Qed.

Lemma binary_round_not_negative : forall prec emax m e,
    not_negative (binary_round prec emax false m e).
Proof.
  intros prec emax m e. unfold binary_round.
  destruct (shl_align _ _ _) as [mz ez]. apply binary_round_aux_not_negative.
Qed.

Lemma dmul_square_not_negative : forall x, not_negative (FP.dmul x x).
Proof.
  intros [s|s| |s m e]; unfold FP.dmul, SFmul.
  - exact I.
  - destruct s; reflexivity.
  - exact I.
  - replace (xorb s s) with false by (destruct s; reflexivity).
    apply binary_round_aux_not_negative.
Qed.

Lemma dadd_not_negative : forall a b,
    not_negative a -> not_negative b -> not_negative (FP.dadd a b).
Proof.
  intros [sa|sa| |sa ma ea] [sb|sb| |sb mb eb] Ha Hb; unfold FP.dadd, SFadd;
    simpl in Ha, Hb; subst; try exact I; try reflexivity.
  - destruct sa, sb; exact I.
  - cbn [cond_Zopp Z.add]. cbn [binary_normalize]. apply binary_round_not_negative.
Qed.

Lemma dsqrt_not_negative : forall a, not_negative a -> not_negative (FP.dsqrt a).
Proof.
  intros [s|s| |s m e] Ha; unfold FP.dsqrt, SFsqrt; simpl in Ha; subst;
    try exact I; try reflexivity.
  destruct (SFsqrt_core_binary _ _ _ _) as [[mz ez] lz].
  apply binary_round_aux_not_negative.
Qed.

Lemma to_float_not_negative : forall a, not_negative a -> not_negative (FP.to_float a).
Proof.
  intros [s|s| |s m e] Ha; unfold FP.to_float; simpl in Ha; subst;
    try exact I; try reflexivity.
  apply binary_round_not_negative.
Qed.

Lemma fmul_100_not_negative : forall a,
    not_negative a -> not_negative (FP.fmul a (FP.float_of_int 100)).
Proof.
  assert (H100 : exists m e, FP.float_of_int 100 = S754_finite false m e)
    by (vm_compute; eauto).
  destruct H100 as (m100 & e100 & ->).
  intros [s|s| |s m e] Ha; unfold FP.fmul, SFmul; simpl in Ha; subst;
    try exact I; try reflexivity.
  cbn [xorb]. apply binary_round_aux_not_negative.
Qed.

Lemma not_negative_ltb_0 : forall v,
    not_negative v -> FP.ltb v (FP.float_of_int 0) = false.
Proof.
  change (FP.float_of_int 0) with (S754_zero false).
  intros [s|s| |s m e] Hv; simpl in Hv; subst; reflexivity.
Qed.

Lemma not_negative_sentinel : forall v,
    not_negative v -> FP.eqb v (FP.float_of_int (-99999)) = false.
Proof.
  assert (Hs : exists m e, FP.float_of_int (-99999) = S754_finite true m e)
    by (vm_compute; eauto).
  destruct Hs as (ms & es & ->).
  intros [s|s| |s m e] Hv; simpl in Hv; subst; reflexivity.
Qed.

(** The slope of [d8_terrain_attrib_helper] is a square root: it is never
    below zero, whatever the elevations are. *)
Lemma helper_slope_not_negative : forall (L : Libm) elevations x y,
    not_negative (rise_over_run (d8_terrain_attrib_helper elevations x y)).
Proof.
  intros L elevations x y. unfold d8_terrain_attrib_helper. cbv zeta.
  assert (Hr : forall dzdx dzdy,
             not_negative
               (FP.to_float (FP.dsqrt (FP.dadd (FP.dmul dzdx dzdx) (FP.dmul dzdy dzdy))))).
  { intros dzdx dzdy. apply to_float_not_negative, dsqrt_not_negative.
    apply dadd_not_negative; apply dmul_square_not_negative. }
  destruct (FP.eqb _ _); [apply Hr|].
  destruct (_ && _); apply Hr.
Qed.

(** * Terrain attributes: cell by cell *)

Section ScanOnce.
Context {T : Type}.
Variable cell : Z -> Z -> array2d T -> array2d T.
Hypothesis cell_frame : own_cell_only cell.

(** A scan over cells without repetition leaves in a visited cell what the
    body writes there on the initial grid, when that depends on the grid
    through the cell itself and the sentinel only. *)
Lemma scan_once : forall l g x y,
    NoDup l -> In (x, y) l ->
    (forall g', no_data g' = no_data g -> get g' x y = get g x y ->
                get (cell x y g') x y = get (cell x y g) x y) ->
    get (fold_left (fun acc p => cell (fst p) (snd p) acc) l g) x y
    = get (cell x y g) x y.
Proof.
  induction l as [|p l IH]; intros g x y Hnd Hin Hdep; [destruct Hin|].
  apply NoDup_cons_iff in Hnd. destruct Hnd as [Hp Hnd]. simpl.
  destruct Hin as [->|Hin].
  - rewrite (scan_untouched cell cell_frame) by exact Hp. reflexivity.
  - destruct (cell_frame (fst p) (snd p) g) as (_ & _ & _ & D & F).
    assert (Hne : (x, y) <> (fst p, snd p)).
    { intros Heq. apply Hp. rewrite (surjective_pairing p), <- Heq. exact Hin. }
    rewrite (IH (cell (fst p) (snd p) g) x y Hnd Hin).
    + apply Hdep; [exact D | apply F; exact Hne].
    + intros g' Hn Hg. rewrite (Hdep g'); [|congruence|rewrite Hg; apply F; exact Hne].
      symmetry. apply Hdep; [exact D | apply F; exact Hne].
Qed.

End ScanOnce.

Section TerrainCells.
Context {libm : Libm} {selectors : Selectors}.

Lemma d8_terrain_attribute_cell : forall elevations attribs attrib x y,
    get (d8_terrain_attribute elevations attribs attrib) x y
    = if in_grid elevations x y
      then if FP.eqb (get elevations x y) (no_data elevations)
           then FP.float_of_int (-99999)
           else match select_attrib attrib (d8_terrain_attrib_helper elevations x y) with
                | Some v => v
                | None => get attribs x y
                end
      else get attribs x y.
Proof.
  intros elevations attribs attrib x y. rewrite d8_terrain_attribute_scan.
  destruct (in_grid elevations x y) eqn:Hg.
  - rewrite (scan_once _ (terrain_cell_frame elevations attrib)).
    + unfold terrain_cell. destruct (FP.eqb _ _); [apply get_set_same|].
      destruct (select_attrib _ _); [apply get_set_same | reflexivity].
    + apply NoDup_grid_cells.
    + apply in_grid_cells. apply in_grid_spec. exact Hg.
    + intros g' Hn Hxy. unfold terrain_cell. destruct (FP.eqb _ _).
      * rewrite !get_set_same. exact Hn.
      * destruct (select_attrib _ _); [rewrite !get_set_same; reflexivity | exact Hxy].
  - rewrite (scan_untouched _ (terrain_cell_frame elevations attrib)); [reflexivity|].
    intros Hin. apply in_grid_cells in Hin. apply in_grid_spec in Hin. congruence.
Qed.

Lemma select_attrib_slopes : forall t,
    select_attrib TATTRIB_SLOPE_PERCENT t
    = Some (FP.fmul (rise_over_run t) (FP.float_of_int 100)) /\
    select_attrib TATTRIB_SLOPE_RADIAN t
    = Some (FP.to_float (atan (FP.to_double (rise_over_run t)))) /\
    select_attrib TATTRIB_SLOPE_DEGREE t
    = Some (FP.to_float
              (FP.ddiv (FP.dmul (atan (FP.to_double (rise_over_run t))) FP.d_180)
                       FP.M_PI)).
Proof.
  intros t. pose proof selectors_distinct as Hd.
  repeat (apply NoDup_cons_iff in Hd; destruct Hd as [? Hd]).
  simpl in *. unfold select_attrib.
  repeat split;
    repeat match goal with
           | |- context [?a =? ?b] => destruct (Z.eqb_spec a b)
           end;
    try reflexivity; exfalso; intuition congruence.
Qed.

Lemma select_attrib_unknown : forall attrib t,
    ~ In attrib [TATTRIB_CURVATURE; TATTRIB_PLANFORM_CURVATURE;
                 TATTRIB_PROFILE_CURVATURE; TATTRIB_ASPECT; TATTRIB_SLOPE_RISERUN;
                 TATTRIB_SLOPE_PERCENT; TATTRIB_SLOPE_RADIAN; TATTRIB_SLOPE_DEGREE] ->
    select_attrib attrib t = None.
Proof.
  intros attrib t Hn. unfold select_attrib.
  repeat match goal with
         | |- context [?a =? ?b] => destruct (Z.eqb_spec a b)
         end;
    try reflexivity; exfalso; apply Hn; simpl; intuition congruence.
Qed.

(** Where the slope is zero the helper reports a flat: aspect -1 and the
    three curvatures 0. *)
Lemma helper_flat : forall elevations x y,
    let t := d8_terrain_attrib_helper elevations x y in
    FP.eqb (rise_over_run t) (FP.float_of_int 0) = true ->
    aspect t = FP.float_of_int (-1) /\ curvature t = FP.float_of_int 0 /\
    profile_curvature t = FP.float_of_int 0 /\
    planform_curvature t = FP.float_of_int 0.
Proof.
  intros elevations x y t. unfold t, d8_terrain_attrib_helper. cbv zeta.
  destruct (FP.eqb (FP.to_float (FP.dsqrt _)) _) eqn:Hflat.
  - intros _. repeat split.
  - intros Hr. exfalso. destruct (_ && _); cbn [rise_over_run] in Hr; congruence.
Qed.

(** The slope written for a data cell, as a ratio or in percent, is not
    below zero and differs from the sentinel. *)
Lemma slope_cell : forall elevations x y v,
    v = rise_over_run (d8_terrain_attrib_helper elevations x y) \/
    v = FP.fmul (rise_over_run (d8_terrain_attrib_helper elevations x y))
                (FP.float_of_int 100) ->
    FP.ltb v (FP.float_of_int 0) = false /\
    FP.eqb v (FP.float_of_int (-99999)) = false.
Proof.
  intros elevations x y v Hv.
  assert (Hnn : not_negative v).
  { destruct Hv as [->| ->]; [|apply fmul_100_not_negative];
      apply helper_slope_not_negative. }
  split; [apply not_negative_ltb_0 | apply not_negative_sentinel]; exact Hnn.
Qed.

End TerrainCells.

Lemma d8_terrain_attribute_props :
  forall (L : Libm) (Sel : Selectors) (elevations attribs : float_2d) attrib,
    let out := d8_terrain_attribute elevations attribs attrib in
    width out = width elevations /\ height out = height elevations /\
    cellsize out = cellsize elevations /\
    no_data out = FP.float_of_int (-99999).
Proof.
  intros L Sel elevations attribs attrib out. unfold out.
  rewrite d8_terrain_attribute_scan.
  apply (scan_props (terrain_cell elevations attrib)
           (terrain_cell_frame elevations attrib)
           (grid_cells (width elevations) (height elevations))
           (set_no_data (copyprops attribs elevations) (FP.float_of_int (-99999)))).
Qed.

(** In a slope grid computed as a ratio or in percent the sentinel marks the
    no-data cells and nothing else: a cell of the grid compares equal to the
    sentinel -99999 exactly when its input elevation is no-data, and it is
    below zero exactly then.  This holds for all elevations, NaN and
    infinities included, since the slope is a square root. *)
Theorem d8_slope_sentinel_exact :
  forall (L : Libm) (Sel : Selectors) (elevations slopes : float_2d) (slope_type : Z),
    slope_type = TATTRIB_SLOPE_RISERUN \/ slope_type = TATTRIB_SLOPE_PERCENT ->
    let out := d8_slope elevations slopes slope_type in
    forall x y,
      in_grid elevations x y = true ->
      FP.eqb (get out x y) (no_data out)
      = FP.eqb (get elevations x y) (no_data elevations) /\
      FP.ltb (get out x y) (FP.float_of_int 0)
      = FP.eqb (get elevations x y) (no_data elevations).
Proof.
  intros L Sel elevations slopes slope_type Hty out x y Hg. unfold out, d8_slope.
  destruct (d8_terrain_attribute_props L Sel elevations slopes slope_type)
    as (_ & _ & _ & ->).
  rewrite d8_terrain_attribute_cell, Hg.
  destruct (FP.eqb (get elevations x y) (no_data elevations)).
  - split; vm_compute; reflexivity.
  - destruct (select_attrib_cases (d8_terrain_attrib_helper elevations x y))
      as (_ & _ & _ & _ & Hr).
    destruct (select_attrib_slopes (d8_terrain_attrib_helper elevations x y))
      as (Hp & _).
    destruct Hty as [-> | ->]; [rewrite Hr | rewrite Hp].
    + destruct (slope_cell elevations x y _ (or_introl eq_refl)) as [Hlt Hne].
      split; [exact Hne | exact Hlt].
    + destruct (slope_cell elevations x y _ (or_intror eq_refl)) as [Hlt Hne].
      split; [exact Hne | exact Hlt].
Qed.

(** On the pit grid, whose cells all hold data, no cell of the percent slope
    is the sentinel or below zero. *)
Lemma d8_slope_sentinel_exact_witness :
  in_grid pit_grid 1 1 = true /\
  FP.eqb (get (d8_slope (libm := nan_libm) (selectors := example_selectors)
                 pit_grid nodata_centre 7) 1 1)
         (no_data (d8_slope (libm := nan_libm) (selectors := example_selectors)
                     pit_grid nodata_centre 7))
  = FP.eqb (get pit_grid 1 1) (no_data pit_grid) /\
  FP.ltb (get (d8_slope (libm := nan_libm) (selectors := example_selectors)
                 pit_grid nodata_centre 7) 1 1)
         (FP.float_of_int 0)
  = FP.eqb (get pit_grid 1 1) (no_data pit_grid).
Proof.
  split; [reflexivity|].
  apply (d8_slope_sentinel_exact nan_libm example_selectors pit_grid nodata_centre 7).
  - right. reflexivity.
  - reflexivity.
Defined.

(** What the attribute functions leave in a cell of the grid that holds
    data: each of the eight selectors stores its own output of
    [d8_terrain_attrib_helper] for that cell, whatever the output grid held
    before; [d8_aspect], [d8_curvature], [d8_planform_curvature] and
    [d8_profile_curvature] are the scans for their selectors. *)
Theorem terrain_attribute_values :
  forall (L : Libm) (Sel : Selectors) (elevations prior : float_2d) (x y : Z),
    in_grid elevations x y = true ->
    FP.eqb (get elevations x y) (no_data elevations) = false ->
    let t := d8_terrain_attrib_helper elevations x y in
    get (d8_curvature elevations prior) x y = curvature t /\
    get (d8_planform_curvature elevations prior) x y = planform_curvature t /\
    get (d8_profile_curvature elevations prior) x y = profile_curvature t /\
    get (d8_aspect elevations prior) x y = aspect t /\
    get (d8_slope elevations prior TATTRIB_SLOPE_RISERUN) x y = rise_over_run t /\
    get (d8_slope elevations prior TATTRIB_SLOPE_PERCENT) x y
    = FP.fmul (rise_over_run t) (FP.float_of_int 100) /\
    get (d8_slope elevations prior TATTRIB_SLOPE_RADIAN) x y
    = FP.to_float (atan (FP.to_double (rise_over_run t))) /\
    get (d8_slope elevations prior TATTRIB_SLOPE_DEGREE) x y
    = FP.to_float (FP.ddiv (FP.dmul (atan (FP.to_double (rise_over_run t))) FP.d_180)
                           FP.M_PI).
Proof.
  intros L Sel elevations prior x y Hg Hd t.
  unfold d8_curvature, d8_planform_curvature, d8_profile_curvature, d8_aspect, d8_slope.
  rewrite !d8_terrain_attribute_cell, Hg, Hd.
  destruct (select_attrib_cases t) as (H1 & H2 & H3 & H4 & H5).
  destruct (select_attrib_slopes t) as (H6 & H7 & H8).
  fold t. rewrite H1, H2, H3, H4, H5, H6, H7, H8.
  repeat split; reflexivity.
Qed.

(** The centre of the pit grid holds data. *)
Lemma terrain_attribute_values_witness :
  (in_grid pit_grid 1 1 = true /\
   FP.eqb (get pit_grid 1 1) (no_data pit_grid) = false) /\
  get (d8_curvature (libm := nan_libm) (selectors := example_selectors)
         pit_grid nodata_centre) 1 1
  = curvature (d8_terrain_attrib_helper (libm := nan_libm) pit_grid 1 1) /\
  get (d8_aspect (libm := nan_libm) (selectors := example_selectors)
         pit_grid nodata_centre) 1 1
  = aspect (d8_terrain_attrib_helper (libm := nan_libm) pit_grid 1 1).
Proof.
  split; [split; reflexivity|].
  destruct (terrain_attribute_values nan_libm example_selectors pit_grid nodata_centre
              1 1 eq_refl eq_refl) as (Hc & _ & _ & Ha & _).
  split; [exact Hc | exact Ha].
Defined.

(** The [switch] has no default case: with a selector that is none of the
    eight, the body of the two loops writes nothing for a cell that holds
    data.  So after the scan of lines 207-246, started on any grid [g], a
    data cell of the grid holds what [g] held there, while a no-data cell
    holds the sentinel of [g]; [d8_terrain_attribute] is this scan, started
    on the output grid as lines 203-204 set it up. *)
Theorem d8_terrain_attribute_unknown_selector :
  forall (L : Libm) (Sel : Selectors) (elevations attribs : float_2d) (attrib : Z),
    ~ In attrib [TATTRIB_CURVATURE; TATTRIB_PLANFORM_CURVATURE;
                 TATTRIB_PROFILE_CURVATURE; TATTRIB_ASPECT; TATTRIB_SLOPE_RISERUN;
                 TATTRIB_SLOPE_PERCENT; TATTRIB_SLOPE_RADIAN; TATTRIB_SLOPE_DEGREE] ->
    (forall (g : float_2d) x y,
        FP.eqb (get elevations x y) (no_data elevations) = false ->
        terrain_cell elevations attrib x y g = g) /\
    (forall (g : float_2d) x y,
        in_grid elevations x y = true ->
        get (for_loop 0 (width elevations)
               (fun x' acc =>
                  for_loop 0 (height elevations)
                    (terrain_cell elevations attrib x') acc) g) x y
        = if FP.eqb (get elevations x y) (no_data elevations)
          then no_data g
          else get g x y) /\
    d8_terrain_attribute elevations attribs attrib
    = for_loop 0 (width elevations)
        (fun x' acc =>
           for_loop 0 (height elevations) (terrain_cell elevations attrib x') acc)
        (set_no_data (copyprops attribs elevations) (FP.float_of_int (-99999))).
Proof.
  intros L Sel elevations attribs attrib Hn.
  assert (Hbody : forall (g : float_2d) x y,
             FP.eqb (get elevations x y) (no_data elevations) = false ->
             terrain_cell elevations attrib x y g = g).
  { intros g x y Hd. unfold terrain_cell.
    rewrite Hd, (select_attrib_unknown attrib _ Hn). reflexivity. }
  split; [exact Hbody|]. split; [|reflexivity].
  intros g x y Hg.
  rewrite (nested_loops_cells (terrain_cell elevations attrib)).
  rewrite (scan_once _ (terrain_cell_frame elevations attrib)).
  - destruct (FP.eqb (get elevations x y) (no_data elevations)) eqn:Hd.
    + unfold terrain_cell. rewrite Hd. apply get_set_same.
    + rewrite (Hbody g x y Hd). reflexivity.
  - apply NoDup_grid_cells.
  - apply in_grid_cells. apply in_grid_spec. exact Hg.
  - intros g' Hnd Hxy.
    destruct (FP.eqb (get elevations x y) (no_data elevations)) eqn:Hd.
    + unfold terrain_cell. rewrite Hd, !get_set_same. exact Hnd.
    + rewrite !(Hbody _ x y Hd). exact Hxy.
Qed.

(** With the selectors numbered 2 to 9, the selector 0 is none of them: the
    scan of [nodata_centre] started on the pit grid leaves the data cell
    [(0, 0)] as the pit grid has it. *)
Lemma d8_terrain_attribute_unknown_selector_witness :
  get (for_loop 0 (width nodata_centre)
         (fun x' acc =>
            for_loop 0 (height nodata_centre)
              (terrain_cell (libm := nan_libm) (selectors := example_selectors)
                 nodata_centre 0 x') acc)
         pit_grid) 0 0
  = get pit_grid 0 0.
Proof.
  destruct (d8_terrain_attribute_unknown_selector nan_libm example_selectors
              nodata_centre pit_grid 0) as (_ & Hscan & _).
  - simpl. intros Hin. repeat destruct Hin as [Hin|Hin]; try discriminate Hin.
    exact Hin.
  - rewrite (Hscan pit_grid 0 0 eq_refl). reflexivity.
Defined.

(** Flats are marked alike in all attribute grids: where the slope grid of
    a data cell compares equal to zero, the aspect grid holds the special
    value -1 and the three curvature grids hold 0. *)
Theorem flat_cells_agree :
  forall (L : Libm) (Sel : Selectors) (elevations prior : float_2d) (x y : Z),
    in_grid elevations x y = true ->
    FP.eqb (get elevations x y) (no_data elevations) = false ->
    FP.eqb (get (d8_slope elevations prior TATTRIB_SLOPE_RISERUN) x y)
           (FP.float_of_int 0) = true ->
    get (d8_aspect elevations prior) x y = FP.float_of_int (-1) /\
    get (d8_curvature elevations prior) x y = FP.float_of_int 0 /\
    get (d8_profile_curvature elevations prior) x y = FP.float_of_int 0 /\
    get (d8_planform_curvature elevations prior) x y = FP.float_of_int 0.
Proof.
  intros L Sel elevations prior x y Hg Hd.
  unfold d8_curvature, d8_planform_curvature, d8_profile_curvature, d8_aspect, d8_slope.
  rewrite !d8_terrain_attribute_cell, Hg, Hd.
  destruct (select_attrib_cases (d8_terrain_attrib_helper elevations x y))
    as (-> & -> & -> & -> & ->).
  intros Hflat. destruct (helper_flat elevations x y Hflat) as (Ha & Hc & Hp & Hpl).
  repeat split; assumption.
Qed.

(** The flat grid at cell size 1: the slope of cell [(1, 1)] is zero. *)
Lemma flat_cells_agree_witness :
  (in_grid (flat_grid (FP.double_of_int 1) (FP.float_of_int (-9999))) 1 1 = true /\
   FP.eqb (get (flat_grid (FP.double_of_int 1) (FP.float_of_int (-9999))) 1 1)
          (no_data (flat_grid (FP.double_of_int 1) (FP.float_of_int (-9999)))) = false /\
   FP.eqb (get (d8_slope (libm := nan_libm) (selectors := example_selectors)
                  (flat_grid (FP.double_of_int 1) (FP.float_of_int (-9999))) pit_grid 6) 1 1)
          (FP.float_of_int 0) = true) /\
  get (d8_aspect (libm := nan_libm) (selectors := example_selectors)
         (flat_grid (FP.double_of_int 1) (FP.float_of_int (-9999))) pit_grid) 1 1
  = FP.float_of_int (-1) /\
  get (d8_curvature (libm := nan_libm) (selectors := example_selectors)
         (flat_grid (FP.double_of_int 1) (FP.float_of_int (-9999))) pit_grid) 1 1
  = FP.float_of_int 0.
Proof.
  assert (Hslope : FP.eqb (get (d8_slope (libm := nan_libm)
                                  (selectors := example_selectors)
                                  (flat_grid (FP.double_of_int 1) (FP.float_of_int (-9999))) pit_grid 6) 1 1)
                          (FP.float_of_int 0) = true) by (vm_compute; reflexivity).
  split; [split; [reflexivity | split; [reflexivity | exact Hslope]]|].
  destruct (flat_cells_agree nan_libm example_selectors
              (flat_grid (FP.double_of_int 1) (FP.float_of_int (-9999))) pit_grid 1 1
              eq_refl eq_refl Hslope) as (Ha & Hc & _).
  split; [exact Ha | exact Hc].
Defined.

(** * SPI and CTI: the result grid *)

Section IndexCells.
Context {libm : Libm}.

(** With inputs of equal dimensions the two functions do not exit and
    return the scan of the result grid. *)
Lemma index_run : forall (flow slope res : float_2d) diag,
    width flow = width slope -> height flow = height slope ->
    (exit_code (d8_SPI flow slope res diag) = None /\
     result (d8_SPI flow slope res diag)
     = for_loop 0 (width flow)
         (fun x acc => for_loop 0 (height flow) (index_cell spi_value flow slope x) acc)
         (set_no_data (copyprops res flow) (FP.float_of_int (-1)))) /\
    (exit_code (d8_CTI flow slope res diag) = None /\
     result (d8_CTI flow slope res diag)
     = for_loop 0 (width flow)
         (fun x acc => for_loop 0 (height flow) (index_cell cti_value flow slope x) acc)
         (set_no_data (copyprops res flow) (FP.float_of_int (-1)))).
Proof.
  intros flow slope res diag Hw Hh. unfold d8_SPI, d8_CTI.
  rewrite Hw, Hh, !Z.eqb_refl. simpl negb. simpl orb. cbv iota zeta.
  simpl result. simpl exit_code. rewrite <- Hw, <- Hh.
  split; split; reflexivity.
Qed.

End IndexCells.

Lemma float_eqb_nan : forall v w, FP.is_nan w = true -> FP.eqb v w = false.
Proof.
  intros v [s|s| |s m e] Hw; try discriminate Hw. destruct v; reflexivity.
Qed.

(** The postcondition of [d8_SPI] and [d8_CTI]: with inputs of equal
    dimensions the result grid takes the width, the height and the cell size
    of the flow accumulation, and every cell of the grid is written: what a
    cell of the grid holds after the call does not depend on what the result
    grid held before it, nor on the diagnostics written so far. *)
Theorem index_postcondition :
  forall (L : Libm) (flow slope res : float_2d) (diag : list string),
    width flow = width slope -> height flow = height slope ->
    (width (result (d8_SPI flow slope res diag)) = width flow /\
     height (result (d8_SPI flow slope res diag)) = height flow /\
     cellsize (result (d8_SPI flow slope res diag)) = cellsize flow) /\
    (width (result (d8_CTI flow slope res diag)) = width flow /\
     height (result (d8_CTI flow slope res diag)) = height flow /\
     cellsize (result (d8_CTI flow slope res diag)) = cellsize flow) /\
    forall (res' : float_2d) (diag' : list string) x y,
      in_grid flow x y = true ->
      get (result (d8_SPI flow slope res diag)) x y
      = get (result (d8_SPI flow slope res' diag')) x y /\
      get (result (d8_CTI flow slope res diag)) x y
      = get (result (d8_CTI flow slope res' diag')) x y.
Proof.
  intros L flow slope res diag Hw Hh.
  destruct (index_run flow slope res diag Hw Hh) as [[_ ->] [_ ->]].
  destruct (index_scan spi_value flow slope res) as (Ws & Hs & Cs & _ & Vs).
  destruct (index_scan cti_value flow slope res) as (Wc & Hc & Cc & _ & Vc).
  cbv zeta in *.
  split; [repeat split; assumption|]. split; [repeat split; assumption|].
  intros res' diag' x y Hg.
  destruct (index_run flow slope res' diag' Hw Hh) as [[_ ->] [_ ->]].
  destruct (index_scan spi_value flow slope res') as (_ & _ & _ & _ & Vs').
  destruct (index_scan cti_value flow slope res') as (_ & _ & _ & _ & Vc').
  cbv zeta in *.
  rewrite (Vs x y Hg), (Vs' x y Hg), (Vc x y Hg), (Vc' x y Hg).
  split; reflexivity.
Qed.

(** The two example grids have equal dimensions: the result of [d8_SPI]
    takes their width, and cell [(1, 1)] of the result of [d8_CTI] is the
    same for two different result grids. *)
Lemma index_postcondition_witness :
  (width flow_example = width slope_example /\
   height flow_example = height slope_example /\
   in_grid flow_example 1 1 = true) /\
  width (result (d8_SPI (libm := nan_libm) flow_example slope_example pit_grid []))
  = width flow_example /\
  get (result (d8_CTI (libm := nan_libm) flow_example slope_example pit_grid [])) 1 1
  = get (result (d8_CTI (libm := nan_libm) flow_example slope_example
                   nodata_centre [])) 1 1.
Proof.
  split; [repeat split; reflexivity|].
  destruct (index_postcondition nan_libm flow_example slope_example pit_grid []
              eq_refl eq_refl) as ((Hw & _) & _ & Hsame).
  split; [exact Hw|]. apply (Hsame nodata_centre [] 1 1). reflexivity.
Defined.

(** [d8_slope] in percent feeding [d8_SPI] and [d8_CTI]: when the flow
    accumulation has the dimensions of the elevation grid, neither function
    exits, and a cell of the grid is masked with -1 exactly when its flow
    accumulation or its elevation is no-data; any other cell is computed
    from the percent slope of [d8_terrain_attrib_helper]. *)
Theorem slope_into_indices :
  forall (L : Libm) (Sel : Selectors) (elevations flow prior res : float_2d)
         (diag : list string),
    width flow = width elevations -> height flow = height elevations ->
    exit_code (d8_SPI flow (d8_slope elevations prior TATTRIB_SLOPE_PERCENT) res diag)
    = None /\
    exit_code (d8_CTI flow (d8_slope elevations prior TATTRIB_SLOPE_PERCENT) res diag)
    = None /\
    forall x y,
      in_grid flow x y = true ->
      get (result (d8_SPI flow (d8_slope elevations prior TATTRIB_SLOPE_PERCENT)
                     res diag)) x y
      = (if FP.eqb (get flow x y) (no_data flow)
            || FP.eqb (get elevations x y) (no_data elevations)
         then FP.float_of_int (-1)
         else spi_value flow (d8_slope elevations prior TATTRIB_SLOPE_PERCENT) x y) /\
      get (result (d8_CTI flow (d8_slope elevations prior TATTRIB_SLOPE_PERCENT)
                     res diag)) x y
      = (if FP.eqb (get flow x y) (no_data flow)
            || FP.eqb (get elevations x y) (no_data elevations)
         then FP.float_of_int (-1)
         else cti_value flow (d8_slope elevations prior TATTRIB_SLOPE_PERCENT) x y) /\
      (FP.eqb (get elevations x y) (no_data elevations) = false ->
       get (d8_slope elevations prior TATTRIB_SLOPE_PERCENT) x y
       = FP.fmul (rise_over_run (d8_terrain_attrib_helper elevations x y))
                 (FP.float_of_int 100)).
Proof.
  intros L Sel elevations flow prior res diag Hw Hh.
  destruct (d8_terrain_attribute_props L Sel elevations prior TATTRIB_SLOPE_PERCENT)
    as (Sw & Sh & _ & Sn).
  cbv zeta in Sw, Sh, Sn. fold (d8_slope elevations prior TATTRIB_SLOPE_PERCENT) in Sw, Sh, Sn.
  assert (Hw' : width flow = width (d8_slope elevations prior TATTRIB_SLOPE_PERCENT))
    by congruence.
  assert (Hh' : height flow = height (d8_slope elevations prior TATTRIB_SLOPE_PERCENT))
    by congruence.
  destruct (index_run flow (d8_slope elevations prior TATTRIB_SLOPE_PERCENT) res diag
              Hw' Hh') as [[Es Rs] [Ec Rc]].
  split; [exact Es|]. split; [exact Ec|].
  intros x y Hg. rewrite Rs, Rc.
  destruct (index_scan spi_value flow (d8_slope elevations prior TATTRIB_SLOPE_PERCENT) res)
    as (_ & _ & _ & _ & Vs).
  destruct (index_scan cti_value flow (d8_slope elevations prior TATTRIB_SLOPE_PERCENT) res)
    as (_ & _ & _ & _ & Vc).
  cbv zeta in Vs, Vc. rewrite (Vs x y Hg), (Vc x y Hg).
  assert (Hge : in_grid elevations x y = true).
  { rewrite <- Hg. apply in_grid_dims; congruence. }
  assert (Hcell : get (d8_slope elevations prior TATTRIB_SLOPE_PERCENT) x y
                  = if FP.eqb (get elevations x y) (no_data elevations)
                    then FP.float_of_int (-99999)
                    else FP.fmul (rise_over_run (d8_terrain_attrib_helper elevations x y))
                                 (FP.float_of_int 100)).
  { unfold d8_slope. rewrite d8_terrain_attribute_cell, Hge.
    destruct (select_attrib_slopes (d8_terrain_attrib_helper elevations x y))
      as (-> & _). reflexivity. }
  assert (Hmask : FP.eqb (get (d8_slope elevations prior TATTRIB_SLOPE_PERCENT) x y)
                         (no_data (d8_slope elevations prior TATTRIB_SLOPE_PERCENT))
                  = FP.eqb (get elevations x y) (no_data elevations)).
  { rewrite Sn, Hcell. destruct (FP.eqb (get elevations x y) (no_data elevations)).
    - vm_compute. reflexivity.
    - apply (slope_cell elevations x y). right. reflexivity. }
  rewrite Hmask. split; [reflexivity|]. split; [reflexivity|].
  intros Hd. rewrite Hcell, Hd. reflexivity.
Qed.

(** The pit grid as elevations and a flow accumulation of its dimensions. *)
Lemma slope_into_indices_witness :
  (width nodata_centre = width pit_grid /\ height nodata_centre = height pit_grid) /\
  exit_code (d8_SPI (libm := nan_libm) nodata_centre
               (d8_slope (libm := nan_libm) (selectors := example_selectors)
                  pit_grid flow_example 7)
               slope_example [])
  = None.
Proof.
  split; [split; reflexivity|].
  destruct (slope_into_indices nan_libm example_selectors pit_grid nodata_centre
              flow_example slope_example [] eq_refl eq_refl) as (Hs & _).
  exact Hs.
Defined.

(** A NaN as the no-data value masks nothing, since cells are compared to it
    with [==]: [d8_terrain_attribute] then computes the attribute of every
    cell of the grid, and when both inputs of [d8_SPI] and [d8_CTI] have a
    NaN no-data value, every cell of the grid holds the computed index. *)
Theorem nan_no_data_masks_nothing :
  forall (L : Libm) (Sel : Selectors),
    (forall (elevations attribs : float_2d) (attrib x y : Z),
        FP.is_nan (no_data elevations) = true ->
        in_grid elevations x y = true ->
        get (d8_terrain_attribute elevations attribs attrib) x y
        = match select_attrib attrib (d8_terrain_attrib_helper elevations x y) with
          | Some v => v
          | None => get attribs x y
          end) /\
    (forall (flow slope res : float_2d) (diag : list string) (x y : Z),
        FP.is_nan (no_data flow) = true -> FP.is_nan (no_data slope) = true ->
        width flow = width slope -> height flow = height slope ->
        in_grid flow x y = true ->
        get (result (d8_SPI flow slope res diag)) x y = spi_value flow slope x y /\
        get (result (d8_CTI flow slope res diag)) x y = cti_value flow slope x y).
Proof.
  intros L Sel. split.
  - intros elevations attribs attrib x y Hn Hg.
    rewrite d8_terrain_attribute_cell, Hg, (float_eqb_nan _ _ Hn). reflexivity.
  - intros flow slope res diag x y Hnf Hns Hw Hh Hg.
    destruct (index_run flow slope res diag Hw Hh) as [[_ ->] [_ ->]].
    destruct (index_scan spi_value flow slope res) as (_ & _ & _ & _ & Vs).
    destruct (index_scan cti_value flow slope res) as (_ & _ & _ & _ & Vc).
    cbv zeta in Vs, Vc. rewrite (Vs x y Hg), (Vc x y Hg).
    rewrite (float_eqb_nan _ _ Hnf), (float_eqb_nan _ _ Hns). split; reflexivity.
Qed.

(** A 3 by 3 grid at elevation 5 whose no-data value is a NaN. *)
Definition nan_sentinel_grid : float_2d :=
  mk_array2d 3 3 (FP.double_of_int 1) S754_nan (fun _ _ => FP.float_of_int 5).

(** On the grid with a NaN no-data value the slope of the centre cell is
    computed, and so are the two indices. *)
Lemma nan_no_data_masks_nothing_witness :
  get (d8_terrain_attribute (libm := nan_libm) (selectors := example_selectors)
         nan_sentinel_grid pit_grid 6) 1 1
  = rise_over_run (d8_terrain_attrib_helper (libm := nan_libm) nan_sentinel_grid 1 1) /\
  get (result (d8_SPI (libm := nan_libm) nan_sentinel_grid nan_sentinel_grid
                 pit_grid [])) 1 1
  = spi_value (libm := nan_libm) nan_sentinel_grid nan_sentinel_grid 1 1.
Proof.
  destruct (nan_no_data_masks_nothing nan_libm example_selectors) as [Ht Hi].
  split.
  - rewrite (Ht nan_sentinel_grid pit_grid 6 1 1 eq_refl eq_refl). reflexivity.
  - apply (Hi nan_sentinel_grid nan_sentinel_grid pit_grid [] 1 1); reflexivity.
Defined.

(** The pit grid is 3 by 3. *)
Lemma seeding_each_boundary_cell_once_witness :
  (2 <= width pit_grid /\ 2 <= height pit_grid) /\
  NoDup (map cell_xy (open (fw_seed (fw_setup pit_grid empty_labels)))) /\
  meander (fw_seed (fw_setup pit_grid empty_labels)) = [].
Proof.
  split; [simpl; lia|].
  destruct (seeding_each_boundary_cell_once pit_grid empty_labels)
    as (Hnd & _ & _ & _ & Hm); [simpl; lia | simpl; lia |].
  split; [exact Hnd | exact Hm].
Defined.

(** The pit grid has cells; after one iteration of the main loop the entry
    for the cell [(0, 1)] waits, a cell of the grid. *)
Lemma find_watersheds_in_bounds_witness :
  (1 <= width pit_grid /\ 1 <= height pit_grid /\
   In (mk_grid_cellz 0 1 (FP.float_of_int 5))
      (entries (@fw_iter lowest_first d8_neighbourhood true 1
                  (fw_seed (fw_setup pit_grid empty_labels))))) /\
  in_grid pit_grid 0 1 = true.
Proof.
  assert (Hin : In (mk_grid_cellz 0 1 (FP.float_of_int 5))
                   (entries (@fw_iter lowest_first d8_neighbourhood true 1
                               (fw_seed (fw_setup pit_grid empty_labels)))))
    by (vm_compute; left; reflexivity).
  split; [split; [simpl; lia | split; [simpl; lia | exact Hin]]|].
  apply (@find_watersheds_in_bounds lowest_first d8_neighbourhood
           pit_grid empty_labels true 1 (mk_grid_cellz 0 1 (FP.float_of_int 5)));
    [simpl; lia | simpl; lia | exact Hin].
Defined.

(** * The flood: a grid without no-data cells *)

Section Values.
Context `{PriorityQueue} `{Neighbourhood}.
Variable elev0 : float_2d.
Variable alter : bool.

(** Every elevation of the grid is an elevation of the input grid: the
    flood writes nothing but elevations it has read. *)
Definition fw_values (s : fw_state) : Prop :=
  forall x y, in_grid elev0 x y = true ->
              exists x' y', in_grid elev0 x' y' = true /\
                            get (elevations s) x y = get elev0 x' y'.

Lemma fw_values_visit : forall c n s,
    fw_inv elev0 alter s -> popped_ok elev0 alter c s -> fw_values s ->
    fw_values (fw_visit alter c n s).
Proof.
  intros c n s Hi Hc Hv.
  destruct (fw_visit_cases alter c n s) as [[-> _]|(Hg & Hcl & _)]; [exact Hv|].
  destruct (fw_visit_discovers alter c n s Hg Hcl)
    as (_ & _ & _ & _ & _ & _ & _ & Eo & En & _).
  intros x y Gxy.
  assert (Hdim : 1 <= width elev0 /\ 1 <= height elev0).
  { apply in_grid_spec in Gxy. lia. }
  destruct (pop_in_grid _ _ _ _ Hc (proj1 Hdim) (proj2 Hdim))
    as [_ (x0 & y0 & Hg00 & Hz)].
  destruct (cell_eq_dec (x, y) (cell_x c + dx n, cell_y c + dy n)) as [Heq|Hxy].
  - injection Heq as -> ->.
    destruct En as [(E & _)|(E & _)]; rewrite E.
    + exists x0, y0. split; assumption.
    + apply Hv. exact Gxy.
  - rewrite (Eo x y Hxy). apply Hv. exact Gxy.
Qed.

Lemma fw_values_body : forall s s',
    fw_inv elev0 alter s -> fw_values s -> fw_body alter s = Some s' -> fw_values s'.
Proof.
  intros s s' Hi Hv Hb. unfold fw_body in Hb.
  destruct (fw_pop s) as [[c s1]|] eqn:Hp; [|discriminate].
  injection Hb as Hs'.
  destruct (fw_inv_pop elev0 alter s c s1 Hi Hp) as [Hi1 Hc1].
  destruct (fw_inv_label elev0 alter c s1 Hi1 Hc1) as (Hi2 & Hc2 & Hl2).
  destruct (fw_pop_spec _ _ _ Hp) as (E1 & _).
  destruct (fw_label_frame c s1) as (E2 & _).
  assert (Hv2 : fw_values (fw_label c s1)).
  { unfold fw_values. rewrite E2, E1. exact Hv. }
  rewrite <- Hs'. unfold fw_neighbours.
  apply (proj2 (A := fw_inv elev0 alter (for_loop 1 9 (fw_visit alter c) (fw_label c s1))
                     /\ popped_ok elev0 alter c (for_loop 1 9 (fw_visit alter c) (fw_label c s1))
                     /\ labelled elev0 c (for_loop 1 9 (fw_visit alter c) (fw_label c s1)))).
  apply (for_loop_ind _ (fun t => (fw_inv elev0 alter t /\ popped_ok elev0 alter c t
                                   /\ labelled elev0 c t) /\ fw_values t)).
  - intros k t Hk [(Ti & Tc & Tl) Tv]. split.
    + apply fw_inv_visit; assumption.
    + apply fw_values_visit; assumption.
  - split; [split; [|split]|]; assumption.
Qed.

Lemma fw_values_iter : forall lab n,
    fw_values (fw_iter alter n (fw_seed (fw_setup elev0 lab))).
Proof.
  intros lab n.
  apply (proj2 (A := fw_inv elev0 alter (fw_iter alter n (fw_seed (fw_setup elev0 lab))))).
  apply (fw_iter_inv alter (fun t => fw_inv elev0 alter t /\ fw_values t)).
  - intros s s' [Hi Hv] Hb.
    split; [apply (fw_inv_body elev0 alter s) | apply (fw_values_body s)]; assumption.
  - split; [apply fw_inv_seed|].
    destruct (fw_seed_spec elev0 lab) as (E & _).
    intros x y Gxy. exists x, y. split; [exact Gxy | rewrite E; reflexivity].
Qed.

End Values.

Lemma filter_all : forall A (f : A -> bool) l,
    (forall a, In a l -> f a = true) -> filter f l = l.
Proof.
  intros A f l Hall. induction l as [|a l IH]; [reflexivity|]. simpl.
  rewrite (Hall a (or_introl eq_refl)). f_equal. apply IH.
  intros b Hb. apply Hall. right. exact Hb.
Qed.

(** On a grid without no-data cells the watersheds cover the grid: every
    cell ends with a watershed label, with or without [alter_elevations],
    every returned elevation is an elevation of the input, and the areas
    that [watershed_area] reports for the returned labels add up to the
    number of cells.  The neighbour offsets must include the step (1, 0), as
    the D8 offsets do. *)
Theorem watersheds_cover_grid :
  forall (pq : PriorityQueue) (nb : Neighbourhood) (elev : float_2d) lab alter,
    (exists k, 1 <= k < 9 /\ dx k = 1 /\ dy k = 0) ->
    (forall x y, in_grid elev x y = true ->
                 FP.eqb (get elev x y) (no_data elev) = false) ->
    exists elev' lab',
      find_watersheds elev lab alter = Some (elev', lab') /\
      (forall x y, in_grid elev x y = true ->
                   1 <= get lab' x y /\
                   exists x' y', in_grid elev x' y' = true /\
                                 get elev' x y = get elev x' y') /\
      total_area (watershed_counts lab')
      = Z.max 0 (width elev) * Z.max 0 (height elev).
Proof.
  intros pq nb elev lab alter Heast Hdata.
  destruct (find_watersheds_final elev lab alter)
    as (s & n & _ & Hr & Hs & Ho & Hm & Hi & Hp & (Lw & Lh & _) & _).
  simpl in Lw, Lh.
  pose proof (fw_values_iter elev alter lab n) as Hv. rewrite <- Hs in Hv.
  exists (elevations s), (labels s). split; [exact Hr|].
  assert (Hlab : forall x y, in_grid elev x y = true -> 1 <= get (labels s) x y).
  { intros x y Hg.
    pose proof (fw_all_closed elev alter s Heast Hi Hp Ho Hm x y Hg) as Hc.
    destruct (Hp x y Hc) as [(c & Hc' & _)|[Hd _]].
    - apply in_entries in Hc'. rewrite Ho, Hm in Hc'. destruct Hc' as [[]|[]].
    - destruct (inv_labels _ _ _ Hi x y) as [Hl|Hl]; [|lia].
      destruct Hd as [Hd|Hd]; [contradiction|].
      destruct (Hv x y Hg) as (x' & y' & Hg' & Hxy).
      pose proof (Hdata x' y' Hg') as Hd'. rewrite <- Hxy in Hd'. congruence. }
  split.
  - intros x y Hg. split; [apply Hlab; exact Hg | apply Hv; exact Hg].
  - destruct (watershed_counts_spec (labels s)) as (_ & -> & _).
    rewrite Lw, Lh. unfold labelled_cells.
    rewrite filter_all; [apply length_grid_cells|].
    intros [x y] Hin. simpl. apply in_grid_cells in Hin.
    rewrite (inv_label_no_data _ _ _ Hi). apply negb_true_iff. apply Z.eqb_neq.
    assert (1 <= get (labels s) x y) by (apply Hlab; apply in_grid_spec; exact Hin).
    lia.
Qed.

(** The pit grid has no no-data cell; the D8 offset 5 is the step (1, 0). *)
Lemma watersheds_cover_grid_witness :
  exists elev' lab',
    @find_watersheds lowest_first d8_neighbourhood pit_grid empty_labels true
    = Some (elev', lab') /\
    (forall x y, in_grid pit_grid x y = true ->
                 1 <= get lab' x y /\
                 exists x' y', in_grid pit_grid x' y' = true /\
                               get elev' x y = get pit_grid x' y') /\
    total_area (watershed_counts lab')
    = Z.max 0 (width pit_grid) * Z.max 0 (height pit_grid).
Proof.
  apply (watersheds_cover_grid lowest_first d8_neighbourhood pit_grid empty_labels true).
  - exists 5. split; [lia|]. split; reflexivity.
  - intros x y _. unfold get, pit_grid. simpl.
    destruct ((x =? 1) && (y =? 1)); reflexivity.
Defined.

(** * The flood: the cells of the boundary *)

Section Outlets.
Context `{PriorityQueue} `{Neighbourhood}.
Variable elev0 : float_2d.
Variable alter : bool.

(** No two cells of the boundary share a watershed label. *)
Definition fw_outlets (s : fw_state) : Prop :=
  forall x y x' y',
    on_boundary elev0 x y -> on_boundary elev0 x' y' -> (x, y) <> (x', y') ->
    get (labels s) x y <> -1 -> get (labels s) x y <> get (labels s) x' y'.

Lemma fw_outlets_body : forall s s',
    fw_inv elev0 alter s -> fw_outlets s -> fw_body alter s = Some s' ->
    fw_outlets s'.
Proof.
  intros s s' Hi Ho Hb. unfold fw_body in Hb.
  destruct (fw_pop s) as [[c s1]|] eqn:Hp; [|discriminate].
  injection Hb as Hs'.
  destruct (fw_inv_pop elev0 alter s c s1 Hi Hp) as [Hi1 Hc1].
  destruct (fw_inv_label elev0 alter c s1 Hi1 Hc1) as (Hi2 & Hc2 & _).
  destruct (fw_pop_spec _ _ _ Hp) as (_ & L1 & _).
  assert (Ho2 : fw_outlets (fw_label c s1)).
  { destruct (fw_label_cases elev0 alter c s1 Hi1) as [->|(_ & _ & Hlab & _)].
    - unfold fw_outlets. rewrite L1. exact Ho.
    - intros x y x' y' Hb Hb' Hne. rewrite Hlab, L1.
      pose proof (inv_labels _ _ _ Hi x y) as Hx.
      pose proof (inv_labels _ _ _ Hi x' y') as Hx'.
      assert (Hk : clabel s1 = clabel s) by (apply (fw_pop_spec _ _ _ Hp)).
      pose proof (inv_clabel _ _ _ Hi) as Hcl.
      rewrite Hk.
      destruct (cell_eq_dec (x, y) (cell_x c, cell_y c)) as [Heq|Hxc];
        destruct (cell_eq_dec (x', y') (cell_x c, cell_y c)) as [Heq'|Hxc'].
      + congruence.
      + injection Heq as -> ->. rewrite get_set_same, get_set_other by exact Hxc'.
        intros _. lia.
      + injection Heq' as -> ->. rewrite get_set_same, get_set_other by exact Hxc.
        intros Hl. lia.
      + rewrite !get_set_other by assumption. apply Ho; assumption. }
  rewrite <- Hs'. intros x y x' y' Hb Hb' Hne.
  pose proof (fw_neighbours_labels alter c (fw_label c s1) (pop_closed _ _ _ _ Hc2))
    as Hlab.
  assert (Hkeep : forall u v, on_boundary elev0 u v ->
                    get (labels (fw_neighbours alter c (fw_label c s1))) u v
                    = get (labels (fw_label c s1)) u v).
  { intros u v Huv. destruct (Hlab u v) as [[_ E]|(Cl & _)]; [exact E|].
    destruct (inv_boundary _ _ _ Hi2 u v Huv) as [Cl' _]. congruence. }
  rewrite (Hkeep x y Hb), (Hkeep x' y' Hb'). apply Ho2; assumption.
Qed.

Lemma fw_outlets_iter : forall lab n,
    fw_outlets (fw_iter alter n (fw_seed (fw_setup elev0 lab))).
Proof.
  intros lab n.
  apply (proj2 (A := fw_inv elev0 alter (fw_iter alter n (fw_seed (fw_setup elev0 lab))))).
  apply (fw_iter_inv alter (fun t => fw_inv elev0 alter t /\ fw_outlets t)).
  - intros s s' [Hi Ho] Hb.
    split; [apply (fw_inv_body elev0 alter s) | apply (fw_outlets_body s)]; assumption.
  - split; [apply fw_inv_seed|].
    destruct (fw_seed_spec elev0 lab) as (_ & L & _).
    intros x y x' y' _ _ _ Hl. exfalso. apply Hl. apply L.
Qed.

End Outlets.

(** Every data cell of the boundary is the outlet of a watershed of its own:
    once [find_watersheds] returns, a boundary cell whose elevation is not
    no-data holds a watershed label that no other boundary cell holds, and a
    boundary cell whose elevation is no-data holds the sentinel -1.  So there
    are at least as many watersheds as data cells on the boundary. *)
Theorem boundary_cells_are_outlets :
  forall (pq : PriorityQueue) (nb : Neighbourhood) (elev : float_2d) lab alter,
  exists elev' lab',
    find_watersheds elev lab alter = Some (elev', lab') /\
    forall x y,
      on_boundary elev x y ->
      (if FP.eqb (get elev x y) (no_data elev)
       then get lab' x y = -1
       else 1 <= get lab' x y /\
            forall x' y', on_boundary elev x' y' -> (x', y') <> (x, y) ->
                          get lab' x' y' <> get lab' x y).
Proof.
  intros pq nb elev lab alter.
  destruct (find_watersheds_final elev lab alter)
    as (s & n & _ & Hr & Hs & Ho & Hm & Hi & Hp & _).
  pose proof (fw_outlets_iter elev alter lab n) as Hout. rewrite <- Hs in Hout.
  exists (elevations s), (labels s). split; [exact Hr|].
  intros x y Hb. destruct (inv_boundary _ _ _ Hi x y Hb) as (Hc & He & Hnd).
  destruct (FP.eqb (get elev x y) (no_data elev)) eqn:Hd; [apply Hnd; reflexivity|].
  assert (Hl : 1 <= get (labels s) x y).
  { destruct (Hp x y Hc) as [(c & Hc' & _)|[Hdone _]].
    - apply in_entries in Hc'. rewrite Ho, Hm in Hc'. destruct Hc' as [[]|[]].
    - destruct (inv_labels _ _ _ Hi x y) as [Hl|Hl]; [|lia].
      destruct Hdone as [Hdone|Hdone]; [contradiction|].
      rewrite He in Hdone. congruence. }
  split; [exact Hl|].
  intros x' y' Hb' Hne Heq.
  apply (Hout x y x' y' Hb Hb'); [congruence | lia | congruence].
Qed.
